(** * Study-schema cache, bounded prefetch and chart bridge of the
      TradingView helper (src/lib/tv/studies.ts)

    A shallow embedding of the schema cache ([getStudySchema], [hasStudy],
    [clearStudyCache], [searchCachedInputs]), of the bounded-concurrency
    prefetch ([prefetchStudySchemas]) and of the clear-all operations of the
    chart bridge ([clearAllIndicators], [clearAllPatterns],
    [clearAllPriceTargets]).

    Conventions of the embedding.
    - A JavaScript string is a [string] read as a sequence of code units
      below 256 (the Latin-1 range); [trim] and [toLowerCase] are the
      ECMAScript functions restricted to that range.
    - A [Map] is an insertion-ordered association list ([JsMap]): the code
      iterates over its maps, so the order of the entries is observable.
    - A plain object received from the widget is a [gmap] from property
      names to values: only property reads are performed on it.
    - Module-level mutable state is threaded explicitly; calls made on the
      widget are recorded in a trace, so that "no widget query was issued"
      is a statement about the trace.
    - An [async] function is cut at its [await]s.  The sequential
      definitions describe a call that runs to completion, that is, after
      the readiness promise has resolved; the prefetch worker pool keeps the
      suspension points and is run under an arbitrary scheduler. *)

From Stdlib Require Import ssreflect.
From stdpp Require Import gmap strings list pretty.

Set Warnings "-register-all,-rewrite-rw".

(** ** Strings *)

Module JsString.

Definition empty : string := EmptyString.

(** The double-quote character used inside the template literals. *)
Definition dquote : string := String (Ascii.ascii_of_N 34) EmptyString.

Definition code (c : Ascii.ascii) : N := Ascii.N_of_ascii c.

(** WhiteSpace and LineTerminator code units below 256: TAB, LF, VT, FF,
    CR, SP and NBSP. *)
Definition isWhiteSpace (c : Ascii.ascii) : bool :=
  let n := code c in
  ((9 <=? n) && (n <=? 13) || (n =? 32) || (n =? 160))%N.

(** Upper-case letters below 256: A-Z, and U+00C0-U+00DE except the
    multiplication sign U+00D7. *)
Definition isUpper (c : Ascii.ascii) : bool :=
  let n := code c in
  ((65 <=? n) && (n <=? 90)
   || (192 <=? n) && (n <=? 222) && negb (n =? 215))%N.

Definition lowerChar (c : Ascii.ascii) : Ascii.ascii :=
  if isUpper c then Ascii.ascii_of_N (code c + 32) else c.

Fixpoint toLowerCase (s : string) : string :=
  match s with
  | EmptyString => EmptyString
  | String c r => String (lowerChar c) (toLowerCase r)
  end.

Fixpoint trimStart (s : string) : string :=
  match s with
  | EmptyString => EmptyString
  | String c r => if isWhiteSpace c then trimStart r else s
  end.

Fixpoint trimEnd (s : string) : string :=
  match s with
  | EmptyString => EmptyString
  | String c r =>
      match trimEnd r with
      | EmptyString => if isWhiteSpace c then EmptyString else String c EmptyString
      | r' => String c r'
      end
  end.

Definition trim (s : string) : string := trimEnd (trimStart s).

(** [s.includes(q)]: [q] occurs in [s] as a contiguous substring. *)
Fixpoint includes (s q : string) : bool :=
  String.prefix q s ||
  match s with
  | EmptyString => false
  | String _ r => includes r q
  end.

(** [parts.join(sep)] *)
Fixpoint join (sep : string) (parts : list string) : string :=
  match parts with
  | [] => EmptyString
  | [p] => p
  | p :: rest => p +:+ sep +:+ join sep rest
  end.

End JsString.

(** ** Values handed over by the widget *)

Inductive JsVal : Type :=
  | JUndefined
  | JNull
  | JBool (b : bool)
  | JNum (n : Z)                 (* an integer-valued number *)
  | JStr (s : string)
  | JArr (elems : list JsVal)
  | JObj (fields : gmap string JsVal).

(** What a [throw] carries: an [Error] (or a subclass such as [TypeError])
    with its message, or any other value. *)
Inductive ThrownVal : Type :=
  | ThrownError (message : string)
  | ThrownValue (v : JsVal).

(** The way a call ends. *)
Inductive Completion (A : Type) : Type :=
  | Normal (a : A)
  | Throw (e : ThrownVal).
Arguments Normal {A} a.
Arguments Throw {A} e.

Module Js.

Definition isNullish (v : JsVal) : bool :=
  match v with
  | JUndefined | JNull => true
  | _ => false
  end.

(** [a ?? b] *)
Definition coalesce (a b : JsVal) : JsVal := if isNullish a then b else a.

Definition isArray (v : JsVal) : bool :=
  match v with
  | JArr _ => true
  | _ => false
  end.

(** [String(v)] for plain data. An array prints its elements separated by
    commas, a nullish element printing as nothing; an object without a
    [toString] of its own prints as [[object Object]]. *)
Fixpoint toStr (v : JsVal) : string :=
  match v with
  | JUndefined => "undefined"
  | JNull => "null"
  | JBool true => "true"
  | JBool false => "false"
  | JNum n => pretty n
  | JStr s => s
  | JArr elems =>
      JsString.join ","
        ((fix each (l : list JsVal) : list string :=
            match l with
            | [] => []
            | e :: r => (if isNullish e then JsString.empty else toStr e) :: each r
            end) elems)
  | JObj _ => "[object Object]"
  end.

(** [v.p] for one of the data properties the code reads ([id], [name],
    [localizedName], [type]): [None] is the [TypeError] of a read on
    [undefined] or [null]; a primitive or an array has no such property. *)
Definition getProp (v : JsVal) (p : string) : option JsVal :=
  match v with
  | JUndefined | JNull => None
  | JObj fields => Some (default JUndefined (fields !! p))
  | _ => Some JUndefined
  end.

(** The message of the [TypeError] raised by reading [p] on a nullish
    value (as worded by V8). *)
Definition readOfNullish (v : JsVal) (p : string) : string :=
  "Cannot read properties of " +:+ toStr v +:+ " (reading '" +:+ p +:+ "')".

(** [e instanceof Error ? e.message : String(e)] *)
Definition messageOf (e : ThrownVal) : string :=
  match e with
  | ThrownError message => message
  | ThrownValue v => toStr v
  end.

(** [xs.map(f)] where [f] may throw: the first throw aborts the map. *)
Fixpoint mapM {A B : Type} (f : A → Completion B) (xs : list A) : Completion (list B) :=
  match xs with
  | [] => Normal []
  | x :: r =>
      match f x with
      | Throw e => Throw e
      | Normal y =>
          match mapM f r with
          | Throw e => Throw e
          | Normal ys => Normal (y :: ys)
          end
      end
  end.

End Js.

(** ** [Map]: insertion-ordered, one binding per key *)

Module JsMap.
Section Ops.
Context {V : Type}.

Definition t : Type := list (string * V).

Definition empty : t := [].

Fixpoint get (k : string) (m : t) : option V :=
  match m with
  | [] => None
  | (k', v) :: r => if String.eqb k k' then Some v else get k r
  end.

(** [m.set(k, v)]: an existing key keeps its place, a new key goes last. *)
Fixpoint set (k : string) (v : V) (m : t) : t :=
  match m with
  | [] => [(k, v)]
  | (k', v') :: r =>
      if String.eqb k k' then (k, v) :: r else (k', v') :: set k v r
  end.

(** [m.delete(k)]: the binding of [k] goes, and a map has at most one. *)
Fixpoint delete (k : string) (m : t) : t :=
  match m with
  | [] => []
  | (k', v') :: r =>
      if String.eqb k k' then delete k r else (k', v') :: delete k r
  end.

(** [m.clear()] *)
Definition clear (m : t) : t := [].

(** The entries in iteration order. *)
Definition entries (m : t) : list (string * V) := m.

Definition keys (m : t) : list string := fst <$> m.

Definition values (m : t) : list V := snd <$> m.

(** The representation invariant of a [Map]. *)
Definition wf (m : t) : Prop := NoDup (keys m).
End Ops.
Arguments t V : clear implicits.
End JsMap.

(** ** The data model of the schema cache (lines 5-33) *)

Record StudyInputInformation : Type := {
  id : string;
  name : string;
  localizedName : string;
  type : string
}.

Record StudySchema : Type := {
  schema_name : string;
  inputs : list StudyInputInformation
}.

Inductive CacheEntry : Type :=
  | EntryOk (schema : StudySchema)
  | EntryErr (error : string).

(** ** The widget *)

(** An accessor [getStudyInputs(name)]: it returns some value or throws. *)
Definition Accessor : Type := string → Completion JsVal.

(** The chart returned by [activeChart()]; [None] when [getStudyInputs] is
    not a function of it. *)
Record Chart : Type := {
  chart_getStudyInputs : option Accessor
}.

(** The widget handle: [w_getStudyInputs] is [None] when
    [typeof w.getStudyInputs] is not ["function"]; [w_activeChart] is [None]
    when [typeof w.activeChart] is not ["function"], and otherwise tells how
    the call [w.activeChart()] ends: it throws, or returns a chart, or
    returns a nullish value ([Normal None]). *)
Record Widget : Type := {
  w_getStudyInputs : option Accessor;
  w_activeChart : option (Completion (option Chart))
}.

(** The three places of [window] where [getWidget] looks for a handle;
    [None] is a nullish value. *)
Record Window : Type := {
  tvWidget : option Widget;
  widget : option Widget;
  TradingView_widgetInstance : option Widget
}.

Definition getWidget (win : Window) : option Widget :=
  match tvWidget win with
  | Some w => Some w
  | None =>
      match widget win with
      | Some w => Some w
      | None => TradingView_widgetInstance win
      end
  end.

(** Calls observed on the widget side. *)
Inductive Event : Type :=
  | EvGetWidget
  | EvActiveChart
  | EvGetStudyInputs (studyName : string).

(** The module state: the cache, and the trace of widget calls so far. *)
Record Store : Type := {
  cache : JsMap.t CacheEntry;
  trace : list Event
}.

Definition emptyStore : Store := {| cache := JsMap.empty; trace := [] |}.

Definition cache_set (k : string) (e : CacheEntry) (st : Store) : Store :=
  {| cache := JsMap.set k e (cache st); trace := trace st |}.

Definition logCalls (evs : list Event) (st : Store) : Store :=
  {| cache := cache st; trace := trace st ++ evs |}.

(** ** [keyOf] (lines 25-27) *)

Definition keyOf (studyName : string) : string :=
  JsString.toLowerCase (JsString.trim studyName).

(** ** [getStudySchema] (lines 39-79) *)

(** Lines 54-61: which accessor is called, what it answers, and the widget
    calls made on the way. With neither accessor, [inputs] stays
    [undefined]. *)
Definition queryInputs (w : Widget) (studyName : string) : Completion JsVal * list Event :=
  match w_getStudyInputs w with
  | Some f => (f studyName, [EvGetStudyInputs studyName])
  | None =>
      match w_activeChart w with
      | None => (Normal JUndefined, [])
      | Some (Throw e) => (Throw e, [EvActiveChart])
      | Some (Normal None) => (Normal JUndefined, [EvActiveChart])
      | Some (Normal (Some chart)) =>
          match chart_getStudyInputs chart with
          | None => (Normal JUndefined, [EvActiveChart])
          | Some g => (g studyName, [EvActiveChart; EvActiveChart; EvGetStudyInputs studyName])
          end
      end
  end.

(** Lines 69-74: the callback of [inputs.map]. *)
Definition normalizeInput (i : JsVal) : Completion StudyInputInformation :=
  match Js.getProp i "id", Js.getProp i "name", Js.getProp i "localizedName", Js.getProp i "type" with
  | Some i_id, Some i_name, Some i_localizedName, Some i_type =>
      Normal {| id := Js.toStr i_id;
                name := Js.toStr (Js.coalesce i_name (JStr JsString.empty));
                localizedName :=
                  Js.toStr (Js.coalesce i_localizedName
                              (Js.coalesce i_name (JStr JsString.empty)));
                type := Js.toStr (Js.coalesce i_type (JStr JsString.empty)) |}
  | _, _, _, _ => Throw (ThrownError (Js.readOfNullish i "id"))
  end.

(** Lines 68-74: [if (!Array.isArray(inputs)) inputs = []] and the map. *)
Definition normalizeInputs (raw : JsVal) : Completion (list StudyInputInformation) :=
  let elems := match raw with JArr elems => elems | _ => [] end in
  Js.mapM normalizeInput elems.

Definition widgetNotAvailable : string := "TradingView widget not available".

(** The template literal of line 63. *)
Definition accessorFailed (studyName : string) (e : ThrownVal) : string :=
  "getStudyInputs failed for " +:+ JsString.dquote +:+ studyName +:+ JsString.dquote
    +:+ ": " +:+ Js.messageOf e.

(** Lines 40-43, up to the suspension at [await ready]: the answer from the
    cache, or [None] on a miss. *)
Definition getStudySchema_cached (studyName : string) (st : Store)
  : option (Completion StudySchema) :=
  match JsMap.get (keyOf studyName) (cache st) with
  | Some (EntryOk schema) => Some (Normal schema)
  | Some (EntryErr error) => Some (Throw (ThrownError error))
  | None => None
  end.

(** Lines 47-78, from the resumption after [await ready] to the end. The
    key is the one computed before the suspension; the cache is not read
    again. A throw of the normalisation is outside the [try] and leaves the
    cache as it is. *)
Definition getStudySchema_fetch (win : Window) (studyName : string) (st : Store)
  : Completion StudySchema * Store :=
  let k := keyOf studyName in
  let st := logCalls [EvGetWidget] st in
  match getWidget win with
  | None =>
      let err := widgetNotAvailable in
      (Throw (ThrownError err), cache_set k (EntryErr err) st)
  | Some w =>
      let '(answer, evs) := queryInputs w studyName in
      let st := logCalls evs st in
      match answer with
      | Throw e =>
          let err := accessorFailed studyName e in
          (Throw (ThrownError err), cache_set k (EntryErr err) st)
      | Normal raw =>
          match normalizeInputs raw with
          | Throw e => (Throw e, st)
          | Normal normalized =>
              let schema := {| schema_name := studyName; inputs := normalized |} in
              (Normal schema, cache_set k (EntryOk schema) st)
          end
      end
  end.

Definition getStudySchema (win : Window) (studyName : string) (st : Store)
  : Completion StudySchema * Store :=
  match getStudySchema_cached studyName st with
  | Some answer => (answer, st)
  | None => getStudySchema_fetch win studyName st
  end.

(** ** [hasStudy], [peekStudySchema], [clearStudyCache] (lines 82-97) *)

Definition hasStudy (studyName : string) (st : Store) : bool :=
  match JsMap.get (keyOf studyName) (cache st) with
  | Some (EntryOk _) => true
  | _ => false
  end.

Definition peekStudySchema (studyName : string) (st : Store) : option StudySchema :=
  match JsMap.get (keyOf studyName) (cache st) with
  | Some (EntryOk schema) => Some schema
  | _ => None
  end.

(** The argument is optional; [!studyName] also holds of the empty string. *)
Definition clearStudyCache (studyName : option string) (st : Store) : Store :=
  match studyName with
  | None | Some EmptyString =>
      {| cache := JsMap.clear (cache st); trace := trace st |}
  | Some s =>
      {| cache := JsMap.delete (keyOf s) (cache st); trace := trace st |}
  end.


(** ** [searchCachedInputs] (lines 160-181) *)

Record Hit : Type := {
  study : string;
  input : StudyInputInformation
}.

(** The condition of lines 171-175. *)
Definition inputMatches (q : string) (i : StudyInputInformation) : bool :=
  JsString.includes (JsString.toLowerCase (name i)) q
  || JsString.includes (JsString.toLowerCase (localizedName i)) q
  || JsString.includes (JsString.toLowerCase (id i)) q.

Definition pushHit (studyName : string) (hits : list Hit) (i : StudyInputInformation) : list Hit :=
  hits ++ [{| study := studyName; input := i |}].

(** The body of the loop over the cache, lines 164-178. *)
Definition searchEntry (q : string) (hits : list Hit) (entry : string * CacheEntry) : list Hit :=
  match entry.2 with
  | EntryErr _ => hits
  | EntryOk schema =>
      let name := schema_name schema in
      if JsString.includes (JsString.toLowerCase name) q
      then fold_left (pushHit name) (inputs schema) hits
      else fold_left (λ hits i, if inputMatches q i then pushHit name hits i else hits)
             (inputs schema) hits
  end.

Definition searchCachedInputs (query : string) (st : Store) : list Hit :=
  let q := JsString.toLowerCase (JsString.trim query) in
  fold_left (searchEntry q) (JsMap.entries (cache st)) [].

(** ** [prefetchStudySchemas] (lines 103-137) *)

Record PrefetchOpts : Type := {
  concurrency : option Z;
  (** [None] when no callback is given; a callback returns or throws. *)
  onProgress : option (nat → nat → string → Completion ())
}.

Record Failure : Type := {
  failure_name : string;
  failure_error : string
}.

Record Summary : Type := {
  total : nat;
  success : list string;
  failed : list Failure
}.

(** A worker between two resumptions. It is suspended either inside
    [getStudySchema] at [await ready], or at its own [await] on a schema
    promise that has settled with [answer]; or it is over. *)
Inductive Worker : Type :=
  | AwaitingReady (current : string)
  | AwaitingSchema (current : string) (answer : Completion StudySchema)
  | WorkerReturned
  | WorkerRejected (e : ThrownVal).

(** The variables shared by the workers, the workers themselves, the state
    of [Promise.all] ([p_rejection] is its first rejection) and, as
    instrumentation, which worker took which index ([p_claims]). *)
Record Pool : Type := {
  p_store : Store;
  p_idx : nat;
  p_done : nat;
  p_success : list string;
  p_failed : list Failure;
  p_workers : list Worker;
  p_rejection : option ThrownVal;
  p_claims : list (nat * nat)
}.

Definition isSuspended (w : Worker) : bool :=
  match w with
  | AwaitingReady _ | AwaitingSchema _ _ => true
  | _ => false
  end.

Definition isReturned (w : Worker) : bool :=
  match w with
  | WorkerReturned => true
  | _ => false
  end.

(** [Math.min(Math.max(1, opts.concurrency ?? 8), total)], as the [length]
    given to [Array.from]. *)
Definition workerCount (opts : PrefetchOpts) (total : nat) : nat :=
  Z.to_nat (Z.min (Z.max 1 (default 8%Z (concurrency opts))) (Z.of_nat total)).

Section Prefetch.
Variable win : Window.
Variable studies : list string.
Variable opts : PrefetchOpts.

(** A worker at the head of its loop (lines 120-123): it leaves when the
    shared index has reached the end, and otherwise takes the next name and
    enters [getStudySchema], which answers from the cache or suspends. The
    index is then below the length, so [studies[idx]] is a name. *)
Definition workerLoop (i : nat) (p : Pool) : Worker * Pool :=
  if p_idx p <? length studies then
    let current := default EmptyString (studies !! p_idx p) in
    let p' := {| p_store := p_store p; p_idx := S (p_idx p); p_done := p_done p;
                 p_success := p_success p; p_failed := p_failed p;
                 p_workers := p_workers p; p_rejection := p_rejection p;
                 p_claims := p_claims p ++ [(i, p_idx p)] |} in
    match getStudySchema_cached current (p_store p) with
    | Some answer => (AwaitingSchema current answer, p')
    | None => (AwaitingReady current, p')
    end
  else (WorkerReturned, p).

Definition setWorker (i : nat) (w : Worker) (p : Pool) : Pool :=
  {| p_store := p_store p; p_idx := p_idx p; p_done := p_done p;
     p_success := p_success p; p_failed := p_failed p;
     p_workers := <[i := w]> (p_workers p); p_rejection := p_rejection p;
     p_claims := p_claims p |}.

(** Lines 124-128: the outcome of the item is pushed and [done] counts it. *)
Definition recordOutcome (current : string) (answer : Completion StudySchema) (p : Pool) : Pool :=
  {| p_store := p_store p; p_idx := p_idx p; p_done := S (p_done p);
     p_success := match answer with
                  | Normal _ => p_success p ++ [current]
                  | Throw _ => p_success p
                  end;
     p_failed := match answer with
                 | Normal _ => p_failed p
                 | Throw e => p_failed p ++ [{| failure_name := current;
                                               failure_error := Js.messageOf e |}]
                 end;
     p_workers := p_workers p; p_rejection := p_rejection p;
     p_claims := p_claims p |}.

(** A worker ends by a throw: [Promise.all] keeps its first rejection. *)
Definition rejectWorker (i : nat) (e : ThrownVal) (p : Pool) : Pool :=
  {| p_store := p_store p; p_idx := p_idx p; p_done := p_done p;
     p_success := p_success p; p_failed := p_failed p;
     p_workers := <[i := WorkerRejected e]> (p_workers p);
     p_rejection := match p_rejection p with
                    | Some first => Some first
                    | None => Some e
                    end;
     p_claims := p_claims p |}.

(** Line 129: [opts.onProgress?.(done, total, current)]. *)
Definition callOnProgress (current : string) (p : Pool) : Completion () :=
  match onProgress opts with
  | None => Normal ()
  | Some callback => callback (p_done p) (length studies) current
  end.

(** One turn of the event loop given to worker [i]. A worker suspended at
    [await ready] runs the rest of [getStudySchema]; a worker whose schema
    promise has settled records the outcome, runs the [finally] block and
    goes round its loop up to the next suspension. *)
Definition resume (i : nat) (p : Pool) : Pool :=
  match p_workers p !! i with
  | Some (AwaitingReady current) =>
      let '(answer, st) := getStudySchema_fetch win current (p_store p) in
      setWorker i (AwaitingSchema current answer)
        {| p_store := st; p_idx := p_idx p; p_done := p_done p;
           p_success := p_success p; p_failed := p_failed p;
           p_workers := p_workers p; p_rejection := p_rejection p;
           p_claims := p_claims p |}
  | Some (AwaitingSchema current answer) =>
      let p1 := recordOutcome current answer p in
      match callOnProgress current p1 with
      | Throw e => rejectWorker i e p1
      | Normal _ => let '(w, p2) := workerLoop i p1 in setWorker i w p2
      end
  | _ => p
  end.

(** [Array.from({ length: n }, worker)]: each worker is called in turn and
    runs up to its first suspension. *)
Fixpoint spawn (n : nat) (p : Pool) : Pool :=
  match n with
  | 0 => p
  | S n' =>
      let '(w, p') := workerLoop (length (p_workers p)) p in
      spawn n'
        {| p_store := p_store p'; p_idx := p_idx p'; p_done := p_done p';
           p_success := p_success p'; p_failed := p_failed p';
           p_workers := p_workers p' ++ [w]; p_rejection := p_rejection p';
           p_claims := p_claims p' |}
  end.

(** Lines 111-117 and 134, up to the suspension at [await Promise.all]. *)
Definition start (st : Store) : Pool :=
  spawn (workerCount opts (length studies))
    {| p_store := st; p_idx := 0; p_done := 0; p_success := []; p_failed := [];
       p_workers := []; p_rejection := None; p_claims := [] |}.

(** The workers resumed in the order [sched]. *)
Definition run (sched : list nat) (p : Pool) : Pool :=
  fold_left (λ p i, resume i p) sched p.

(** A schedule that only resumes workers that are suspended. *)
Fixpoint productive (sched : list nat) (p : Pool) : Prop :=
  match sched with
  | [] => True
  | i :: rest =>
      (∃ w, p_workers p !! i = Some w ∧ isSuspended w = true) ∧ productive rest (resume i p)
  end.

(** How [await Promise.all(...)] has ended, if it has: by the first
    rejection, or by line 136 once every worker has returned. *)
Definition outcome (p : Pool) : option (Completion Summary) :=
  match p_rejection p with
  | Some e => Some (Throw e)
  | None =>
      if forallb isReturned (p_workers p)
      then Some (Normal {| total := length studies;
                           success := p_success p;
                           failed := p_failed p |})
      else None
  end.

(** The call under the schedule [sched]: its completion and the store it
    leaves, or [None] while it is pending. *)
Definition prefetchStudySchemas (sched : list nat) (st : Store)
  : option (Completion Summary * Store) :=
  let p := run sched (start st) in
  match outcome p with
  | Some r => Some (r, p_store p)
  | None => None
  end.

(** The schedule that always resumes the first suspended worker, for at
    most [fuel] turns. *)
Fixpoint firstSuspended (ws : list Worker) : option nat :=
  match ws with
  | [] => None
  | w :: r => if isSuspended w then Some 0 else S <$> firstSuspended r
  end.

Fixpoint drain (fuel : nat) (p : Pool) : list nat :=
  match fuel with
  | 0 => []
  | S fuel' =>
      match firstSuspended (p_workers p) with
      | None => []
      | Some i => i :: drain fuel' (resume i p)
      end
  end.

End Prefetch.

(** ** The chart bridge: applied-entity tables and the clear-all operations
       (lines 278-282, 400-412, 712-724, 963-975) *)

(** An opaque widget-side handle. *)
Definition Handle : Type := nat.

(** [chartRef]: [removeEntity] returns or throws. *)
Record ChartApi : Type := {
  removeEntity : Handle → Completion ()
}.

(** The module state of the bridge, with the [removeEntity] calls made so
    far and the lines written by [console.error]. *)
Record Bridge : Type := {
  chartRef : option ChartApi;
  appliedIndicators : JsMap.t Handle;
  appliedPatterns : JsMap.t Handle;
  appliedAnnotations : JsMap.t Handle;
  appliedPriceTargets : JsMap.t Handle;
  removeCalls : list Handle;
  console : list (string * ThrownVal)
}.

(** The body of the three loops: [try { chartRef.removeEntity(h) }
    catch (error) { console.error(`Failed to remove <what> <key>:`, error) }]. *)
Definition tryRemove (chart : ChartApi) (what : string) (b : Bridge) (entry : string * Handle) : Bridge :=
  let calls := removeCalls b ++ [entry.2] in
  {| chartRef := chartRef b;
     appliedIndicators := appliedIndicators b;
     appliedPatterns := appliedPatterns b;
     appliedAnnotations := appliedAnnotations b;
     appliedPriceTargets := appliedPriceTargets b;
     removeCalls := calls;
     console := match removeEntity chart entry.2 with
                | Normal _ => console b
                | Throw e => console b ++ [("Failed to remove " +:+ what +:+ " " +:+ entry.1 +:+ ":", e)]
                end |}.

Definition clearAllIndicators (b : Bridge) : Completion () * Bridge :=
  match chartRef b with
  | None => (Normal (), b)
  | Some chart =>
      let b1 := fold_left (tryRemove chart "indicator") (JsMap.entries (appliedIndicators b)) b in
      (Normal (),
       {| chartRef := chartRef b1;
          appliedIndicators := JsMap.clear (appliedIndicators b1);
          appliedPatterns := appliedPatterns b1;
          appliedAnnotations := appliedAnnotations b1;
          appliedPriceTargets := appliedPriceTargets b1;
          removeCalls := removeCalls b1;
          console := console b1 |})
  end.

Definition clearAllPatterns (b : Bridge) : Completion () * Bridge :=
  match chartRef b with
  | None => (Normal (), b)
  | Some chart =>
      let b1 := fold_left (tryRemove chart "pattern") (JsMap.entries (appliedPatterns b)) b in
      (Normal (),
       {| chartRef := chartRef b1;
          appliedIndicators := appliedIndicators b1;
          appliedPatterns := JsMap.clear (appliedPatterns b1);
          appliedAnnotations := appliedAnnotations b1;
          appliedPriceTargets := appliedPriceTargets b1;
          removeCalls := removeCalls b1;
          console := console b1 |})
  end.

Definition clearAllPriceTargets (b : Bridge) : Completion () * Bridge :=
  match chartRef b with
  | None => (Normal (), b)
  | Some chart =>
      let b1 := fold_left (tryRemove chart "price target") (JsMap.entries (appliedPriceTargets b)) b in
      (Normal (),
       {| chartRef := chartRef b1;
          appliedIndicators := appliedIndicators b1;
          appliedPatterns := appliedPatterns b1;
          appliedAnnotations := appliedAnnotations b1;
          appliedPriceTargets := JsMap.clear (appliedPriceTargets b1);
          removeCalls := removeCalls b1;
          console := console b1 |})
  end.

(** ** Vocabulary of the statements *)

(** A sequence of calls made on the cache by a client. *)
Inductive Call : Type :=
  | CallGetStudySchema (win : Window) (studyName : string)
  | CallClearStudyCache (studyName : option string).

Definition perform (st : Store) (c : Call) : Store :=
  match c with
  | CallGetStudySchema win studyName => (getStudySchema win studyName st).2
  | CallClearStudyCache studyName => clearStudyCache studyName st
  end.

Definition performAll (calls : list Call) (st : Store) : Store :=
  fold_left perform calls st.

(** The call does not clear the key [k]: it is a fetch, or it clears the
    entry of another key. *)
Definition keepsKey (k : string) (c : Call) : bool :=
  match c with
  | CallGetStudySchema _ _ => true
  | CallClearStudyCache None => false
  | CallClearStudyCache (Some EmptyString) => false
  | CallClearStudyCache (Some s) => negb (String.eqb (keyOf s) k)
  end.

(** The fetch of lines 47-66 fails: there is no widget handle, or the
    accessor call throws. *)
Definition fetchFails (win : Window) (studyName : string) : bool :=
  match getWidget win with
  | None => true
  | Some w =>
      match (queryInputs w studyName).1 with
      | Throw _ => true
      | Normal _ => false
      end
  end.

(** Both [typeof] tests of lines 57 and 59 are false. *)
Definition noAccessor (w : Widget) : bool :=
  match w_getStudyInputs w, w_activeChart w with
  | Some _, _ => false
  | None, None => true
  | None, Some (Normal None) => true
  | None, Some (Normal (Some chart)) =>
      match chart_getStudyInputs chart with
      | None => true
      | Some _ => false
      end
  | None, Some (Throw _) => false
  end.

(** The property [p] is missing from [i], or holds a nullish value. *)
Definition absent (i : JsVal) (p : string) : Prop :=
  ∃ v, Js.getProp i p = Some v ∧ Js.isNullish v = true.

(** The property [p] of [i] holds the value [v], which is not nullish. *)
Definition holds (i : JsVal) (p : string) (v : JsVal) : Prop :=
  Js.getProp i p = Some v ∧ Js.isNullish v = false.

(** The schemas cached as successes, in the order of the cache. *)
Definition successful (st : Store) : list StudySchema :=
  omap (λ entry, match entry.2 with
                 | EntryOk schema => Some schema
                 | EntryErr _ => None
                 end) (JsMap.entries (cache st)).

Definition allHits (schema : StudySchema) : list Hit :=
  (λ i, {| study := schema_name schema; input := i |}) <$> inputs schema.

(** The hits of one schema for the folded query [q]: all its inputs when
    the study name matches, and otherwise the inputs that match. *)
Definition matching (q : string) (schema : StudySchema) : list Hit :=
  (λ i, {| study := schema_name schema; input := i |}) <$>
    (if JsString.includes (JsString.toLowerCase (schema_name schema)) q
     then inputs schema
     else filter (λ i, inputMatches q i = true) (inputs schema)).

(** [needle] occurs in [hay] when case is ignored. *)
Definition occursIgnoringCase (needle hay : string) : Prop :=
  ∃ before after,
    JsString.toLowerCase hay = before +:+ JsString.toLowerCase needle +:+ after.

(** The lines that [console.error] receives for the entries whose removal
    throws. *)
Definition removalFailures (chart : ChartApi) (what : string)
    (entries : list (string * Handle)) : list (string * ThrownVal) :=
  omap (λ entry, match removeEntity chart entry.2 with
                 | Normal _ => None
                 | Throw e =>
                     Some ("Failed to remove " +:+ what +:+ " " +:+ entry.1 +:+ ":", e)
                 end) entries.

(** The names held by the workers that are suspended. *)
Definition inFlight (ws : list Worker) : list string :=
  ws ≫= λ w, match w with
             | AwaitingReady current | AwaitingSchema current _ => [current]
             | _ => []
             end.

(** The turns a worker still needs before it takes another name. *)
Definition weight (w : Worker) : nat :=
  match w with
  | AwaitingReady _ => 2
  | AwaitingSchema _ _ => 1
  | _ => 0
  end.

Definition potential (studies : list string) (p : Pool) : nat :=
  2 * (length studies - p_idx p) + sum_list_with weight (p_workers p).

(** The progress callback never throws. *)
Definition quiet (opts : PrefetchOpts) : Prop :=
  match onProgress opts with
  | None => True
  | Some callback => ∀ done total current, callback done total current = Normal ()
  end.

(** What a worker does at the head of its loop: it takes the name at the
    shared index and suspends on it, or it leaves. *)
Inductive LoopHead (studies : list string) (i : nat) (p : Pool) : Worker → Pool → Prop :=
  | head_takes (current : string) (w : Worker) :
      studies !! p_idx p = Some current →
      isSuspended w = true →
      inFlight [w] = [current] →
      LoopHead studies i p w
        {| p_store := p_store p; p_idx := S (p_idx p); p_done := p_done p;
           p_success := p_success p; p_failed := p_failed p;
           p_workers := p_workers p; p_rejection := p_rejection p;
           p_claims := p_claims p ++ [(i, p_idx p)] |}
  | head_leaves :
      length studies ≤ p_idx p →
      LoopHead studies i p WorkerReturned p.

(** What holds of the pool between any two turns, when the progress
    callback does not throw. *)
Record PoolInv (studies : list string) (p : Pool) : Prop := {
  inv_idx : p_idx p ≤ length studies;
  inv_done : length (p_success p) + length (p_failed p) = p_done p;
  inv_names :
    p_success p ++ (failure_name <$> p_failed p) ++ inFlight (p_workers p)
      ≡ₚ take (p_idx p) studies;
  inv_claims : (p_claims p).*2 = seq 0 (p_idx p);
  inv_claimants : Forall (λ c, c.1 < length (p_workers p)) (p_claims p);
  inv_returned :
    Forall (λ w, isReturned w = true → length studies ≤ p_idx p) (p_workers p);
  inv_rejection :
    p_rejection p = None ∧ Forall (λ w, isSuspended w || isReturned w = true) (p_workers p)
}.

(** * The rest of the cache API and the chart bridge

    [getSchemasForLLM], and the bridge that drives the chart: the helpers
    that add studies, [applyIndicator] and [applyMultipleIndicators], the
    removal by key, [removeAllStudies], [resetChart], the registration of
    the widget, [interpretIndicatorSignals], [drawTrendLine] and the price
    targets.

    Conventions of the embedding of the bridge.
    - What the chart answers to [createStudy] and [createShape], and what
      [Date.now()] gives, is not the bridge's to decide: a
      [ChartBehaviour] gives the completion of a call from the calls made
      so far, and the readings of the clock in order. The calls made are
      recorded in the session.
    - The arithmetic on doubles is a parameter ([Numbers]); no property
      below depends on how it rounds.
    - As for the cache, a definition describes a call that runs to
      completion after the readiness promise has resolved. *)

(** ** [getSchemasForLLM] (lines 143-157) *)

(** The destructuring copy of line 150: an object with the same four
    fields. *)
Definition pickInput (i : StudyInputInformation) : StudyInputInformation :=
  {| id := id i; name := name i; localizedName := localizedName i; type := type i |}.

(** The body of the loop: a schema that is fetched is pushed, reduced to
    its name and inputs; a throw is swallowed by the empty [catch]. *)
Definition llmStep (win : Window) (acc : list StudySchema * Store) (s : string)
  : list StudySchema * Store :=
  match getStudySchema win s acc.2 with
  | (Normal schema, st) =>
      (acc.1 ++ [{| schema_name := schema_name schema;
                    inputs := pickInput <$> inputs schema |}], st)
  | (Throw _, st) => (acc.1, st)
  end.

Definition getSchemasForLLM (win : Window) (studies : list string) (st : Store)
  : list StudySchema * Store :=
  fold_left (llmStep win) studies ([], st).

(** ** More vocabulary *)

(** A string that does not start with white space. *)
Definition noLead (s : string) : Prop :=
  match s with
  | EmptyString => True
  | String c _ => JsString.isWhiteSpace c = false
  end.

(** A string made of white space only. *)
Definition blank (s : string) : Prop :=
  JsString.trimStart s = EmptyString.

(** The raw answer of the widget for [studyName], if the fetch gets one,
    can be normalized: no element of it is [undefined] or [null]. *)
Definition normalizes (win : Window) (studyName : string) : bool :=
  match getWidget win with
  | None => true
  | Some w =>
      match (queryInputs w studyName).1 with
      | Throw _ => true
      | Normal raw =>
          match normalizeInputs raw with
          | Normal _ => true
          | Throw _ => false
          end
      end
  end.

(** Every schema of the cache sits under the key of its own name. *)
Definition namedByKey (st : Store) : Prop :=
  ∀ k schema,
    JsMap.get k (cache st) = Some (EntryOk schema) → keyOf (schema_name schema) = k.

(** The progress callback throws whenever it is called. *)
Definition loud (opts : PrefetchOpts) : Prop :=
  ∃ callback,
    onProgress opts = Some callback
    ∧ ∀ done total current, ∃ e, callback done total current = Throw e.

(** The loop that [prefetchStudySchemas] amounts to with a single worker:
    the names are fetched one after the other. *)
Definition sequentialStep (win : Window) (acc : list string * list Failure * Store)
    (current : string) : list string * list Failure * Store :=
  let '(success, failed, st) := acc in
  match getStudySchema win current st with
  | (Normal _, st') => (success ++ [current], failed, st')
  | (Throw e, st') =>
      (success,
       failed ++ [{| failure_name := current; failure_error := Js.messageOf e |}],
       st')
  end.

Definition sequentialPrefetch (win : Window) (studies : list string) (st : Store)
  : list string * list Failure * Store :=
  fold_left (sequentialStep win) studies ([], [], st).

(** What holds of the pool when the callback always throws: no worker has
    returned, and a worker that is over has rejected the call. *)
Definition loudInv (p : Pool) : Prop :=
  Forall (λ w, isReturned w = false) (p_workers p)
  ∧ Forall (λ w, isSuspended w = false → p_rejection p ≠ None) (p_workers p).

(** What holds of the pool when every name is cached in [st]: the store is
    [st], no worker waits for the widget, and the recorded outcomes are those
    of the cache. *)
Definition cachedInv (st : Store) (p : Pool) : Prop :=
  p_store p = st
  ∧ Forall (λ w, match w with
                 | AwaitingReady _ => False
                 | AwaitingSchema current answer =>
                     getStudySchema_cached current st = Some answer
                 | _ => True
                 end) (p_workers p)
  ∧ Forall (λ s, hasStudy s st = true) (p_success p)
  ∧ Forall (λ f, hasStudy (failure_name f) st = false) (p_failed p).

(** What holds of the single worker [w] of a pool: the pool is where the
    sequential loop is after the names below the one that [w] holds. *)
Definition sequentialAt (win : Window) (studies : list string) (st : Store)
    (w : Worker) (p : Pool) : Prop :=
  match w with
  | AwaitingReady current =>
      ∃ k, p_idx p = S k
           ∧ studies !! k = Some current
           ∧ getStudySchema_cached current (p_store p) = None
           ∧ sequentialPrefetch win (take k studies) st
               = (p_success p, p_failed p, p_store p)
  | AwaitingSchema current answer =>
      ∃ k st_k, p_idx p = S k
                ∧ studies !! k = Some current
                ∧ sequentialPrefetch win (take k studies) st
                    = (p_success p, p_failed p, st_k)
                ∧ getStudySchema win current st_k = (answer, p_store p)
  | WorkerReturned =>
      sequentialPrefetch win studies st = (p_success p, p_failed p, p_store p)
  | WorkerRejected _ => False
  end.

Definition sequentialInv (win : Window) (studies : list string) (st : Store) (p : Pool) : Prop :=
  p_rejection p = None
  ∧ ∃ w, p_workers p = [w] ∧ sequentialAt win studies st w p.

(** ** The chart bridge: indicators (lines 278-505) *)

(** The parameters of a study: a plain object. *)
Abbreviation Params := (gmap string JsVal).

Module JsTruth.

(** The values that are not falsy. *)
Definition truthy (v : JsVal) : bool :=
  match v with
  | JUndefined | JNull => false
  | JBool b => b
  | JNum n => negb (n =? 0)%Z
  | JStr EmptyString => false
  | JStr _ => true
  | JArr _ | JObj _ => true
  end.

(** [a || b] *)
Definition orElse (a b : JsVal) : JsVal := if truthy a then a else b.

End JsTruth.

(** [baseParams.key] *)
Definition param (baseParams : Params) (key : string) : JsVal :=
  default JUndefined (baseParams !! key).

(** The object literal of lines 480-502, by indicator name: each of its
    entries is [key: baseParams.key || fallback], listed here as
    [(key, fallback)]. A name that is not a key of the literal has no
    entry: it names nothing, or a member inherited from [Object.prototype],
    and the spread of such a member contributes no property. *)
Definition optimizations (indicatorName : string) : option (list (string * JsVal)) :=
  if String.eqb indicatorName "RSI" then
    Some [("length", JNum 14)]
  else if String.eqb indicatorName "MACD" then
    Some [("in_0", JNum 12); ("in_1", JNum 26); ("in_2", JNum 9); ("in_3", JStr "close")]
  else if String.eqb indicatorName "Moving Average" then
    Some [("length", JNum 20)]
  else if String.eqb indicatorName "Bollinger Bands" then
    Some [("length", JNum 20); ("mult", JNum 2)]
  else if String.eqb indicatorName "Stochastic" then
    Some [("k", JNum 14); ("d", JNum 3)]
  else None.

(** The entries evaluated against [baseParams]. *)
Definition filled (entries : list (string * JsVal)) (baseParams : Params) : Params :=
  list_to_map ((λ entry, (entry.1, JsTruth.orElse (param baseParams entry.1) entry.2))
                 <$> entries).

(** Line 504: [{ ...baseParams, ...(optimizations[indicatorName] || {}) }];
    in a spread the later object wins. *)
Definition optimizeIndicatorParameters (indicatorName : string) (baseParams : Params) : Params :=
  match optimizations indicatorName with
  | Some entries => filled entries baseParams ∪ baseParams
  | None => baseParams
  end.

Record IndicatorConfig : Type := {
  cfg_name : string;
  cfg_parameters : Params;
  cfg_visible : bool
}.

(** A call of [createStudy(name, forceOverlay, lock, inputs)]. *)
Record StudyCall : Type := {
  call_name : string;
  call_forceOverlay : bool;
  call_lock : bool;
  call_inputs : Params
}.

(** The call that [applyIndicator] makes for a configuration. *)
Definition studyCallOf (config : IndicatorConfig) : StudyCall :=
  {| call_name := cfg_name config;
     call_forceOverlay := false;
     call_lock := cfg_visible config;
     call_inputs := optimizeIndicatorParameters (cfg_name config) (cfg_parameters config) |}.

(** ** Numbers in the drawing code *)

(** The arithmetic of the drawing code is done on doubles. It is taken as
    it comes: a type of numbers with the operations that the code uses. *)
Record Numbers : Type := {
  number : Type;
  num_lit : Z → number;                    (* an integer literal, [Date.now()] *)
  num_mul : number → number → number;
  num_div : number → number → number;
  num_floor : number → number;             (* [Math.floor] *)
  num_min : number → number → number;      (* [Math.min] *)
  num_max : number → number → number;      (* [Math.max] *)
  num_truthy : number → bool;              (* neither zero nor [NaN] *)
  num_text : number → string;              (* [String(n)], as in a template *)
  num_fixed : nat → number → string        (* [n.toFixed(digits)] *)
}.

Section Drawing.
Variable N : Numbers.

(** A value of a style or of the overrides of a shape. *)
Inductive StyleVal : Type :=
  | SUndefined
  | SText (s : string)
  | SNumber (n : number N)
  | SBool (b : bool).

Definition styleTruthy (v : StyleVal) : bool :=
  match v with
  | SUndefined => false
  | SText EmptyString => false
  | SText _ => true
  | SNumber n => num_truthy N n
  | SBool b => b
  end.

(** [style.key] and [a || b] *)
Definition styleOf (style : gmap string StyleVal) (key : string) : StyleVal :=
  default SUndefined (style !! key).

Definition styleOr (a b : StyleVal) : StyleVal := if styleTruthy a then a else b.

(** A call of [createShape(point, options)]. *)
Record ShapeCall : Type := {
  point_time : number N;
  point_price : number N;
  shape_kind : string;
  shape_text : string;
  shape_overrides : gmap string StyleVal
}.

(** How the chart behaves: the completion of the last call of a history of
    [createStudy] calls and of [createShape] calls ([Normal None] is a falsy
    result), and what [Date.now()] gives at each reading. *)
Record ChartBehaviour : Type := {
  answerStudy : list StudyCall → Completion (option Handle);
  answerShape : list ShapeCall → Completion (option Handle);
  clock : nat → Z
}.

(** The bridge with the calls made on the chart and the number of readings
    of the clock so far. *)
Record Session : Type := {
  bridge : Bridge;
  studyCalls : list StudyCall;
  shapeCalls : list ShapeCall;
  clockReads : nat
}.

Definition onBridge (f : Bridge → Bridge) (s : Session) : Session :=
  {| bridge := f (bridge s); studyCalls := studyCalls s;
     shapeCalls := shapeCalls s; clockReads := clockReads s |}.

Definition logStudy (call : StudyCall) (s : Session) : Session :=
  {| bridge := bridge s; studyCalls := studyCalls s ++ [call];
     shapeCalls := shapeCalls s; clockReads := clockReads s |}.

Definition logShape (call : ShapeCall) (s : Session) : Session :=
  {| bridge := bridge s; studyCalls := studyCalls s;
     shapeCalls := shapeCalls s ++ [call]; clockReads := clockReads s |}.

(** [Date.now()] *)
Definition readClock (chart : ChartBehaviour) (s : Session) : Z * Session :=
  (clock chart (clockReads s),
   {| bridge := bridge s; studyCalls := studyCalls s;
      shapeCalls := shapeCalls s; clockReads := S (clockReads s) |}).

Definition withIndicators (table : JsMap.t Handle) (b : Bridge) : Bridge :=
  {| chartRef := chartRef b;
     appliedIndicators := table;
     appliedPatterns := appliedPatterns b;
     appliedAnnotations := appliedAnnotations b;
     appliedPriceTargets := appliedPriceTargets b;
     removeCalls := removeCalls b;
     console := console b |}.

Definition withPatterns (table : JsMap.t Handle) (b : Bridge) : Bridge :=
  {| chartRef := chartRef b;
     appliedIndicators := appliedIndicators b;
     appliedPatterns := table;
     appliedAnnotations := appliedAnnotations b;
     appliedPriceTargets := appliedPriceTargets b;
     removeCalls := removeCalls b;
     console := console b |}.

Definition withAnnotations (table : JsMap.t Handle) (b : Bridge) : Bridge :=
  {| chartRef := chartRef b;
     appliedIndicators := appliedIndicators b;
     appliedPatterns := appliedPatterns b;
     appliedAnnotations := table;
     appliedPriceTargets := appliedPriceTargets b;
     removeCalls := removeCalls b;
     console := console b |}.

Definition withPriceTargets (table : JsMap.t Handle) (b : Bridge) : Bridge :=
  {| chartRef := chartRef b;
     appliedIndicators := appliedIndicators b;
     appliedPatterns := appliedPatterns b;
     appliedAnnotations := appliedAnnotations b;
     appliedPriceTargets := table;
     removeCalls := removeCalls b;
     console := console b |}.

Definition withRemoveCall (h : Handle) (b : Bridge) : Bridge :=
  {| chartRef := chartRef b;
     appliedIndicators := appliedIndicators b;
     appliedPatterns := appliedPatterns b;
     appliedAnnotations := appliedAnnotations b;
     appliedPriceTargets := appliedPriceTargets b;
     removeCalls := removeCalls b ++ [h];
     console := console b |}.

Definition withConsole (line : string * ThrownVal) (b : Bridge) : Bridge :=
  {| chartRef := chartRef b;
     appliedIndicators := appliedIndicators b;
     appliedPatterns := appliedPatterns b;
     appliedAnnotations := appliedAnnotations b;
     appliedPriceTargets := appliedPriceTargets b;
     removeCalls := removeCalls b;
     console := console b ++ [line] |}.

(** [registerWidget] (lines 284-289), for a widget whose [activeChart()]
    returns a chart: [chartRef] becomes that chart; the tables are not
    touched. *)
Definition registerWidget (chart : ChartApi) (b : Bridge) : Bridge :=
  {| chartRef := Some chart;
     appliedIndicators := appliedIndicators b;
     appliedPatterns := appliedPatterns b;
     appliedAnnotations := appliedAnnotations b;
     appliedPriceTargets := appliedPriceTargets b;
     removeCalls := removeCalls b;
     console := console b |}.

(** [unregisterWidget] (lines 291-298). *)
Definition unregisterWidget (b : Bridge) : Bridge :=
  {| chartRef := None;
     appliedIndicators := JsMap.clear (appliedIndicators b);
     appliedPatterns := JsMap.clear (appliedPatterns b);
     appliedAnnotations := JsMap.clear (appliedAnnotations b);
     appliedPriceTargets := JsMap.clear (appliedPriceTargets b);
     removeCalls := removeCalls b;
     console := console b |}.

(** [resetChart] (lines 330-337): [resetData] tells how the call
    [chartRef.resetData()] ends when there is a chart; a throw leaves the
    tables as they are. *)
Definition resetChart (resetData : Completion ()) (b : Bridge) : Completion () * Bridge :=
  match chartRef b, resetData with
  | Some _, Throw e => (Throw e, b)
  | _, _ =>
      (Normal (),
       {| chartRef := chartRef b;
          appliedIndicators := JsMap.clear (appliedIndicators b);
          appliedPatterns := JsMap.clear (appliedPatterns b);
          appliedAnnotations := JsMap.clear (appliedAnnotations b);
          appliedPriceTargets := JsMap.clear (appliedPriceTargets b);
          removeCalls := removeCalls b;
          console := console b |})
  end.

(** The body shared by [addMACD], [addRSI], [addMovingAverage],
    [addBollingerBands] and [addStochastic]:
    [const study = chartRef?.createStudy(name, false, lock, params);
     if (study) appliedIndicators.set(key, study); return study]. *)
Definition addStudy (chart : ChartBehaviour) (key studyName : string) (lock : bool)
    (params : Params) (s : Session) : Completion (option Handle) * Session :=
  match chartRef (bridge s) with
  | None => (Normal None, s)
  | Some _ =>
      let s1 := logStudy {| call_name := studyName; call_forceOverlay := false;
                            call_lock := lock; call_inputs := params |} s in
      match answerStudy chart (studyCalls s1) with
      | Throw e => (Throw e, s1)
      | Normal None => (Normal None, s1)
      | Normal (Some study) =>
          (Normal (Some study),
           onBridge (λ b, withIndicators (JsMap.set key study (appliedIndicators b)) b) s1)
      end
  end.

(** [addMACD] (lines 301-309); [params ?? { in_0: 12, ... }]. *)
Definition addMACD (chart : ChartBehaviour) (params : option Params) (s : Session)
  : Completion (option Handle) * Session :=
  addStudy chart "MACD" "MACD" false
    (default (list_to_map [("in_0", JNum 12); ("in_1", JNum 26); ("in_2", JNum 9);
                           ("in_3", JStr "close")]) params) s.

(** [addRSI] (lines 321-328); [length = 14]. *)
Definition addRSI (chart : ChartBehaviour) (length : option JsVal) (s : Session)
  : Completion (option Handle) * Session :=
  addStudy chart "RSI" "Relative Strength Index" false
    {[ "length" := default (JNum 14) length ]} s.

(** [`${type}_${period}`] *)
Definition movingAverageKey (ema : bool) (period : Z) : string :=
  (if ema then "EMA" else "SMA") +:+ "_" +:+ pretty period.

(** [addMovingAverage] (lines 433-443), for an integer period; [ema] tells
    whether the type is ['EMA']. *)
Definition addMovingAverage (chart : ChartBehaviour) (period : option Z) (ema : bool)
    (s : Session) : Completion (option Handle) * Session :=
  let period := default 20%Z period in
  addStudy chart (movingAverageKey ema period)
    (if ema then "Moving Average Exponential" else "Moving Average") true
    {[ "length" := JNum period ]} s.

(** [addBollingerBands] (lines 448-457). *)
Definition addBollingerBands (chart : ChartBehaviour) (period stdDev : option JsVal)
    (s : Session) : Completion (option Handle) * Session :=
  addStudy chart "BB" "Bollinger Bands" true
    (list_to_map [("length", default (JNum 20) period); ("mult", default (JNum 2) stdDev)]) s.

(** [addStochastic] (lines 462-471). *)
Definition addStochastic (chart : ChartBehaviour) (kPeriod dPeriod : option JsVal)
    (s : Session) : Completion (option Handle) * Session :=
  addStudy chart "Stochastic" "Stochastic" true
    (list_to_map [("k", default (JNum 14) kPeriod); ("d", default (JNum 3) dPeriod)]) s.

Definition chartNotAvailable : string := "Chart not available".

(** [applyIndicator] (lines 344-356). *)
Definition applyIndicator (chart : ChartBehaviour) (config : IndicatorConfig) (s : Session)
  : Completion (option Handle) * Session :=
  match chartRef (bridge s) with
  | None => (Throw (ThrownError chartNotAvailable), s)
  | Some _ =>
      let s1 := logStudy (studyCallOf config) s in
      match answerStudy chart (studyCalls s1) with
      | Throw e => (Throw e, s1)
      | Normal None => (Normal None, s1)
      | Normal (Some study) =>
          (Normal (Some study),
           onBridge (λ b, withIndicators
                            (JsMap.set (cfg_name config) study (appliedIndicators b)) b) s1)
      end
  end.

(** The body of the loop of [applyMultipleIndicators] (lines 365-373): a
    throw is written to the console and gives [null]. *)
Definition applyNext (chart : ChartBehaviour) (acc : list (option Handle) * Session)
    (config : IndicatorConfig) : list (option Handle) * Session :=
  match applyIndicator chart config acc.2 with
  | (Normal study, s) => (acc.1 ++ [study], s)
  | (Throw e, s) =>
      (acc.1 ++ [None],
       onBridge (withConsole ("Failed to apply indicator " +:+ cfg_name config +:+ ":", e)) s)
  end.

Definition applyMultipleIndicators (chart : ChartBehaviour) (configs : list IndicatorConfig)
    (s : Session) : list (option Handle) * Session :=
  fold_left (applyNext chart) configs ([], s).

(** [removeIndicator] (lines 381-388). A handle in a table is truthy: only
    such values are stored. A throw of [removeEntity] leaves the entry. *)
Definition removeIndicator (indicatorName : string) (b : Bridge) : Completion () * Bridge :=
  match JsMap.get indicatorName (appliedIndicators b), chartRef b with
  | Some study, Some api =>
      match removeEntity api study with
      | Throw e => (Throw e, withRemoveCall study b)
      | Normal _ =>
          (Normal (),
           withIndicators (JsMap.delete indicatorName (appliedIndicators b))
             (withRemoveCall study b))
      end
  | _, _ => (Normal (), b)
  end.

(** [removePattern] (lines 700-707). *)
Definition removePattern (patternId : string) (b : Bridge) : Completion () * Bridge :=
  match JsMap.get patternId (appliedPatterns b), chartRef b with
  | Some pattern, Some api =>
      match removeEntity api pattern with
      | Throw e => (Throw e, withRemoveCall pattern b)
      | Normal _ =>
          (Normal (),
           withPatterns (JsMap.delete patternId (appliedPatterns b))
             (withRemoveCall pattern b))
      end
  | _, _ => (Normal (), b)
  end.

(** [removePriceTarget] (lines 951-958). *)
Definition removePriceTarget (targetId : string) (b : Bridge) : Completion () * Bridge :=
  match JsMap.get targetId (appliedPriceTargets b), chartRef b with
  | Some target, Some api =>
      match removeEntity api target with
      | Throw e => (Throw e, withRemoveCall target b)
      | Normal _ =>
          (Normal (),
           withPriceTargets (JsMap.delete targetId (appliedPriceTargets b))
             (withRemoveCall target b))
      end
  | _, _ => (Normal (), b)
  end.

(** [removeAllStudies] (lines 418-428): [method] is [None] when the chart
    has no [removeAllStudies] function, and otherwise tells how its call
    ends. *)
Definition removeAllStudies (method : option (Completion ())) (b : Bridge)
  : Completion () * Bridge :=
  match chartRef b with
  | None => (Normal (), b)
  | Some _ =>
      let b1 := match method with
                | Some (Throw e) => withConsole ("Failed to remove all studies:", e) b
                | _ => b
                end in
      (Normal (), withIndicators (JsMap.clear (appliedIndicators b1)) b1)
  end.

(** [getAppliedIndicators], [getAppliedPatterns], [getAppliedPriceTargets]
    (lines 393-395, 729-731, 980-982). *)
Definition getAppliedIndicators (b : Bridge) : list string :=
  JsMap.keys (appliedIndicators b).

Definition getAppliedPatterns (b : Bridge) : list string :=
  JsMap.keys (appliedPatterns b).

Definition getAppliedPriceTargets (b : Bridge) : list string :=
  JsMap.keys (appliedPriceTargets b).

(** ** The chart bridge: reading the indicators back (lines 510-551) *)

Inductive Signal : Type := BULLISH | BEARISH | NEUTRAL.

(** The names that an object literal inherits from [Object.prototype]:
    indexing the literal with one of them gives that member, which is
    truthy and not a string. *)
Definition objectPrototypeMembers : list string :=
  ["constructor"; "__defineGetter__"; "__defineSetter__"; "hasOwnProperty";
   "__lookupGetter__"; "__lookupSetter__"; "isPrototypeOf"; "propertyIsEnumerable";
   "toString"; "valueOf"; "__proto__"; "toLocaleString"].

Inductive Interpretation : Type :=
  | Text (s : string)
  | Inherited (member : string).

(** [getIndicatorInterpretation] (lines 533-543):
    [interpretations[indicatorName] || '...']. *)
Definition getIndicatorInterpretation (indicatorName : string) : Interpretation :=
  if String.eqb indicatorName "RSI" then
    Text "Measures momentum - values above 70 suggest overbought, below 30 suggest oversold"
  else if String.eqb indicatorName "MACD" then
    Text "Shows relationship between two moving averages - crossovers indicate potential trend changes"
  else if String.eqb indicatorName "Moving Average" then
    Text "Smooths price data to identify trend direction"
  else if String.eqb indicatorName "Bollinger Bands" then
    Text "Shows volatility and potential support/resistance levels"
  else if String.eqb indicatorName "Stochastic" then
    Text "Momentum oscillator comparing closing price to price range"
  else if existsb (String.eqb indicatorName) objectPrototypeMembers then
    Inherited indicatorName
  else Text "Technical indicator for market analysis".

(** [getIndicatorSignal] (lines 548-551). *)
Definition getIndicatorSignal (indicatorName : string) : Signal := NEUTRAL.

Record IndicatorResult : Type := {
  res_name : string;
  res_values : list JsVal;
  res_parameters : Params;
  res_interpretation : Interpretation;
  res_signal : Signal
}.

(** [interpretIndicatorSignals] (lines 510-528): one result for each entry
    of the table, in its order. *)
Definition interpretIndicatorSignals (b : Bridge) : list IndicatorResult :=
  fold_left
    (λ results entry,
       results ++ [{| res_name := entry.1;
                      res_values := [];
                      res_parameters := ∅;
                      res_interpretation := getIndicatorInterpretation entry.1;
                      res_signal := getIndicatorSignal entry.1 |}])
    (JsMap.entries (appliedIndicators b)) [].

(** ** The chart bridge: trend lines and price targets
       (lines 558-590, 880-958, 1045-1108) *)

Record ChartCoordinate : Type := {
  coord_time : number N;
  coord_price : number N
}.

(** What [drawTrendLine] returns: [{ id, shape }] or [null]. *)
Abbreviation Drawn := (option (string * Handle)).

(** The call of [createShape] of lines 567-581. The end point is not used. *)
Definition trendShape (startPoint : ChartCoordinate) (style : gmap string StyleVal)
    (label : option string) : ShapeCall :=
  let lineStyle :=
    style ∪ {[ "color" := styleOr (styleOf style "color") (SText "#2196F3");
               "lineWidth" := styleOr (styleOf style "lineWidth") (SNumber (num_lit N 2)) ]} in
  {| point_time := coord_time startPoint;
     point_price := coord_price startPoint;
     shape_kind := "horizontal_line";
     shape_text := match label with
                   | Some (String c r) => String c r
                   | _ => EmptyString
                   end;
     shape_overrides := lineStyle |}.

(** [`trendline_${Date.now()}`] *)
Definition trendKey (now : Z) : string := "trendline_" +:+ pretty now.

(** [drawTrendLine] (lines 558-590). The clock is read only when the shape
    has been created. *)
Definition drawTrendLine (chart : ChartBehaviour) (startPoint endPoint : ChartCoordinate)
    (style : gmap string StyleVal) (label : option string) (s : Session)
  : Completion Drawn * Session :=
  match chartRef (bridge s) with
  | None => (Throw (ThrownError chartNotAvailable), s)
  | Some _ =>
      let s1 := logShape (trendShape startPoint style label) s in
      match answerShape chart (shapeCalls s1) with
      | Throw e => (Throw e, s1)
      | Normal None => (Normal None, s1)
      | Normal (Some shape) =>
          let '(now, s2) := readClock chart s1 in
          let patternId := trendKey now in
          (Normal (Some (patternId, shape)),
           onBridge (λ b, withPatterns (JsMap.set patternId shape (appliedPatterns b)) b) s2)
      end
  end.

Inductive TargetType : Type := ENTRY | TARGET | STOP_LOSS.

Definition targetTypeName (t : TargetType) : string :=
  match t with
  | ENTRY => "ENTRY"
  | TARGET => "TARGET"
  | STOP_LOSS => "STOP_LOSS"
  end.

Record PriceTarget : Type := {
  target_level : number N;
  target_type : TargetType;
  target_confidence : number N;
  target_reasoning : string
}.

(** [getPriceTargetStyle] (lines 1045-1070). *)
Definition getPriceTargetStyle (targetType : TargetType) (confidence : number N)
  : gmap string StyleVal :=
  let baseStyle : gmap string StyleVal :=
    {[ "lineWidth" :=
         SNumber (num_max N (num_lit N 1)
                    (num_min N (num_lit N 3)
                       (num_floor N (num_mul N confidence (num_lit N 3))))) ]} in
  let styleMap : gmap string StyleVal :=
    match targetType with
    | ENTRY => {[ "color" := SText "#2196F3"; "lineWidth" := SNumber (num_lit N 2) ]}
    | TARGET => {[ "color" := SText "#4CAF50"; "lineWidth" := SNumber (num_lit N 2) ]}
    | STOP_LOSS => {[ "color" := SText "#F44336"; "lineWidth" := SNumber (num_lit N 3) ]}
    end in
  styleMap ∪ baseStyle.

(** [formatPriceTargetLabel] (lines 1072-1081). *)
Definition formatPriceTargetLabel (target : PriceTarget) : string :=
  let typeLabel := match target_type target with
                   | ENTRY => "Entry"
                   | TARGET => "Target"
                   | STOP_LOSS => "Stop Loss"
                   end in
  let confidence :=
    num_fixed N 0 (num_mul N (target_confidence target) (num_lit N 100)) +:+ "%" in
  typeLabel +:+ ": " +:+ num_fixed N 2 (target_level target) +:+ " (" +:+ confidence +:+ ")".

(** The key of a price target, [`${target.type.toLowerCase()}_${target.level}`]. *)
Definition targetKey (target : PriceTarget) : string :=
  JsString.toLowerCase (targetTypeName (target_type target))
    +:+ "_" +:+ num_text N (target_level target).

(** [Date.now() / 1000] *)
Definition nowSeconds (now : Z) : number N :=
  num_div N (num_lit N now) (num_lit N 1000).

(** The call of [createShape] of lines 1087-1099. *)
Definition labelShape (now : Z) (target : PriceTarget) : ShapeCall :=
  {| point_time := nowSeconds now;
     point_price := target_level target;
     shape_kind := "text";
     shape_text := formatPriceTargetLabel target;
     shape_overrides :=
       {[ "color" := SText "#FFFFFF";
          "backgroundColor" :=
            styleOf (getPriceTargetStyle (target_type target) (target_confidence target))
              "color";
          "fontSize" := SNumber (num_lit N 11);
          "bold" := SBool true ]} |}.

(** [`label_${target.type.toLowerCase()}_${target.level}`] *)
Definition labelKey (target : PriceTarget) : string := "label_" +:+ targetKey target.

(** [addPriceTargetLabel] (lines 1083-1108). *)
Definition addPriceTargetLabel (chart : ChartBehaviour) (target : PriceTarget) (s : Session)
  : Completion Drawn * Session :=
  match chartRef (bridge s) with
  | None => (Normal None, s)
  | Some _ =>
      let '(now, s1) := readClock chart s in
      let s2 := logShape (labelShape now target) s1 in
      match answerShape chart (shapeCalls s2) with
      | Throw e => (Throw e, s2)
      | Normal None => (Normal None, s2)
      | Normal (Some label) =>
          let labelId := labelKey target in
          (Normal (Some (labelId, label)),
           onBridge (λ b, withAnnotations (JsMap.set labelId label (appliedAnnotations b)) b)
             s2)
      end
  end.

(** What [drawPriceTarget] returns: [{ id, line, label }] or [null]. *)
Record TargetDrawn : Type := {
  drawn_id : string;
  drawn_line : Handle;
  drawn_label : Drawn
}.

(** The call of [createShape] of lines 891-898. *)
Definition lineShape (now : Z) (target : PriceTarget) (style : gmap string StyleVal)
  : ShapeCall :=
  let targetStyle := getPriceTargetStyle (target_type target) (target_confidence target) in
  let finalStyle := style ∪ targetStyle in
  {| point_time := nowSeconds now;
     point_price := target_level target;
     shape_kind := "horizontal_line";
     shape_text := formatPriceTargetLabel target;
     shape_overrides := finalStyle |}.

(** [drawPriceTarget] (lines 880-911). *)
Definition drawPriceTarget (chart : ChartBehaviour) (target : PriceTarget)
    (style : gmap string StyleVal) (s : Session)
  : Completion (option TargetDrawn) * Session :=
  match chartRef (bridge s) with
  | None => (Throw (ThrownError chartNotAvailable), s)
  | Some _ =>
      let '(now, s1) := readClock chart s in
      let s2 := logShape (lineShape now target style) s1 in
      match answerShape chart (shapeCalls s2) with
      | Throw e => (Throw e, s2)
      | Normal None => (Normal None, s2)
      | Normal (Some line) =>
          let targetId := targetKey target in
          let s3 :=
            onBridge (λ b, withPriceTargets
                             (JsMap.set targetId line (appliedPriceTargets b)) b) s2 in
          match addPriceTargetLabel chart target s3 with
          | (Throw e, s4) => (Throw e, s4)
          | (Normal label, s4) =>
              (Normal (Some {| drawn_id := targetId; drawn_line := line;
                               drawn_label := label |}), s4)
          end
      end
  end.

(** The body of the loop of [drawMultiplePriceTargets] (lines 919-927). *)
Definition drawNextTarget (chart : ChartBehaviour)
    (acc : list (option TargetDrawn) * Session) (target : PriceTarget)
  : list (option TargetDrawn) * Session :=
  match drawPriceTarget chart target ∅ acc.2 with
  | (Normal drawn, s) => (acc.1 ++ [drawn], s)
  | (Throw e, s) =>
      (acc.1 ++ [None],
       onBridge (withConsole ("Failed to draw price target "
                                +:+ targetTypeName (target_type target) +:+ " at "
                                +:+ num_text N (target_level target) +:+ ":", e)) s)
  end.

Definition drawMultiplePriceTargets (chart : ChartBehaviour) (targets : list PriceTarget)
    (s : Session) : list (option TargetDrawn) * Session :=
  fold_left (drawNextTarget chart) targets ([], s).

(** [updatePriceTarget] (lines 935-946). *)
Definition updatePriceTarget (chart : ChartBehaviour) (targetId : string)
    (newTarget : PriceTarget) (s : Session) : Completion (option TargetDrawn) * Session :=
  match removePriceTarget targetId (bridge s) with
  | (Throw e, b) => (Throw e, onBridge (λ _, b) s)
  | (Normal _, b) => drawPriceTarget chart newTarget ∅ (onBridge (λ _, b) s)
  end.

(** The bridge before any widget is registered. *)
Definition initialBridge : Bridge :=
  {| chartRef := None;
     appliedIndicators := JsMap.empty; appliedPatterns := JsMap.empty;
     appliedAnnotations := JsMap.empty; appliedPriceTargets := JsMap.empty;
     removeCalls := []; console := [] |}.

Definition initialSession : Session :=
  {| bridge := initialBridge; studyCalls := []; shapeCalls := []; clockReads := 0 |}.

(** The operations of the bridge that a client can chain. *)
Inductive BridgeOp : Type :=
  | OpRegister (api : ChartApi)
  | OpUnregister
  | OpReset (resetData : Completion ())
  | OpAddMACD (params : option Params)
  | OpAddRSI (length : option JsVal)
  | OpAddMovingAverage (period : option Z) (ema : bool)
  | OpAddBollingerBands (period stdDev : option JsVal)
  | OpAddStochastic (kPeriod dPeriod : option JsVal)
  | OpApply (config : IndicatorConfig)
  | OpApplyMultiple (configs : list IndicatorConfig)
  | OpRemoveIndicator (indicatorName : string)
  | OpRemovePattern (patternId : string)
  | OpRemovePriceTarget (targetId : string)
  | OpRemoveAllStudies (method : option (Completion ()))
  | OpClearAllIndicators
  | OpClearAllPatterns
  | OpClearAllPriceTargets
  | OpDrawTrendLine (startPoint endPoint : ChartCoordinate)
      (style : gmap string StyleVal) (label : option string)
  | OpDrawPriceTarget (target : PriceTarget) (style : gmap string StyleVal)
  | OpDrawMultiplePriceTargets (targets : list PriceTarget)
  | OpUpdatePriceTarget (targetId : string) (newTarget : PriceTarget).

Definition step (chart : ChartBehaviour) (s : Session) (op : BridgeOp) : Session :=
  match op with
  | OpRegister api => onBridge (registerWidget api) s
  | OpUnregister => onBridge unregisterWidget s
  | OpReset resetData => onBridge (λ b, (resetChart resetData b).2) s
  | OpAddMACD params => (addMACD chart params s).2
  | OpAddRSI length => (addRSI chart length s).2
  | OpAddMovingAverage period ema => (addMovingAverage chart period ema s).2
  | OpAddBollingerBands period stdDev => (addBollingerBands chart period stdDev s).2
  | OpAddStochastic kPeriod dPeriod => (addStochastic chart kPeriod dPeriod s).2
  | OpApply config => (applyIndicator chart config s).2
  | OpApplyMultiple configs => (applyMultipleIndicators chart configs s).2
  | OpRemoveIndicator indicatorName => onBridge (λ b, (removeIndicator indicatorName b).2) s
  | OpRemovePattern patternId => onBridge (λ b, (removePattern patternId b).2) s
  | OpRemovePriceTarget targetId => onBridge (λ b, (removePriceTarget targetId b).2) s
  | OpRemoveAllStudies method => onBridge (λ b, (removeAllStudies method b).2) s
  | OpClearAllIndicators => onBridge (λ b, (clearAllIndicators b).2) s
  | OpClearAllPatterns => onBridge (λ b, (clearAllPatterns b).2) s
  | OpClearAllPriceTargets => onBridge (λ b, (clearAllPriceTargets b).2) s
  | OpDrawTrendLine startPoint endPoint style label =>
      (drawTrendLine chart startPoint endPoint style label s).2
  | OpDrawPriceTarget target style => (drawPriceTarget chart target style s).2
  | OpDrawMultiplePriceTargets targets => (drawMultiplePriceTargets chart targets s).2
  | OpUpdatePriceTarget targetId newTarget => (updatePriceTarget chart targetId newTarget s).2
  end.

Definition steps (chart : ChartBehaviour) (ops : list BridgeOp) (s : Session) : Session :=
  fold_left (step chart) ops s.

(** Every table is empty. *)
Definition noEntries (b : Bridge) : Prop :=
  appliedIndicators b = JsMap.empty
  ∧ appliedPatterns b = JsMap.empty
  ∧ appliedAnnotations b = JsMap.empty
  ∧ appliedPriceTargets b = JsMap.empty.

(** The handles that the removing operations can reach. *)
Definition removable (b : Bridge) : list Handle :=
  JsMap.values (appliedIndicators b) ++ JsMap.values (appliedPatterns b)
    ++ JsMap.values (appliedPriceTargets b).

(** From [s] to [s'] nothing was asked of the chart or of the clock. *)
Definition untouched (s s' : Session) : Prop :=
  studyCalls s' = studyCalls s
  ∧ shapeCalls s' = shapeCalls s
  ∧ clockReads s' = clockReads s
  ∧ removeCalls (bridge s') = removeCalls (bridge s)
  ∧ chartRef (bridge s') = chartRef (bridge s).

(** The operations that forget the tables wholesale. *)
Definition forgets (op : BridgeOp) : bool :=
  match op with
  | OpUnregister | OpReset _ => true
  | _ => false
  end.

End Drawing.

(** From [b] to [b'] the chart is the same, nothing was removed from it,
    no annotation was dropped, and without a chart the tables are as they
    were. *)
Definition adds (b b' : Bridge) : Prop :=
  chartRef b' = chartRef b
  ∧ (chartRef b = None →
     appliedIndicators b' = appliedIndicators b
     ∧ appliedPatterns b' = appliedPatterns b
     ∧ appliedAnnotations b' = appliedAnnotations b
     ∧ appliedPriceTargets b' = appliedPriceTargets b)
  ∧ removeCalls b' = removeCalls b
  ∧ (∀ k, is_Some (JsMap.get k (appliedAnnotations b)) →
          is_Some (JsMap.get k (appliedAnnotations b'))).

(** The same, where handles of the three tables of [b] that can be reached
    may have been passed to [removeEntity]. *)
Definition evolves (b b' : Bridge) : Prop :=
  chartRef b' = chartRef b
  ∧ (chartRef b = None →
     appliedIndicators b' = appliedIndicators b
     ∧ appliedPatterns b' = appliedPatterns b
     ∧ appliedAnnotations b' = appliedAnnotations b
     ∧ appliedPriceTargets b' = appliedPriceTargets b)
  ∧ (∃ added, removeCalls b' = removeCalls b ++ added ∧ added ⊆ removable b)
  ∧ (∀ k, is_Some (JsMap.get k (appliedAnnotations b)) →
          is_Some (JsMap.get k (appliedAnnotations b'))).

(** What removing by key does, for one of the tables: nothing for a key
    that the table does not hold or without a chart; otherwise one call of
    [removeEntity], whose throw is passed on with the entry left in place,
    and after whose return that entry, and no other, is gone. *)
Definition removesByKey (table : Bridge → JsMap.t Handle)
    (remove : string → Bridge → Completion () * Bridge) : Prop :=
  ∀ key b,
    let r := remove key b in
    (JsMap.get key (table b) = None ∨ chartRef b = None → r = (Normal (), b))
    ∧ (∀ h api, JsMap.get key (table b) = Some h → chartRef b = Some api →
         removeCalls r.2 = removeCalls b ++ [h]
         ∧ console r.2 = console b
         ∧ match removeEntity api h with
           | Throw e => r.1 = Throw e ∧ table r.2 = table b
           | Normal _ =>
               r.1 = Normal ()
               ∧ JsMap.get key (table r.2) = None
               ∧ ∀ key', key' ≠ key → JsMap.get key' (table r.2) = JsMap.get key' (table b)
           end).

(** What a completion of [createStudy] or [createShape] leaves in a list
    of results when a throw is caught and replaced by [null]. *)
Definition orNull {A : Type} (c : Completion (option A)) : option A :=
  match c with
  | Normal a => a
  | Throw _ => None
  end.

Arguments SUndefined {N}.
Arguments SText {N} s.
Arguments SNumber {N} n.
Arguments SBool {N} b.
Arguments styleTruthy {N} v.
Arguments styleOf {N} style key.
Arguments styleOr {N} a b.
Arguments point_time {N} _.
Arguments point_price {N} _.
Arguments shape_kind {N} _.
Arguments shape_text {N} _.
Arguments shape_overrides {N} _.
Arguments answerStudy {N} _ _.
Arguments answerShape {N} _ _.
Arguments clock {N} _ _.
Arguments bridge {N} _.
Arguments studyCalls {N} _.
Arguments shapeCalls {N} _.
Arguments clockReads {N} _.
Arguments onBridge {N} f s.
Arguments logStudy {N} call s.
Arguments logShape {N} call s.
Arguments readClock {N} chart s.
Arguments addStudy {N} chart key studyName lock params s.
Arguments addMACD {N} chart params s.
Arguments addRSI {N} chart length s.
Arguments addMovingAverage {N} chart period ema s.
Arguments addBollingerBands {N} chart period stdDev s.
Arguments addStochastic {N} chart kPeriod dPeriod s.
Arguments applyIndicator {N} chart config s.
Arguments applyNext {N} chart acc config.
Arguments applyMultipleIndicators {N} chart configs s.
Arguments coord_time {N} _.
Arguments coord_price {N} _.
Arguments trendShape {N} startPoint style label.
Arguments drawTrendLine {N} chart startPoint endPoint style label s.
Arguments target_level {N} _.
Arguments target_type {N} _.
Arguments target_confidence {N} _.
Arguments target_reasoning {N} _.
Arguments getPriceTargetStyle {N} targetType confidence.
Arguments formatPriceTargetLabel {N} target.
Arguments targetKey {N} target.
Arguments labelShape {N} now target.
Arguments labelKey {N} target.
Arguments addPriceTargetLabel {N} chart target s.
Arguments lineShape {N} now target style.
Arguments drawPriceTarget {N} chart target style s.
Arguments drawNextTarget {N} chart acc target.
Arguments drawMultiplePriceTargets {N} chart targets s.
Arguments updatePriceTarget {N} chart targetId newTarget s.
Arguments step {N} chart s op.
Arguments steps {N} chart ops s.
Arguments forgets {N} op.
Arguments untouched {N} s s'.
(** ** Sample widgets and stores *)

Module Sample.

(** A widget that knows every study but [BADSTUDY]. *)
Definition accessor : Accessor :=
  λ studyName,
    if String.eqb studyName "BADSTUDY"
    then Throw (ThrownError ("unknown study " +:+ studyName))
    else Normal (JArr [JObj {[ "id" := JStr "in_0"; "name" := JStr "Length";
                               "type" := JStr "integer" ]}]).

Definition studyWidget : Widget :=
  {| w_getStudyInputs := Some accessor; w_activeChart := None |}.

(** A widget with neither of the two accessors. *)
Definition bareWidget : Widget :=
  {| w_getStudyInputs := None;
     w_activeChart := Some (Normal (Some {| chart_getStudyInputs := None |})) |}.

(** A widget that answers with an input that has a name and no id. *)
Definition namelessIdWidget : Widget :=
  {| w_getStudyInputs := Some (λ _, Normal (JArr [JObj {[ "name" := JStr "Length" ]}]));
     w_activeChart := None |}.

Definition window (w : Widget) : Window :=
  {| tvWidget := Some w; widget := None; TradingView_widgetInstance := None |}.

Definition noWindow : Window :=
  {| tvWidget := None; widget := None; TradingView_widgetInstance := None |}.

(** A chart that refuses to remove the entities with an odd handle. *)
Definition stubbornChart : ChartApi :=
  {| removeEntity := λ h, if Nat.odd h
                          then Throw (ThrownError "entity is locked")
                          else Normal () |}.

Definition bridge : Bridge :=
  {| chartRef := Some stubbornChart;
     appliedIndicators := [("RSI", 1); ("MACD", 2); ("BB", 3)];
     appliedPatterns := [("trendline_1", 5)];
     appliedAnnotations := [];
     appliedPriceTargets := [("target_ENTRY_100", 7); ("target_TARGET_120", 8)];
     removeCalls := [];
     console := [] |}.

End Sample.

(** ** Sample numbers and charts *)

From Stdlib Require QArith Qround Qminmax Qabs Qreduction.

Module SampleChart.

(** The digits after the point of [rem / den], at most [fuel] of them. *)
Fixpoint fraction (fuel : nat) (rem den : Z) : string :=
  match fuel with
  | 0 => EmptyString
  | S fuel' =>
      if (rem =? 0)%Z then EmptyString
      else pretty (rem * 10 / den)%Z +:+ fraction fuel' ((rem * 10) mod den)%Z den
  end.

(** [String(q)] for a rational with a short decimal expansion. *)
Definition text (q : QArith_base.Q) : string :=
  let r := Qreduction.Qred q in
  let n := Z.abs (QArith_base.Qnum r) in
  let d := Z.pos (QArith_base.Qden r) in
  (if (QArith_base.Qnum r <? 0)%Z then "-" else EmptyString)
    +:+ pretty (n / d)%Z
    +:+ (if (n mod d =? 0)%Z then EmptyString else "." +:+ fraction 17 (n mod d)%Z d).

(** [m] written with [digits] digits. *)
Fixpoint padded (digits : nat) (m : Z) : string :=
  match digits with
  | 0 => EmptyString
  | S d => pretty (m / 10 ^ Z.of_nat d)%Z +:+ padded d (m mod 10 ^ Z.of_nat d)%Z
  end.

(** [q.toFixed(digits)]: the nearest multiple of [10^-digits], a tie going
    away from zero. *)
Definition fixed (digits : nat) (q : QArith_base.Q) : string :=
  let scale := (10 ^ Z.of_nat digits)%Z in
  let n := Qround.Qfloor
             (QArith_base.Qplus
                (QArith_base.Qmult (Qabs.Qabs q) (QArith_base.inject_Z scale))
                (QArith_base.Qmake 1 2)) in
  (if (QArith_base.Qnum q <? 0)%Z then "-" else EmptyString)
    +:+ pretty (n / scale)%Z
    +:+ match digits with
        | 0 => EmptyString
        | _ => "." +:+ padded digits (n mod scale)%Z
        end.

(** The rationals, for the doubles of the samples: every operation below
    is exact on them. *)
Definition rationals : Numbers :=
  {| number := QArith_base.Q;
     num_lit := QArith_base.inject_Z;
     num_mul := QArith_base.Qmult;
     num_div := QArith_base.Qdiv;
     num_floor := λ q, QArith_base.inject_Z (Qround.Qfloor q);
     num_min := Qminmax.Qmin;
     num_max := Qminmax.Qmax;
     num_truthy := λ q, negb (QArith_base.Qnum q =? 0)%Z;
     num_text := text;
     num_fixed := fixed |}.

(** A chart that hands out the handles 1, 2, ... to the studies and 101,
    102, ... to the shapes, refuses the study [BADSTUDY], and whose clock
    advances by a millisecond at each reading. *)
Definition chart : ChartBehaviour rationals :=
  {| answerStudy := λ calls,
       match last calls with
       | Some call =>
           if String.eqb (call_name call) "BADSTUDY"
           then Throw (ThrownError "unknown study")
           else Normal (Some (length calls))
       | None => Normal None
       end;
     answerShape := λ calls, Normal (Some (100 + length calls));
     clock := λ reads, (1700000000000 + Z.of_nat reads)%Z |}.

(** The same chart with a clock that stands still. *)
Definition frozenChart : ChartBehaviour rationals :=
  {| answerStudy := answerStudy chart;
     answerShape := answerShape chart;
     clock := λ _, 1700000000000%Z |}.

(** A chart whose labels cannot be created. *)
Definition noLabelChart : ChartBehaviour rationals :=
  {| answerStudy := answerStudy chart;
     answerShape := λ calls,
       match last calls with
       | Some call =>
           if String.eqb (shape_kind call) "text"
           then Throw (ThrownError "no text shapes")
           else Normal (Some (100 + length calls))
       | None => Normal None
       end;
     clock := clock chart |}.

Definition willingChart : ChartApi := {| removeEntity := λ _, Normal () |}.

Definition registered : Session rationals :=
  onBridge (registerWidget willingChart) (initialSession rationals).

Definition entry : PriceTarget rationals :=
  Build_PriceTarget rationals (QArith_base.Qmake 10025 100) ENTRY
    (QArith_base.Qmake 8 10) "breakout".

Definition rsi : IndicatorConfig :=
  {| cfg_name := "RSI"; cfg_parameters := {[ "length" := JNum 0 ]}; cfg_visible := true |}.

Definition bad : IndicatorConfig :=
  {| cfg_name := "BADSTUDY"; cfg_parameters := ∅; cfg_visible := true |}.

Definition macd : IndicatorConfig :=
  {| cfg_name := "MACD"; cfg_parameters := {[ "in_0" := JNum 5 ]}; cfg_visible := false |}.

End SampleChart.
(** * Properties *)

(** ** Facts about [JsMap] *)

Module JsMapFacts.
Section Facts.
Context {V : Type}.
Implicit Types (m : JsMap.t V) (k : string) (v : V).

Lemma get_set_eq m k v : JsMap.get k (JsMap.set k v m) = Some v.
Proof.
  induction m as [|[k' v'] m IH]; simpl.
  - by rewrite String.eqb_refl.
  - destruct (String.eqb k k') eqn:E; simpl.
    + by rewrite String.eqb_refl.
    + by rewrite E.
Qed.

Lemma get_set_ne m k k' v : k ≠ k' → JsMap.get k' (JsMap.set k v m) = JsMap.get k' m.
Proof.
  intros Hne. apply String.eqb_neq in Hne.
  induction m as [|[k0 v0] m IH]; simpl.
  - by rewrite String.eqb_sym Hne.
  - destruct (String.eqb k k0) eqn:E; simpl.
    + apply String.eqb_eq in E as <-. by rewrite (String.eqb_sym k' k) Hne.
    + by rewrite IH.
Qed.

Lemma get_delete_eq m k : JsMap.get k (JsMap.delete k m) = None.
Proof.
  induction m as [|[k' v'] m IH]; simpl; [done|].
  destruct (String.eqb k k') eqn:E; simpl; [done|]. by rewrite E.
Qed.

Lemma get_delete_ne m k k' : k ≠ k' → JsMap.get k' (JsMap.delete k m) = JsMap.get k' m.
Proof.
  intros Hne. apply String.eqb_neq in Hne.
  induction m as [|[k0 v0] m IH]; simpl; [done|].
  destruct (String.eqb k k0) eqn:E; simpl.
  - apply String.eqb_eq in E as <-. by rewrite (String.eqb_sym k' k) Hne.
  - by rewrite IH.
Qed.

Lemma keys_set_fresh m k v :
  JsMap.get k m = None → JsMap.keys (JsMap.set k v m) = JsMap.keys m ++ [k].
Proof.
  induction m as [|[k' v'] m IH]; simpl; [done|].
  destruct (String.eqb k k') eqn:E; [done|]. intros Hm.
  rewrite /JsMap.keys !fmap_cons /=. f_equal. by apply IH.
Qed.

Lemma keys_set_bound m k v v0 :
  JsMap.get k m = Some v0 → JsMap.keys (JsMap.set k v m) = JsMap.keys m.
Proof.
  induction m as [|[k' v'] m IH]; simpl; [done|].
  destruct (String.eqb k k') eqn:E.
  - apply String.eqb_eq in E as <-. done.
  - intros Hm. rewrite /JsMap.keys !fmap_cons /=. f_equal. by apply IH.
Qed.

Lemma get_None_keys m k : JsMap.get k m = None ↔ k ∉ JsMap.keys m.
Proof.
  unfold JsMap.keys. induction m as [|[k' v'] m IH]; simpl.
  - split; [intros _; apply not_elem_of_nil | done].
  - rewrite not_elem_of_cons. destruct (String.eqb k k') eqn:E.
    + apply String.eqb_eq in E. split; [done | intros [? _]; done].
    + apply String.eqb_neq in E. rewrite IH. split; [done | by intros [_ ?]].
Qed.

(** [set] keeps the keys distinct. *)
Lemma wf_set m k v : JsMap.wf m → JsMap.wf (JsMap.set k v m).
Proof.
  unfold JsMap.wf. intros Hwf.
  destruct (JsMap.get k m) as [v0|] eqn:E.
  - by rewrite (keys_set_bound _ _ _ _ E).
  - rewrite (keys_set_fresh _ _ _ E). apply NoDup_app. split; [done|].
    split; [|apply NoDup_singleton].
    intros x Hx ->%list_elem_of_singleton. by apply get_None_keys in E.
Qed.

Lemma keys_delete m k :
  JsMap.keys (JsMap.delete k m) = filter (λ k', k' ≠ k) (JsMap.keys m).
Proof.
  rewrite /JsMap.keys. induction m as [|[k' v'] m IH]; simpl; [done|].
  destruct (String.eqb k k') eqn:E.
  - apply String.eqb_eq in E as <-. rewrite filter_cons_False; [|done]. by intros ?.
  - apply String.eqb_neq in E. rewrite filter_cons_True; [by intros ->|].
    by rewrite fmap_cons IH.
Qed.

(** [delete] keeps the keys distinct. *)
Lemma wf_delete m k : JsMap.wf m → JsMap.wf (JsMap.delete k m).
Proof. rewrite /JsMap.wf keys_delete. apply NoDup_filter. Qed.

End Facts.
End JsMapFacts.

(** ** The cache under [getStudySchema] and [clearStudyCache] *)

Section CacheFacts.
Implicit Types (win : Window) (st : Store) (S k : string).

Lemma getStudySchema_cached_get S st :
  getStudySchema_cached S st =
    match JsMap.get (keyOf S) (cache st) with
    | Some (EntryOk schema) => Some (Normal schema)
    | Some (EntryErr error) => Some (Throw (ThrownError error))
    | None => None
    end.
Proof. done. Qed.

Lemma getStudySchema_hit win S st schema :
  JsMap.get (keyOf S) (cache st) = Some (EntryOk schema) →
  getStudySchema win S st = (Normal schema, st).
Proof. intros H. by rewrite /getStudySchema /getStudySchema_cached H. Qed.

Lemma getStudySchema_replay win S st error :
  JsMap.get (keyOf S) (cache st) = Some (EntryErr error) →
  getStudySchema win S st = (Throw (ThrownError error), st).
Proof. intros H. by rewrite /getStudySchema /getStudySchema_cached H. Qed.

Lemma getStudySchema_miss win S st :
  JsMap.get (keyOf S) (cache st) = None →
  getStudySchema win S st = getStudySchema_fetch win S st.
Proof. intros H. by rewrite /getStudySchema /getStudySchema_cached H. Qed.

(** The fetch writes at most the entry of its own key. *)
Lemma fetch_other_keys win S st k :
  k ≠ keyOf S →
  JsMap.get k (cache (getStudySchema_fetch win S st).2) = JsMap.get k (cache st).
Proof.
  intros Hk. rewrite /getStudySchema_fetch.
  destruct (getWidget win) as [w|]; simpl.
  - destruct (queryInputs w S) as [[raw|e] evs]; simpl.
    + destruct (normalizeInputs raw); simpl; [|done].
      by rewrite JsMapFacts.get_set_ne.
    + by rewrite JsMapFacts.get_set_ne.
  - by rewrite JsMapFacts.get_set_ne.
Qed.

(** A successful fetch has cached what it returns. *)
Lemma fetch_success_cached win S st schema st1 :
  getStudySchema_fetch win S st = (Normal schema, st1) →
  JsMap.get (keyOf S) (cache st1) = Some (EntryOk schema).
Proof.
  rewrite /getStudySchema_fetch.
  destruct (getWidget win) as [w|]; simpl; [|done].
  destruct (queryInputs w S) as [[raw|e] evs]; simpl; [|done].
  destruct (normalizeInputs raw); simpl; [|done].
  intros [= <- <-]. simpl. apply JsMapFacts.get_set_eq.
Qed.

Lemma getStudySchema_success_cached win S st schema st1 :
  getStudySchema win S st = (Normal schema, st1) →
  JsMap.get (keyOf S) (cache st1) = Some (EntryOk schema).
Proof.
  rewrite /getStudySchema getStudySchema_cached_get.
  destruct (JsMap.get (keyOf S) (cache st)) as [[cached|error]|] eqn:E.
  - by intros [= <- <-].
  - done.
  - apply fetch_success_cached.
Qed.

(** In a sequence of calls an entry, once written, is kept as it is by
    every fetch. *)
Lemma getStudySchema_keeps_entry win S st k entry :
  JsMap.get k (cache st) = Some entry →
  JsMap.get k (cache (getStudySchema win S st).2) = Some entry.
Proof.
  intros Hk. rewrite /getStudySchema getStudySchema_cached_get.
  destruct (JsMap.get (keyOf S) (cache st)) as [[cached|error]|] eqn:E; [done..|].
  rewrite fetch_other_keys; [|done]. intros ->. by rewrite E in Hk.
Qed.

Lemma clearStudyCache_other_keys S st k :
  S ≠ EmptyString → k ≠ keyOf S →
  JsMap.get k (cache (clearStudyCache (Some S) st)) = JsMap.get k (cache st).
Proof.
  intros HS Hk. destruct S as [|c S]; [done|]. simpl.
  by rewrite JsMapFacts.get_delete_ne.
Qed.

Lemma clearStudyCache_own_key S st :
  JsMap.get (keyOf S) (cache (clearStudyCache (Some S) st)) = None.
Proof. destruct S as [|c S]; [done|]. simpl. apply JsMapFacts.get_delete_eq. Qed.

Lemma clearStudyCache_trace name st : trace (clearStudyCache name st) = trace st.
Proof. by destruct name as [[|c S]|]. Qed.

Lemma perform_keeps_entry c st k entry :
  keepsKey k c = true →
  JsMap.get k (cache st) = Some entry →
  JsMap.get k (cache (perform st c)) = Some entry.
Proof.
  destruct c as [win S|[S|]]; cbn [keepsKey perform]; [| |done].
  - intros _. apply getStudySchema_keeps_entry.
  - destruct S as [|c S]; [done|]. intros Hne%negb_true_iff%String.eqb_neq Hk.
    rewrite clearStudyCache_other_keys; [done| |done]. by intros ->.
Qed.

Lemma performAll_keeps_entry calls st k entry :
  forallb (keepsKey k) calls = true →
  JsMap.get k (cache st) = Some entry →
  JsMap.get k (cache (performAll calls st)) = Some entry.
Proof.
  revert st. induction calls as [|c calls IH]; intros st; simpl; [done|].
  intros [Hc Hcalls]%andb_true_iff Hk. apply IH; [done|].
  by apply perform_keeps_entry.
Qed.

(** What a failing fetch leaves and throws. *)
Lemma fetch_failure win S st :
  fetchFails win S = true →
  ∃ error st1,
    getStudySchema_fetch win S st = (Throw (ThrownError error), st1)
    ∧ JsMap.get (keyOf S) (cache st1) = Some (EntryErr error)
    ∧ (getWidget win = None → error = widgetNotAvailable).
Proof.
  rewrite /fetchFails /getStudySchema_fetch.
  destruct (getWidget win) as [w|]; simpl.
  - destruct (queryInputs w S) as [[raw|e] evs]; simpl; [done|]. intros _.
    eexists _, _. split; [done|]. split; [apply JsMapFacts.get_set_eq | done].
  - intros _. eexists _, _. split; [done|]. split; [apply JsMapFacts.get_set_eq | done].
Qed.

End CacheFacts.

(** C2. After [getStudySchema(S)] has succeeded with a schema, a call for
    any name with the same normalized key, whatever the widget is by then,
    returns that same schema and leaves the store as it is: the cache is
    unchanged and the trace of widget calls has not grown, so no second
    widget query was issued. *)
Theorem getStudySchema_idempotent (win win' : Window) (S S' : string)
    (st st1 : Store) (schema : StudySchema) :
  getStudySchema win S st = (Normal schema, st1) →
  keyOf S' = keyOf S →
  getStudySchema win' S' st1 = (Normal schema, st1)
  ∧ trace (getStudySchema win' S' st1).2 = trace st1.
Proof.
  intros Hfirst Hkey.
  apply getStudySchema_success_cached in Hfirst.
  rewrite -Hkey in Hfirst.
  by rewrite (getStudySchema_hit win' S' st1 schema Hfirst).
Qed.

Lemma getStudySchema_idempotent_witness :
  let first := getStudySchema (Sample.window Sample.studyWidget) "  rsi " emptyStore in
  let schema :=
    {| schema_name := "  rsi ";
       inputs := [{| id := "in_0"; name := "Length"; localizedName := "Length";
                     type := "integer" |}] |} in
  first = (Normal schema, first.2)
  ∧ keyOf "RSI" = keyOf "  rsi "
  ∧ getStudySchema Sample.noWindow "RSI" first.2 = (Normal schema, first.2)
  ∧ trace (getStudySchema Sample.noWindow "RSI" first.2).2 = trace first.2.
Proof.
  split; [by vm_compute|]. split; [by vm_compute|].
  apply (getStudySchema_idempotent (Sample.window Sample.studyWidget) Sample.noWindow
           "  rsi " "RSI" emptyStore); by vm_compute.
Defined.



(** The fetch starts by looking for the widget. *)
Lemma fetch_probes win S st :
  ∃ evs, trace (getStudySchema_fetch win S st).2 = trace st ++ EvGetWidget :: evs.
Proof.
  rewrite /getStudySchema_fetch.
  destruct (getWidget win) as [w|]; simpl; [|by exists []].
  destruct (queryInputs w S) as [[raw|e] evs]; simpl.
  - destruct (normalizeInputs raw); simpl; exists evs; by rewrite -assoc.
  - exists evs. by rewrite -assoc.
Qed.

(** C9. When [getStudySchema(S)] finds no widget handle, the message
    "TradingView widget not available" is cached under the normalized key of
    [S]; after any calls that do not clear that key, a call for a name with
    the same key throws that message without looking for the widget, also in
    a window where a widget is now present; once the entry has been cleared,
    by [clearStudyCache(S)] or by [clearStudyCache()], the next call looks
    for the widget again. *)
Theorem widget_unavailable_sticks (win : Window) (S : string) (st : Store) :
  JsMap.get (keyOf S) (cache st) = None →
  getWidget win = None →
  ∃ st1,
    getStudySchema win S st = (Throw (ThrownError widgetNotAvailable), st1)
    ∧ JsMap.get (keyOf S) (cache st1) = Some (EntryErr widgetNotAvailable)
    ∧ (∀ (calls : list Call) (win' : Window) (S' : string),
         forallb (keepsKey (keyOf S)) calls = true →
         keyOf S' = keyOf S →
         getStudySchema win' S' (performAll calls st1)
           = (Throw (ThrownError widgetNotAvailable), performAll calls st1))
    ∧ (∀ (st2 : Store) (win' : Window) (S' : string) (cleared : option string),
         keyOf S' = keyOf S →
         cleared = Some S ∨ cleared = None →
         ∃ evs, trace (getStudySchema win' S' (clearStudyCache cleared st2)).2
                  = trace st2 ++ EvGetWidget :: evs).
Proof.
  intros Hmiss Hnone.
  assert (fetchFails win S = true) as Hfails by by rewrite /fetchFails Hnone.
  destruct (fetch_failure win S st Hfails) as (error & st1 & Hfetch & Hcached & Hmsg).
  rewrite (Hmsg Hnone) in Hfetch Hcached.
  exists st1. rewrite getStudySchema_miss; [done|].
  split; [done|]. split; [done|]. split.
  - intros calls win' S' Hcalls Hkey.
    apply getStudySchema_replay. rewrite Hkey.
    by apply performAll_keeps_entry.
  - intros st2 win' S' cleared Hkey Hcleared.
    rewrite getStudySchema_miss.
    { rewrite Hkey. destruct Hcleared as [-> | ->]; [apply clearStudyCache_own_key | done]. }
    destruct (fetch_probes win' S' (clearStudyCache cleared st2)) as [evs Hevs].
    exists evs. by rewrite Hevs clearStudyCache_trace.
Qed.

Lemma widget_unavailable_sticks_witness :
  JsMap.get (keyOf "RSI") (cache emptyStore) = None
  ∧ getWidget Sample.noWindow = None
  ∧ ∃ st1,
      getStudySchema Sample.noWindow "RSI" emptyStore
        = (Throw (ThrownError widgetNotAvailable), st1)
      ∧ JsMap.get (keyOf "RSI") (cache st1) = Some (EntryErr widgetNotAvailable)
      ∧ (∀ (calls : list Call) (win' : Window) (S' : string),
           forallb (keepsKey (keyOf "RSI")) calls = true →
           keyOf S' = keyOf "RSI" →
           getStudySchema win' S' (performAll calls st1)
             = (Throw (ThrownError widgetNotAvailable), performAll calls st1))
      ∧ (∀ (st2 : Store) (win' : Window) (S' : string) (cleared : option string),
           keyOf S' = keyOf "RSI" →
           cleared = Some "RSI" ∨ cleared = None →
           ∃ evs, trace (getStudySchema win' S' (clearStudyCache cleared st2)).2
                    = trace st2 ++ EvGetWidget :: evs).
Proof.
  split; [by vm_compute|]. split; [by vm_compute|].
  apply (widget_unavailable_sticks Sample.noWindow "RSI" emptyStore); by vm_compute.
Defined.

(** C10. On a cache miss, with a widget that has neither a
    [getStudyInputs] function nor one on [activeChart()], the call does not
    fail: it returns a schema with the name as given and no inputs, caches
    it as a success, and [hasStudy(S)] is true afterwards. *)
Theorem no_accessor_empty_schema (win : Window) (w : Widget) (S : string) (st : Store) :
  JsMap.get (keyOf S) (cache st) = None →
  getWidget win = Some w →
  noAccessor w = true →
  ∃ st1,
    getStudySchema win S st = (Normal {| schema_name := S; inputs := [] |}, st1)
    ∧ JsMap.get (keyOf S) (cache st1) = Some (EntryOk {| schema_name := S; inputs := [] |})
    ∧ hasStudy S st1 = true.
Proof.
  intros Hmiss Hw Hbare.
  assert (∃ evs, queryInputs w S = (Normal JUndefined, evs)) as [evs Hq].
  { rewrite /queryInputs. rewrite /noAccessor in Hbare.
    destruct (w_getStudyInputs w); [done|].
    destruct (w_activeChart w) as [[[chart|]|e]|]; [|by eexists..|done|by eexists].
    destruct (chart_getStudyInputs chart); [done|by eexists]. }
  rewrite getStudySchema_miss; [done|].
  rewrite /getStudySchema_fetch Hw Hq /=.
  eexists. split; [done|].
  rewrite /hasStudy /= JsMapFacts.get_set_eq. done.
Qed.

Lemma no_accessor_empty_schema_witness :
  JsMap.get (keyOf "RSI") (cache emptyStore) = None
  ∧ getWidget (Sample.window Sample.bareWidget) = Some Sample.bareWidget
  ∧ noAccessor Sample.bareWidget = true
  ∧ ∃ st1,
      getStudySchema (Sample.window Sample.bareWidget) "RSI" emptyStore
        = (Normal {| schema_name := "RSI"; inputs := [] |}, st1)
      ∧ JsMap.get (keyOf "RSI") (cache st1)
          = Some (EntryOk {| schema_name := "RSI"; inputs := [] |})
      ∧ hasStudy "RSI" st1 = true.
Proof.
  split; [by vm_compute|]. split; [by vm_compute|]. split; [by vm_compute|].
  apply (no_accessor_empty_schema (Sample.window Sample.bareWidget) Sample.bareWidget
           "RSI" emptyStore); by vm_compute.
Defined.

(** C7. [clearStudyCache(S)] with a non-empty [S] removes the entry of the
    normalized key of [S] and no other: every other key reads as before, so
    a study [O] with another key that was cached as a success still is. *)
Theorem clearStudyCache_frame (S O : string) (st : Store) :
  S ≠ EmptyString →
  keyOf O ≠ keyOf S →
  hasStudy O st = true →
  hasStudy O (clearStudyCache (Some S) st) = true
  ∧ hasStudy S (clearStudyCache (Some S) st) = false
  ∧ JsMap.get (keyOf S) (cache (clearStudyCache (Some S) st)) = None
  ∧ ∀ k, k ≠ keyOf S →
      JsMap.get k (cache (clearStudyCache (Some S) st)) = JsMap.get k (cache st).
Proof.
  intros HS Hkey Hhas.
  split; [|split; [|split]].
  - rewrite /hasStudy clearStudyCache_other_keys; done.
  - by rewrite /hasStudy clearStudyCache_own_key.
  - apply clearStudyCache_own_key.
  - intros k Hk. by apply clearStudyCache_other_keys.
Qed.

Lemma clearStudyCache_frame_witness :
  let st := performAll [CallGetStudySchema (Sample.window Sample.studyWidget) "RSI";
                        CallGetStudySchema (Sample.window Sample.studyWidget) "MACD"]
              emptyStore in
  hasStudy " macd " st = true
  ∧ hasStudy " macd " (clearStudyCache (Some "RSI") st) = true
  ∧ hasStudy "RSI" (clearStudyCache (Some "RSI") st) = false
  ∧ JsMap.get (keyOf "RSI") (cache (clearStudyCache (Some "RSI") st)) = None
  ∧ ∀ k, k ≠ keyOf "RSI" →
      JsMap.get k (cache (clearStudyCache (Some "RSI") st)) = JsMap.get k (cache st).
Proof.
  split; [by vm_compute|].
  apply (clearStudyCache_frame "RSI" " macd "); by vm_compute.
Defined.

(** ** Strings *)

Section StringFacts.
Implicit Types (s q : string).

Lemma prefix_spec q s : String.prefix q s = true ↔ ∃ after, s = q +:+ after.
Proof.
  revert s. induction q as [|c q IH]; intros s; simpl.
  - destruct s; split; eauto.
  - destruct s as [|d s]; simpl.
    + split; [done | by intros [? ?]].
    + destruct (Ascii.ascii_dec c d) as [->|Hne].
      * rewrite IH. split; intros [after H]; exists after.
        -- by rewrite H.
        -- by injection H.
      * split; [done|]. intros [after [= ? _]]. done.
Qed.

Lemma includes_spec s q :
  JsString.includes s q = true ↔ ∃ before after, s = before +:+ q +:+ after.
Proof.
  induction s as [|c s IH]; cbn [JsString.includes].
  - rewrite orb_false_r prefix_spec. split.
    + intros [after H]. by exists EmptyString, after.
    + intros (before & after & H). destruct before; simpl in H; [by exists after | done].
  - rewrite orb_true_iff prefix_spec IH. split.
    + intros [[after H] | (before & after & H)].
      * by exists EmptyString, after.
      * exists (String c before), after. simpl. by rewrite H.
    + intros (before & after & H). destruct before as [|d before]; simpl in H.
      * left. by exists after.
      * right. exists before, after. by injection H.
Qed.

Lemma includes_empty s : JsString.includes s EmptyString = true.
Proof. by destruct s. Qed.

End StringFacts.

(** ** [getStudySchema]: the normalisation of the raw answer *)

Section Normalisation.
Implicit Types (i v raw : JsVal).

Lemma getProp_total i p : Js.isNullish i = false → ∃ v, Js.getProp i p = Some v.
Proof. destruct i; simpl; try done; eauto. Qed.

Lemma coalesce_absent v d : Js.isNullish v = true → Js.coalesce v d = d.
Proof. rewrite /Js.coalesce. by intros ->. Qed.

Lemma coalesce_present v d : Js.isNullish v = false → Js.coalesce v d = v.
Proof. rewrite /Js.coalesce. by intros ->. Qed.

(** What [normalizeInput] computes on an element that is not nullish. *)
Lemma normalizeInput_fields i v_id v_name v_loc v_type :
  Js.getProp i "id" = Some v_id →
  Js.getProp i "name" = Some v_name →
  Js.getProp i "localizedName" = Some v_loc →
  Js.getProp i "type" = Some v_type →
  normalizeInput i =
    Normal {| id := Js.toStr v_id;
              name := Js.toStr (Js.coalesce v_name (JStr JsString.empty));
              localizedName :=
                Js.toStr (Js.coalesce v_loc (Js.coalesce v_name (JStr JsString.empty)));
              type := Js.toStr (Js.coalesce v_type (JStr JsString.empty)) |}.
Proof. rewrite /normalizeInput. by intros -> -> -> ->. Qed.

Lemma normalizeInput_nullish i :
  Js.isNullish i = true →
  normalizeInput i = Throw (ThrownError (Js.readOfNullish i "id")).
Proof. by destruct i. Qed.

Lemma mapM_Forall2 {A B} (f : A → Completion B) xs :
  Forall (λ x, ∃ y, f x = Normal y) xs →
  ∃ ys, Js.mapM f xs = Normal ys ∧ Forall2 (λ x y, f x = Normal y) xs ys.
Proof.
  induction 1 as [|x xs [y Hy] _ (ys & Hys & Hall)]; simpl.
  - by exists [].
  - rewrite Hy Hys. exists (y :: ys). split; [done|]. by constructor.
Qed.

End Normalisation.

(** C4, as the code has it. A raw answer that is not an array gives no
    inputs. For an element that is neither [undefined] nor [null]: a [name]
    or [type] that is missing or nullish becomes the empty string and one
    that is present is converted by [String]; a missing or nullish
    [localizedName] takes the normalized [name]; [id] is converted by
    [String] whatever it is, so a missing [id] becomes the text
    ["undefined"]. An array of such elements is normalized element by
    element. *)
Theorem normalization_defaults (raw i : JsVal) :
  Js.isNullish i = false →
  (Js.isArray raw = false → normalizeInputs raw = Normal [])
  ∧ (∃ r, normalizeInput i = Normal r
      ∧ (absent i "name" → name r = EmptyString)
      ∧ (absent i "type" → type r = EmptyString)
      ∧ (absent i "localizedName" → localizedName r = name r)
      ∧ (∀ v, holds i "name" v → name r = Js.toStr v)
      ∧ (∀ v, holds i "type" v → type r = Js.toStr v)
      ∧ (∀ v, holds i "localizedName" v → localizedName r = Js.toStr v)
      ∧ (∀ v, Js.getProp i "id" = Some v → id r = Js.toStr v)
      ∧ (Js.getProp i "id" = Some JUndefined → id r = "undefined"))
  ∧ (∀ elems, Forall (λ e, Js.isNullish e = false) elems →
       ∃ rs, normalizeInputs (JArr elems) = Normal rs
             ∧ Forall2 (λ e r, normalizeInput e = Normal r) elems rs).
Proof.
  intros Hi. split; [|split].
  - by destruct raw.
  - destruct (getProp_total i "id" Hi) as [v_id Hid].
    destruct (getProp_total i "name" Hi) as [v_name Hname].
    destruct (getProp_total i "localizedName" Hi) as [v_loc Hloc].
    destruct (getProp_total i "type" Hi) as [v_type Htype].
    eexists. split; [by apply normalizeInput_fields|]. simpl.
    rewrite /absent /holds Hid Hname Hloc Htype.
    repeat split.
    + intros (v & [= <-] & Hv). by rewrite coalesce_absent.
    + intros (v & [= <-] & Hv). by rewrite coalesce_absent.
    + intros (v & [= <-] & Hv). by rewrite (coalesce_absent v_loc).
    + intros v [[= <-] Hv]. by rewrite coalesce_present.
    + intros v [[= <-] Hv]. by rewrite coalesce_present.
    + intros v [[= <-] Hv]. by rewrite coalesce_present.
    + by intros v [= <-].
    + by intros [= ->].
  - intros elems Hall. rewrite /normalizeInputs. apply mapM_Forall2.
    eapply Forall_impl; [done|]. intros e He. simpl.
    destruct (getProp_total e "id" He) as [v_id Hid].
    destruct (getProp_total e "name" He) as [v_name Hname].
    destruct (getProp_total e "localizedName" He) as [v_loc Hloc].
    destruct (getProp_total e "type" He) as [v_type Htype].
    eexists. by apply normalizeInput_fields.
Qed.

Lemma normalization_defaults_witness :
  let i := JObj {[ "name" := JStr "Length" ]} in
  Js.isNullish i = false
  ∧ normalizeInputs JUndefined = Normal []
  ∧ ∃ r, normalizeInput i = Normal r
         ∧ name r = "Length" ∧ localizedName r = name r
         ∧ type r = EmptyString ∧ id r = "undefined".
Proof.
  split; [done|].
  destruct (normalization_defaults JUndefined (JObj {[ "name" := JStr "Length" ]}) eq_refl)
    as (Hraw & (r & Hr & _ & Htype & Hloc & Hname & _ & _ & _ & Hid) & _).
  split; [by apply Hraw|].
  exists r. split; [done|]. split; [|split; [|split]].
  - by apply (Hname (JStr "Length")).
  - apply Hloc. by exists JUndefined.
  - apply Htype. by exists JUndefined.
  - by apply Hid.
Defined.

(** C4 as stated fails on an element without [id]: the widget answers
    [[{ name: "Length" }]] and the cached input has the id ["undefined"],
    not the empty string. *)
Lemma missing_id_is_not_defaulted :
  let i := JObj {[ "name" := JStr "Length" ]} in
  Js.getProp i "id" = Some JUndefined
  ∧ normalizeInput i
      = Normal {| id := "undefined"; name := "Length"; localizedName := "Length";
                  type := EmptyString |}
  ∧ (getStudySchema (Sample.window Sample.namelessIdWidget) "RSI" emptyStore).1
      = Normal {| schema_name := "RSI";
                  inputs := [{| id := "undefined"; name := "Length";
                                localizedName := "Length"; type := EmptyString |}] |}.
Proof. by vm_compute. Qed.

(** An element that is [null] is not normalized at all: the read of its
    [id] throws, outside the [try], and nothing is cached. *)
Lemma null_element_throws :
  let win := Sample.window {| w_getStudyInputs := Some (λ _, Normal (JArr [JNull]));
                              w_activeChart := None |} in
  (getStudySchema win "RSI" emptyStore).1
    = Throw (ThrownError "Cannot read properties of null (reading 'id')")
  ∧ cache (getStudySchema win "RSI" emptyStore).2 = JsMap.empty.
Proof. by vm_compute. Qed.

(** ** [searchCachedInputs] *)

Section Search.
Implicit Types (q : string) (hits : list Hit) (schema : StudySchema).

Lemma fold_pushHit studyName (l : list StudyInputInformation) hits :
  fold_left (pushHit studyName) l hits
    = hits ++ ((λ i, {| study := studyName; input := i |}) <$> l).
Proof.
  revert hits. induction l as [|i l IH]; intros hits; simpl.
  - by rewrite app_nil_r.
  - by rewrite IH /pushHit -assoc.
Qed.

Lemma fold_pushHit_matching q studyName (l : list StudyInputInformation) hits :
  fold_left (λ hits i, if inputMatches q i then pushHit studyName hits i else hits) l hits
    = hits ++ ((λ i, {| study := studyName; input := i |}) <$>
                 filter (λ i, inputMatches q i = true) l).
Proof.
  revert hits. induction l as [|i l IH]; intros hits; simpl.
  - by rewrite app_nil_r.
  - rewrite IH. destruct (inputMatches q i) eqn:E.
    + rewrite filter_cons_True; [done|]. by rewrite /pushHit -assoc.
    + rewrite filter_cons_False; [by rewrite E|]. done.
Qed.

Lemma searchEntry_app q hits (entry : string * CacheEntry) :
  searchEntry q hits entry
    = hits ++ match entry.2 with
              | EntryOk schema => matching q schema
              | EntryErr _ => []
              end.
Proof.
  rewrite /searchEntry /matching. destruct entry.2 as [schema|error].
  - destruct (JsString.includes _ q).
    + apply fold_pushHit.
    + apply fold_pushHit_matching.
  - by rewrite app_nil_r.
Qed.

Lemma search_fold q (es : list (string * CacheEntry)) hits :
  fold_left (searchEntry q) es hits
    = hits ++ (omap (λ entry, match entry.2 with
                              | EntryOk schema => Some schema
                              | EntryErr _ => None
                              end) es ≫= matching q).
Proof.
  revert hits. induction es as [|e es IH]; intros hits; simpl.
  - by rewrite app_nil_r.
  - rewrite IH searchEntry_app. destruct e.2 as [schema|error]; simpl.
    + by rewrite -assoc.
    + by rewrite app_nil_r.
Qed.

Lemma searchCachedInputs_matching query st :
  searchCachedInputs query st
    = successful st ≫= matching (JsString.toLowerCase (JsString.trim query)).
Proof. rewrite /searchCachedInputs /successful. by rewrite search_fold. Qed.

Lemma matching_empty schema : matching EmptyString schema = allHits schema.
Proof. by rewrite /matching includes_empty. Qed.

Lemma includes_occurs needle hay :
  JsString.includes (JsString.toLowerCase hay)
    (JsString.toLowerCase (JsString.trim needle)) = true
  ↔ occursIgnoringCase (JsString.trim needle) hay.
Proof. apply includes_spec. Qed.

Lemma elem_of_matching query schema (h : Hit) :
  h ∈ matching (JsString.toLowerCase (JsString.trim query)) schema ↔
    study h = schema_name schema ∧ input h ∈ inputs schema
    ∧ (occursIgnoringCase (JsString.trim query) (schema_name schema)
       ∨ occursIgnoringCase (JsString.trim query) (name (input h))
       ∨ occursIgnoringCase (JsString.trim query) (localizedName (input h))
       ∨ occursIgnoringCase (JsString.trim query) (id (input h))).
Proof.
  rewrite /matching list_elem_of_fmap -!includes_occurs.
  set (q := JsString.toLowerCase (JsString.trim query)).
  destruct (JsString.includes (JsString.toLowerCase (schema_name schema)) q) eqn:E.
  - split.
    + intros (i & -> & Hi). simpl. auto.
    + intros (Hs & Hi & _). exists (input h). split; [|done]. destruct h; simpl in *. by subst.
  - split.
    + intros (i & -> & [Hm Hi]%list_elem_of_filter). simpl. split; [done|]. split; [done|].
      rewrite /inputMatches !orb_true_iff in Hm. tauto.
    + intros (Hs & Hi & Hany). exists (input h). split.
      { destruct h; simpl in *. by subst. }
      apply list_elem_of_filter. split; [|done].
      rewrite /inputMatches !orb_true_iff.
      destruct Hany as [Hn|Hrest]; [congruence | tauto].
Qed.

End Search.

(** C6. [searchCachedInputs] scans the entries cached as successes, in the
    order of the cache, and skips the cached errors. With the empty query
    it returns every input of every such study. In general a hit is an
    input of a cached schema such that the trimmed query occurs, when case
    is ignored, in the study name (then every input of the study is a hit)
    or in the name, the localized name or the id of the input. *)
Theorem searchCachedInputs_scan (query : string) (st : Store) :
  searchCachedInputs EmptyString st = successful st ≫= allHits
  ∧ searchCachedInputs query st
      = successful st ≫= matching (JsString.toLowerCase (JsString.trim query))
  ∧ ∀ h : Hit,
      h ∈ searchCachedInputs query st ↔
      ∃ schema,
        schema ∈ successful st
        ∧ study h = schema_name schema
        ∧ input h ∈ inputs schema
        ∧ (occursIgnoringCase (JsString.trim query) (schema_name schema)
           ∨ occursIgnoringCase (JsString.trim query) (name (input h))
           ∨ occursIgnoringCase (JsString.trim query) (localizedName (input h))
           ∨ occursIgnoringCase (JsString.trim query) (id (input h))).
Proof.
  split; [|split].
  - rewrite searchCachedInputs_matching.
    change (JsString.toLowerCase (JsString.trim EmptyString)) with EmptyString.
    induction (successful st) as [|schema l IH]; [done|].
    by rewrite !bind_cons matching_empty IH.
  - apply searchCachedInputs_matching.
  - intros h. rewrite searchCachedInputs_matching list_elem_of_bind.
    split.
    + intros (schema & Hh%elem_of_matching & Hs). exists schema. tauto.
    + intros (schema & Hs & Hrest). exists schema. split; [|done].
      apply elem_of_matching. tauto.
Qed.

(** ** The clear-all operations of the bridge *)

Section ClearAll.
Implicit Types (chart : ChartApi) (b : Bridge).

(** The loop calls [removeEntity] on every entry, in order, whether or not
    an earlier call threw; it writes one line per failure and touches no
    table. *)
Lemma fold_tryRemove chart what (entries : list (string * Handle)) b :
  let b1 := fold_left (tryRemove chart what) entries b in
  removeCalls b1 = removeCalls b ++ entries.*2
  ∧ console b1 = console b ++ removalFailures chart what entries
  ∧ chartRef b1 = chartRef b
  ∧ appliedIndicators b1 = appliedIndicators b
  ∧ appliedPatterns b1 = appliedPatterns b
  ∧ appliedAnnotations b1 = appliedAnnotations b
  ∧ appliedPriceTargets b1 = appliedPriceTargets b.
Proof.
  revert b. induction entries as [|entry entries IH]; intros b; simpl.
  - by rewrite !app_nil_r.
  - destruct (IH (tryRemove chart what b entry)) as (-> & -> & -> & -> & -> & -> & ->).
    rewrite /removalFailures /= -!assoc /=.
    destruct (removeEntity chart entry.2); simpl; by rewrite -?assoc.
Qed.

End ClearAll.

(** C8. With a chart registered, each of the three clear-all operations
    calls [removeEntity] on every entry of its table, in the order of the
    table and whichever of these calls throw; a failure is written to the
    console and not surfaced, the operation returns normally, its table is
    empty afterwards and the other tables are as before. *)
Theorem clearAll_empties_table (chart : ChartApi) (b : Bridge) :
  chartRef b = Some chart →
  ((clearAllIndicators b).1 = Normal ()
   ∧ appliedIndicators (clearAllIndicators b).2 = JsMap.empty
   ∧ removeCalls (clearAllIndicators b).2
       = removeCalls b ++ JsMap.values (appliedIndicators b)
   ∧ console (clearAllIndicators b).2
       = console b ++ removalFailures chart "indicator" (JsMap.entries (appliedIndicators b))
   ∧ appliedPatterns (clearAllIndicators b).2 = appliedPatterns b
   ∧ appliedPriceTargets (clearAllIndicators b).2 = appliedPriceTargets b)
  ∧ ((clearAllPatterns b).1 = Normal ()
     ∧ appliedPatterns (clearAllPatterns b).2 = JsMap.empty
     ∧ removeCalls (clearAllPatterns b).2
         = removeCalls b ++ JsMap.values (appliedPatterns b)
     ∧ console (clearAllPatterns b).2
         = console b ++ removalFailures chart "pattern" (JsMap.entries (appliedPatterns b))
     ∧ appliedIndicators (clearAllPatterns b).2 = appliedIndicators b
     ∧ appliedPriceTargets (clearAllPatterns b).2 = appliedPriceTargets b)
  ∧ ((clearAllPriceTargets b).1 = Normal ()
     ∧ appliedPriceTargets (clearAllPriceTargets b).2 = JsMap.empty
     ∧ removeCalls (clearAllPriceTargets b).2
         = removeCalls b ++ JsMap.values (appliedPriceTargets b)
     ∧ console (clearAllPriceTargets b).2
         = console b
             ++ removalFailures chart "price target" (JsMap.entries (appliedPriceTargets b))
     ∧ appliedIndicators (clearAllPriceTargets b).2 = appliedIndicators b
     ∧ appliedPatterns (clearAllPriceTargets b).2 = appliedPatterns b).
Proof.
  intros Hchart.
  rewrite /clearAllIndicators /clearAllPatterns /clearAllPriceTargets Hchart /=.
  destruct (fold_tryRemove chart "indicator" (JsMap.entries (appliedIndicators b)) b)
    as (-> & -> & _ & _ & -> & _ & ->).
  destruct (fold_tryRemove chart "pattern" (JsMap.entries (appliedPatterns b)) b)
    as (-> & -> & _ & -> & _ & _ & ->).
  destruct (fold_tryRemove chart "price target" (JsMap.entries (appliedPriceTargets b)) b)
    as (-> & -> & _ & -> & -> & _ & _).
  done.
Qed.

Lemma clearAll_empties_table_witness :
  chartRef Sample.bridge = Some Sample.stubbornChart
  ∧ (clearAllIndicators Sample.bridge).1 = Normal ()
  ∧ appliedIndicators (clearAllIndicators Sample.bridge).2 = JsMap.empty
  ∧ removeCalls (clearAllIndicators Sample.bridge).2 = [1; 2; 3]
  ∧ length (console (clearAllIndicators Sample.bridge).2) = 2
  ∧ appliedPatterns (clearAllPatterns Sample.bridge).2 = JsMap.empty
  ∧ appliedPriceTargets (clearAllPriceTargets Sample.bridge).2 = JsMap.empty.
Proof.
  split; [done|].
  destruct (clearAll_empties_table Sample.stubbornChart Sample.bridge eq_refl)
    as ((Hr & Ht & Hcalls & Hconsole & _) & (_ & Hp & _) & (_ & Hq & _)).
  split; [done|]. split; [done|]. split; [by rewrite Hcalls|].
  split; [by rewrite Hconsole|]. done.
Defined.

(** ** [prefetchStudySchemas]: the number of workers *)

Section Workers.
Variable win : Window.
Variable studies : list string.
Variable opts : PrefetchOpts.
Implicit Types (p : Pool) (i : nat) (sched : list nat).

Lemma workerLoop_workers i p : p_workers (workerLoop studies i p).2 = p_workers p.
Proof.
  rewrite /workerLoop. destruct (p_idx p <? length studies); [|done].
  by destruct (getStudySchema_cached _ _).
Qed.

Lemma spawn_workers n p :
  length (p_workers (spawn studies n p)) = length (p_workers p) + n.
Proof.
  revert p. induction n as [|n IH]; intros p; simpl; [lia|].
  pose proof (workerLoop_workers (length (p_workers p)) p) as Hw.
  destruct (workerLoop studies (length (p_workers p)) p) as [w p'].
  rewrite IH /= length_app /=. simpl in Hw. rewrite Hw. lia.
Qed.

Lemma resume_workers i p :
  length (p_workers (resume win studies opts i p)) = length (p_workers p).
Proof.
  rewrite /resume. destruct (p_workers p !! i) as [[current|current answer| |e]|]; [| |done..].
  - destruct (getStudySchema_fetch win current (p_store p)) as [answer st].
    by rewrite /= length_insert.
  - destruct (callOnProgress studies opts current _) as [[]|e].
    + pose proof (workerLoop_workers i (recordOutcome current answer p)) as Hw.
      destruct (workerLoop studies i _) as [w p2]. simpl in *.
      by rewrite length_insert Hw.
    + by rewrite /= length_insert.
Qed.

Lemma run_workers sched p :
  length (p_workers (run win studies opts sched p)) = length (p_workers p).
Proof.
  revert p. induction sched as [|i sched IH]; intros p; simpl; [done|].
  by rewrite IH resume_workers.
Qed.

Lemma start_workers st :
  length (p_workers (start studies opts st)) = workerCount opts (length studies).
Proof. by rewrite /start spawn_workers. Qed.

End Workers.


(** ** [prefetchStudySchemas]: the worker pool *)

Section PoolFacts.
Variable win : Window.
Variable studies : list string.
Variable opts : PrefetchOpts.
Implicit Types (p : Pool) (i : nat) (w : Worker) (ws : list Worker) (sched : list nat).

Lemma workerLoop_head i p :
  LoopHead studies i p (workerLoop studies i p).1 (workerLoop studies i p).2.
Proof.
  rewrite /workerLoop. destruct (p_idx p <? length studies) eqn:E.
  - apply Nat.ltb_lt in E.
    destruct (lookup_lt_is_Some_2 studies (p_idx p) E) as [current Hcurrent].
    rewrite Hcurrent /=.
    destruct (getStudySchema_cached current (p_store p)); simpl; by eapply head_takes.
  - apply Nat.ltb_ge in E. by apply head_leaves.
Qed.

Lemma insert_split ws i w0 :
  ws !! i = Some w0 →
  ∃ l1 l2, ws = l1 ++ w0 :: l2 ∧ ∀ w, <[i := w]> ws = l1 ++ w :: l2.
Proof.
  intros Hi. exists (take i ws), (drop (S i) ws). split.
  - by rewrite take_drop_middle.
  - intros w. apply insert_take_drop. by eapply lookup_lt_Some.
Qed.

Lemma inFlight_app ws1 ws2 : inFlight (ws1 ++ ws2) = inFlight ws1 ++ inFlight ws2.
Proof. apply bind_app. Qed.

Lemma inFlight_cons w ws : inFlight (w :: ws) = inFlight [w] ++ inFlight ws.
Proof. by rewrite /inFlight !bind_cons /= app_nil_r. Qed.

Lemma suspended_not_returned w : isSuspended w = true → isReturned w = false.
Proof. by destruct w. Qed.

(** *** The invariant *)

Lemma inv_initial st :
  PoolInv studies
    {| p_store := st; p_idx := 0; p_done := 0; p_success := []; p_failed := [];
       p_workers := []; p_rejection := None; p_claims := [] |}.
Proof. by constructor; simpl; try lia; try constructor. Qed.

(** A worker that has just been called joins the pool. *)
Lemma inv_join p w p' :
  PoolInv studies p →
  LoopHead studies (length (p_workers p)) p w p' →
  PoolInv studies
    {| p_store := p_store p'; p_idx := p_idx p'; p_done := p_done p';
       p_success := p_success p'; p_failed := p_failed p';
       p_workers := p_workers p' ++ [w]; p_rejection := p_rejection p';
       p_claims := p_claims p' |}.
Proof.
  intros [Hidx Hdone Hnames Hclaims Hclaimants Hret [Hrej Hall]] Hhead.
  destruct Hhead as [current w Hcurrent Hsusp Hflight | Hend]; constructor; simpl.
  - by apply lookup_lt_Some in Hcurrent.
  - done.
  - rewrite (take_S_r _ _ current) // -Hnames inFlight_app Hflight. by rewrite -!assoc.
  - rewrite fmap_app Hclaims. symmetry. apply (seq_S (p_idx p) 0).
  - rewrite length_app /=. apply Forall_app. split.
    + eapply Forall_impl; [exact Hclaimants|]. simpl. lia.
    + apply Forall_singleton. simpl. lia.
  - apply Forall_app. split.
    + eapply Forall_impl; [exact Hret|]. simpl. intros w' Hw' Hr. specialize (Hw' Hr). lia.
    + apply Forall_singleton. by rewrite suspended_not_returned.
  - split; [done|]. apply Forall_app. split; [done|].
    apply Forall_singleton. by rewrite Hsusp.
  - done.
  - done.
  - by rewrite inFlight_app /= app_nil_r.
  - done.
  - rewrite length_app /=. eapply Forall_impl; [exact Hclaimants|]. simpl. lia.
  - apply Forall_app. split; [done|]. by apply Forall_singleton.
  - split; [done|]. apply Forall_app. split; [done|]. by apply Forall_singleton.
Qed.

Lemma inv_spawn n p : PoolInv studies p → PoolInv studies (spawn studies n p).
Proof.
  revert p. induction n as [|n IH]; intros p Hinv; simpl; [done|].
  pose proof (workerLoop_head (length (p_workers p)) p) as Hhead.
  destruct (workerLoop studies (length (p_workers p)) p) as [w p'].
  apply IH. by apply (inv_join p).
Qed.

Lemma inv_start st : PoolInv studies (start studies opts st).
Proof. apply inv_spawn, inv_initial. Qed.

(** A suspended worker that is resumed at [await ready] keeps its name. *)
Lemma inv_fetched i p current answer st :
  PoolInv studies p →
  p_workers p !! i = Some (AwaitingReady current) →
  PoolInv studies
    (setWorker i (AwaitingSchema current answer)
       {| p_store := st; p_idx := p_idx p; p_done := p_done p;
          p_success := p_success p; p_failed := p_failed p;
          p_workers := p_workers p; p_rejection := p_rejection p;
          p_claims := p_claims p |}).
Proof.
  intros [Hidx Hdone Hnames Hclaims Hclaimants Hret [Hrej Hall]] Hi.
  destruct (insert_split _ _ _ Hi) as (l1 & l2 & Hws & Hins).
  constructor; simpl; try done.
  - rewrite Hins -Hnames Hws !inFlight_app !(inFlight_cons _ l2). done.
  - by rewrite length_insert.
  - by apply Forall_insert.
  - split; [done|]. by apply Forall_insert.
Qed.

(** A worker whose item has settled records it and goes round its loop. *)
Lemma inv_recorded i p current answer w p' :
  PoolInv studies p →
  p_workers p !! i = Some (AwaitingSchema current answer) →
  LoopHead studies i (recordOutcome current answer p) w p' →
  PoolInv studies (setWorker i w p').
Proof.
  intros [Hidx Hdone Hnames Hclaims Hclaimants Hret [Hrej Hall]] Hi Hhead.
  destruct (insert_split _ _ _ Hi) as (l1 & l2 & Hws & Hins).
  assert (i < length (p_workers p)) as Hlt by by eapply lookup_lt_Some.
  rewrite Hws !inFlight_app (inFlight_cons _ l2) /= in Hnames.
  assert (p_success (recordOutcome current answer p)
            ++ (failure_name <$> p_failed (recordOutcome current answer p))
          ≡ₚ current :: p_success p ++ (failure_name <$> p_failed p)) as Hrec.
  { destruct answer; simpl; rewrite ?fmap_app /=; solve_Permutation. }
  assert (length (p_success (recordOutcome current answer p))
          + length (p_failed (recordOutcome current answer p)) = S (p_done p)) as Hcount.
  { destruct answer; simpl; rewrite length_app /=; lia. }
  destruct Hhead as [next w Hnext Hsusp Hflight | Hend]; constructor; simpl.
  - by apply lookup_lt_Some in Hnext.
  - done.
  - rewrite (take_S_r _ _ next) // -Hnames Hins inFlight_app (inFlight_cons _ l2) Hflight.
    rewrite assoc Hrec. solve_Permutation.
  - rewrite fmap_app Hclaims. symmetry. apply (seq_S (p_idx p) 0).
  - rewrite length_insert. apply Forall_app. split; [done|]. by apply Forall_singleton.
  - apply Forall_insert.
    + eapply Forall_impl; [exact Hret|]. simpl. intros w' Hw' Hr. specialize (Hw' Hr). lia.
    + by rewrite suspended_not_returned.
  - split; [done|]. apply Forall_insert; [done|]. by rewrite Hsusp.
  - done.
  - done.
  - rewrite -Hnames Hins inFlight_app (inFlight_cons _ l2) /=.
    rewrite assoc Hrec. solve_Permutation.
  - done.
  - by rewrite length_insert.
  - by apply Forall_insert.
  - split; [done|]. by apply Forall_insert.
Qed.

Lemma callOnProgress_quiet current p :
  quiet opts → callOnProgress studies opts current p = Normal ().
Proof. rewrite /quiet /callOnProgress. by destruct (onProgress opts). Qed.

Lemma inv_resume i p :
  quiet opts → PoolInv studies p → PoolInv studies (resume win studies opts i p).
Proof.
  intros Hquiet Hinv. rewrite /resume.
  destruct (p_workers p !! i) as [[current|current answer| |e]|] eqn:Hi; [| |done..].
  - destruct (getStudySchema_fetch win current (p_store p)) as [answer st].
    by apply inv_fetched.
  - rewrite callOnProgress_quiet //.
    pose proof (workerLoop_head i (recordOutcome current answer p)) as Hhead.
    destruct (workerLoop studies i (recordOutcome current answer p)) as [w p2].
    by eapply inv_recorded.
Qed.

Lemma inv_run sched p :
  quiet opts → PoolInv studies p → PoolInv studies (run win studies opts sched p).
Proof.
  intros Hquiet. revert p. induction sched as [|i sched IH]; intros p Hinv; simpl; [done|].
  by apply IH, inv_resume.
Qed.

End PoolFacts.

Section PoolProgress.
Variable win : Window.
Variable studies : list string.
Variable opts : PrefetchOpts.
Implicit Types (p : Pool) (i : nat) (w : Worker) (ws : list Worker) (sched : list nat).

Lemma weight_le w : weight w ≤ 2.
Proof. destruct w; simpl; lia. Qed.

(** *** Every turn given to a suspended worker uses up potential *)

Lemma potential_join i p w p' :
  LoopHead studies i p w p' →
  potential studies
    {| p_store := p_store p'; p_idx := p_idx p'; p_done := p_done p';
       p_success := p_success p'; p_failed := p_failed p';
       p_workers := p_workers p' ++ [w]; p_rejection := p_rejection p';
       p_claims := p_claims p' |}
  ≤ potential studies p.
Proof.
  intros [current w' Hcurrent Hsusp Hflight | Hend];
    rewrite /potential /= sum_list_with_app /=.
  - apply lookup_lt_Some in Hcurrent. pose proof (weight_le w'). lia.
  - lia.
Qed.

Lemma potential_spawn n p : potential studies (spawn studies n p) ≤ potential studies p.
Proof.
  revert p. induction n as [|n IH]; intros p; simpl; [done|].
  pose proof (workerLoop_head studies (length (p_workers p)) p) as Hhead.
  destruct (workerLoop studies (length (p_workers p)) p) as [w p'].
  etrans; [apply IH|]. by eapply potential_join.
Qed.

Lemma potential_start st : potential studies (start studies opts st) ≤ 2 * length studies.
Proof.
  rewrite /start. etrans; [apply potential_spawn|]. rewrite /potential /=. lia.
Qed.

Lemma potential_resume i p w :
  p_workers p !! i = Some w →
  isSuspended w = true →
  potential studies (resume win studies opts i p) < potential studies p.
Proof.
  intros Hi Hsusp. rewrite /resume Hi.
  destruct (insert_split _ _ _ Hi) as (l1 & l2 & Hws & Hins).
  destruct w as [current|current answer| |e]; [| |done..].
  - destruct (getStudySchema_fetch win current (p_store p)) as [answer st].
    rewrite /potential /= Hins Hws !sum_list_with_app /=. lia.
  - destruct (callOnProgress studies opts current _) as [[]|e].
    + pose proof (workerLoop_head studies i (recordOutcome current answer p)) as Hhead.
      destruct (workerLoop studies i (recordOutcome current answer p)) as [w p2].
      simpl in Hhead.
      destruct Hhead as [next w Hnext Hs Hflight | Hend];
        rewrite /potential /= Hins Hws !sum_list_with_app /=.
      * apply lookup_lt_Some in Hnext. simpl in Hnext. pose proof (weight_le w). lia.
      * lia.
    + rewrite /potential /= Hins Hws !sum_list_with_app /=. lia.
Qed.

(** No schedule resumes suspended workers more than [potential] times. *)
Lemma productive_bound sched p :
  productive win studies opts sched p →
  length sched + potential studies (run win studies opts sched p) ≤ potential studies p.
Proof.
  revert p. induction sched as [|i sched IH]; intros p; simpl; [lia|].
  intros [(w & Hi & Hsusp) Hrest].
  specialize (IH _ Hrest). pose proof (potential_resume i p w Hi Hsusp). lia.
Qed.

(** *** The schedule [drain] *)

Lemma firstSuspended_Some ws i :
  firstSuspended ws = Some i → ∃ w, ws !! i = Some w ∧ isSuspended w = true.
Proof.
  revert i. induction ws as [|w ws IH]; intros i; simpl; [done|].
  destruct (isSuspended w) eqn:E.
  - intros [= <-]. by exists w.
  - destruct (firstSuspended ws) as [j|]; simpl; [|done].
    intros [= <-]. by apply IH.
Qed.

Lemma firstSuspended_None ws :
  firstSuspended ws = None ↔ Forall (λ w, isSuspended w = false) ws.
Proof.
  induction ws as [|w ws IH]; simpl; [by split; [constructor|]|].
  rewrite Forall_cons -IH. destruct (isSuspended w); [by split; [|intros []]|].
  destruct (firstSuspended ws); simpl; by split; [|intros []].
Qed.

Lemma drain_productive fuel p :
  productive win studies opts (drain win studies opts fuel p) p.
Proof.
  revert p. induction fuel as [|fuel IH]; intros p; simpl; [done|].
  destruct (firstSuspended (p_workers p)) as [i|] eqn:E; simpl; [|done].
  split; [by apply firstSuspended_Some | apply IH].
Qed.

Lemma drain_settles fuel p :
  potential studies p ≤ fuel →
  firstSuspended (p_workers (run win studies opts (drain win studies opts fuel p) p)) = None.
Proof.
  revert p. induction fuel as [|fuel IH]; intros p Hfuel; simpl.
  - destruct (firstSuspended (p_workers p)) as [i|] eqn:E; [|done].
    destruct (firstSuspended_Some _ _ E) as (w & Hi & Hsusp).
    pose proof (potential_resume i p w Hi Hsusp). lia.
  - destruct (firstSuspended (p_workers p)) as [i|] eqn:E; simpl; [|done].
    destruct (firstSuspended_Some _ _ E) as (w & Hi & Hsusp).
    pose proof (potential_resume i p w Hi Hsusp). apply IH. lia.
Qed.

(** *** How the call ends *)

Lemma inFlight_settled ws : Forall (λ w, isSuspended w = false) ws → inFlight ws = [].
Proof.
  induction 1 as [|w ws Hw _ IH]; [done|].
  rewrite inFlight_cons IH app_nil_r. by destruct w.
Qed.

Lemma forallb_isReturned ws :
  forallb isReturned ws = true ↔ Forall (λ w, isReturned w = true) ws.
Proof.
  induction ws as [|w ws IH]; simpl; [by split; [constructor|]|].
  by rewrite andb_true_iff Forall_cons IH.
Qed.

Lemma workerCount_pos : 0 < length studies → 0 < workerCount opts (length studies).
Proof. rewrite /workerCount. lia. Qed.

(** Under the invariant the call never ends by a throw, and when every
    worker has returned all the names have been taken and recorded. *)
Lemma outcome_returned p r :
  PoolInv studies p →
  length (p_workers p) = workerCount opts (length studies) →
  outcome studies p = Some r →
  r = Normal {| total := length studies; success := p_success p; failed := p_failed p |}
  ∧ length (p_success p) + length (p_failed p) = length studies
  ∧ p_success p ++ (failure_name <$> p_failed p) ≡ₚ studies
  ∧ (p_claims p).*2 = seq 0 (length studies)
  ∧ p_done p = length studies.
Proof.
  intros [Hidx Hdone Hnames Hclaims Hclaimants Hret [Hrej Hall]] Hcount.
  rewrite /outcome Hrej.
  destruct (forallb isReturned (p_workers p)) eqn:E; [|done].
  intros [= <-]. apply forallb_isReturned in E.
  assert (p_idx p = length studies) as Hend.
  { destruct (p_workers p) as [|w ws] eqn:Hws.
    - simpl in Hcount. pose proof workerCount_pos. lia.
    - apply Forall_cons in E as [Hw _]. apply Forall_cons in Hret as [Hr _].
      specialize (Hr Hw). lia. }
  rewrite inFlight_settled in Hnames.
  { eapply Forall_impl; [exact E|]. simpl. by intros [] . }
  rewrite app_nil_r Hend take_ge // in Hnames.
  rewrite Hend in Hclaims.
  split; [done|]. split; [|split; [done|split; [done|]]].
  - apply Permutation_length in Hnames.
    by rewrite length_app length_fmap in Hnames.
  - apply Permutation_length in Hnames.
    rewrite length_app length_fmap in Hnames. lia.
Qed.

(** A pool with no suspended worker has ended. *)
Lemma outcome_settled p :
  PoolInv studies p →
  firstSuspended (p_workers p) = None →
  outcome studies p
    = Some (Normal {| total := length studies; success := p_success p; failed := p_failed p |}).
Proof.
  intros [_ _ _ _ _ _ [Hrej Hall]] Hnone. rewrite /outcome Hrej.
  apply firstSuspended_None in Hnone.
  assert (forallb isReturned (p_workers p) = true) as ->; [|done].
  apply forallb_isReturned. apply Forall_forall. intros w Hw.
  rewrite !Forall_forall in Hall Hnone.
  specialize (Hall w Hw). specialize (Hnone w Hw). by rewrite Hnone in Hall.
Qed.

(** A pool that has not ended has a suspended worker to resume. *)
Lemma pending_suspended p :
  PoolInv studies p →
  outcome studies p = None →
  ∃ i w, p_workers p !! i = Some w ∧ isSuspended w = true.
Proof.
  intros Hinv Hpending.
  destruct (firstSuspended (p_workers p)) as [i|] eqn:E.
  - exists i. by apply firstSuspended_Some.
  - by rewrite outcome_settled in Hpending.
Qed.

(** The call, for options whose callback does not throw. *)
Lemma prefetch_total st :
  quiet opts →
  (∀ sched r st',
     prefetchStudySchemas win studies opts sched st = Some (r, st') →
     ∃ summary,
       r = Normal summary
       ∧ total summary = length studies
       ∧ length (success summary) + length (failed summary) = length studies
       ∧ success summary ++ (failure_name <$> failed summary) ≡ₚ studies
       ∧ (p_claims (run win studies opts sched (start studies opts st))).*2
           = seq 0 (length studies)
       ∧ Forall (λ claim, claim.1 < workerCount opts (length studies))
           (p_claims (run win studies opts sched (start studies opts st))))
  ∧ (∀ sched,
       prefetchStudySchemas win studies opts sched st = None →
       ∃ i w, p_workers (run win studies opts sched (start studies opts st)) !! i = Some w
              ∧ isSuspended w = true)
  ∧ (∀ sched,
       productive win studies opts sched (start studies opts st) →
       length sched ≤ 2 * length studies)
  ∧ (productive win studies opts
       (drain win studies opts (2 * length studies) (start studies opts st))
       (start studies opts st)
     ∧ ∃ summary st',
         prefetchStudySchemas win studies opts
           (drain win studies opts (2 * length studies) (start studies opts st)) st
         = Some (Normal summary, st')).
Proof.
  intros Hquiet.
  assert (∀ sched, PoolInv studies (run win studies opts sched (start studies opts st)))
    as Hinv by (intros sched; by apply inv_run, inv_start).
  assert (∀ sched, length (p_workers (run win studies opts sched (start studies opts st)))
                   = workerCount opts (length studies)) as Hcount.
  { intros sched. by rewrite run_workers start_workers. }
  split; [|split; [|split]].
  - intros sched r st'. rewrite /prefetchStudySchemas.
    destruct (outcome studies _) as [r0|] eqn:E; [|done]. intros [= <- <-].
    destruct (outcome_returned _ _ (Hinv sched) (Hcount sched) E) as (-> & Hn & Hperm & Hcl & _).
    eexists. split; [done|]. simpl. split; [done|]. split; [done|]. split; [done|].
    split; [done|]. rewrite -(Hcount sched). apply (inv_claimants _ _ (Hinv sched)).
  - intros sched. rewrite /prefetchStudySchemas.
    destruct (outcome studies _) as [r0|] eqn:E; [done|]. intros _.
    by apply pending_suspended.
  - intros sched Hprod. apply productive_bound in Hprod.
    pose proof (potential_start st). lia.
  - split; [apply drain_productive|]. rewrite /prefetchStudySchemas.
    rewrite outcome_settled; [apply Hinv | apply drain_settles, potential_start |].
    by eexists _, _.
Qed.

End PoolProgress.



(** ** Further properties of the cache and of the prefetch *)

Lemma fetch_wf win S st :
  JsMap.wf (cache st) → JsMap.wf (cache (getStudySchema_fetch win S st).2).
Proof.
  intros Hwf. rewrite /getStudySchema_fetch.
  destruct (getWidget win) as [w|]; simpl; [|by apply JsMapFacts.wf_set].
  destruct (queryInputs w S) as [[raw|e] evs]; simpl; [|by apply JsMapFacts.wf_set].
  destruct (normalizeInputs raw); simpl; [by apply JsMapFacts.wf_set | done].
Qed.

Lemma perform_wf c st : JsMap.wf (cache st) → JsMap.wf (cache (perform st c)).
Proof.
  intros Hwf. destruct c as [win S|[[|a S]|]]; simpl.
  - rewrite /getStudySchema. destruct (getStudySchema_cached S st); [done|].
    by apply fetch_wf.
  - apply NoDup_nil_2.
  - by apply JsMapFacts.wf_delete.
  - apply NoDup_nil_2.
Qed.


(** X2. In a sequence of calls, an entry of the cache stays as it was written
    until its key is cleared: no fetch replaces it. *)
Theorem cache_entry_stable (calls : list Call) (st : Store) (k : string) (entry : CacheEntry) :
  forallb (keepsKey k) calls = true →
  JsMap.get k (cache st) = Some entry →
  JsMap.get k (cache (performAll calls st)) = Some entry.
Proof. apply performAll_keeps_entry. Qed.

Lemma cache_entry_stable_witness :
  let st := (getStudySchema Sample.noWindow "RSI" emptyStore).2 in
  let calls := [CallGetStudySchema (Sample.window Sample.studyWidget) " rsi";
                CallClearStudyCache (Some "MACD");
                CallGetStudySchema (Sample.window Sample.studyWidget) "MACD"] in
  forallb (keepsKey "rsi") calls = true
  ∧ JsMap.get "rsi" (cache st) = Some (EntryErr widgetNotAvailable)
  ∧ JsMap.get "rsi" (cache (performAll calls st)) = Some (EntryErr widgetNotAvailable).
Proof.
  cbv zeta. split; [done|]. split; [done|].
  by apply cache_entry_stable.
Defined.

(** ** [keyOf]: the normal form of a study name *)

Section KeyFacts.
Implicit Types (s t pad : string) (c : Ascii.ascii).

Lemma lowerChar_idem c : JsString.lowerChar (JsString.lowerChar c) = JsString.lowerChar c.
Proof. destruct c as [[] [] [] [] [] [] [] []]; reflexivity. Qed.

Lemma isWhiteSpace_lowerChar c :
  JsString.isWhiteSpace (JsString.lowerChar c) = JsString.isWhiteSpace c.
Proof. destruct c as [[] [] [] [] [] [] [] []]; reflexivity. Qed.

Lemma toLowerCase_idem s :
  JsString.toLowerCase (JsString.toLowerCase s) = JsString.toLowerCase s.
Proof. induction s as [|c s IH]; simpl; [done|]. by rewrite lowerChar_idem IH. Qed.

Lemma toLowerCase_app s t :
  JsString.toLowerCase (s +:+ t) = JsString.toLowerCase s +:+ JsString.toLowerCase t.
Proof. induction s as [|c s IH]; simpl; [done|]. by rewrite IH. Qed.

Lemma trimStart_lower s :
  JsString.trimStart (JsString.toLowerCase s) = JsString.toLowerCase (JsString.trimStart s).
Proof.
  induction s as [|c s IH]; simpl; [done|].
  rewrite isWhiteSpace_lowerChar. by destruct (JsString.isWhiteSpace c).
Qed.

Lemma trimEnd_lower s :
  JsString.trimEnd (JsString.toLowerCase s) = JsString.toLowerCase (JsString.trimEnd s).
Proof.
  induction s as [|c s IH]; simpl; [done|].
  rewrite IH isWhiteSpace_lowerChar.
  destruct (JsString.trimEnd s); simpl; [|done].
  by destruct (JsString.isWhiteSpace c).
Qed.

Lemma trim_lower s :
  JsString.trim (JsString.toLowerCase s) = JsString.toLowerCase (JsString.trim s).
Proof. by rewrite /JsString.trim trimStart_lower trimEnd_lower. Qed.

Lemma noLead_trimStart s : noLead (JsString.trimStart s).
Proof.
  induction s as [|c s IH]; simpl; [done|].
  by destruct (JsString.isWhiteSpace c) eqn:E.
Qed.

Lemma trimStart_noLead s : noLead s → JsString.trimStart s = s.
Proof. destruct s as [|c s]; simpl; [done|]. by intros ->. Qed.

Lemma noLead_trimEnd s : noLead s → noLead (JsString.trimEnd s).
Proof.
  destruct s as [|c s]; simpl; [done|]. intros Hc.
  destruct (JsString.trimEnd s); simpl; [by rewrite Hc|done].
Qed.

Lemma trimEnd_cons c s :
  JsString.trimEnd (String c s) =
    match JsString.trimEnd s with
    | EmptyString => if JsString.isWhiteSpace c then EmptyString else String c EmptyString
    | r => String c r
    end.
Proof. done. Qed.

Lemma trimEnd_idem s : JsString.trimEnd (JsString.trimEnd s) = JsString.trimEnd s.
Proof.
  induction s as [|c s IH]; simpl; [done|].
  destruct (JsString.trimEnd s) as [|d r] eqn:E.
  - destruct (JsString.isWhiteSpace c) eqn:Hc; simpl; [done|]. by rewrite Hc.
  - by rewrite trimEnd_cons IH.
Qed.

Lemma trim_idem s : JsString.trim (JsString.trim s) = JsString.trim s.
Proof.
  rewrite /JsString.trim.
  rewrite (trimStart_noLead (JsString.trimEnd _)).
  { apply noLead_trimEnd, noLead_trimStart. }
  apply trimEnd_idem.
Qed.

Lemma trimStart_blank_app pad s :
  blank pad → JsString.trimStart (pad +:+ s) = JsString.trimStart s.
Proof.
  rewrite /blank. induction pad as [|c pad IH]; simpl; [done|].
  by destruct (JsString.isWhiteSpace c).
Qed.

Lemma trimEnd_blank pad : blank pad → JsString.trimEnd pad = EmptyString.
Proof.
  rewrite /blank. induction pad as [|c pad IH]; simpl; [done|].
  destruct (JsString.isWhiteSpace c) eqn:Hc; [|done].
  intros Hpad. by rewrite IH.
Qed.

Lemma trimEnd_app_blank s pad :
  blank pad → JsString.trimEnd (s +:+ pad) = JsString.trimEnd s.
Proof.
  intros Hpad. induction s as [|c s IH]; simpl.
  - by apply trimEnd_blank.
  - by rewrite IH.
Qed.

Lemma trimStart_app s t :
  JsString.trimStart s ≠ EmptyString →
  JsString.trimStart (s +:+ t) = JsString.trimStart s +:+ t.
Proof.
  induction s as [|c s IH]; simpl; [done|].
  by destruct (JsString.isWhiteSpace c).
Qed.

Lemma trim_padded pad s pad' :
  blank pad → blank pad' → JsString.trim (pad +:+ s +:+ pad') = JsString.trim s.
Proof.
  intros Hpad Hpad'. rewrite /JsString.trim trimStart_blank_app //.
  destruct (JsString.trimStart s) as [|c r] eqn:E.
  - rewrite trimStart_blank_app //. by rewrite Hpad' /=.
  - rewrite trimStart_app; [by rewrite E|]. by rewrite E trimEnd_app_blank.
Qed.

(** The trimmed string sits inside the string. *)
Lemma trimStart_suffix s : ∃ pad, s = pad +:+ JsString.trimStart s.
Proof.
  induction s as [|c s [pad IH]]; simpl; [by exists EmptyString|].
  destruct (JsString.isWhiteSpace c).
  - exists (String c pad). exact (f_equal (String c) IH).
  - by exists EmptyString.
Qed.

Lemma trimEnd_prefix s : ∃ pad, s = JsString.trimEnd s +:+ pad.
Proof.
  induction s as [|c s [pad IH]]; simpl; [by exists EmptyString|].
  destruct (JsString.trimEnd s) as [|d r] eqn:E.
  - destruct (JsString.isWhiteSpace c).
    + exists (String c s). done.
    + exists s. done.
  - exists pad. exact (f_equal (String c) IH).
Qed.

Lemma trim_inside s : ∃ before after, s = before +:+ JsString.trim s +:+ after.
Proof.
  destruct (trimStart_suffix s) as [before Hs].
  destruct (trimEnd_prefix (JsString.trimStart s)) as [after Ht].
  exists before, after. rewrite /JsString.trim. by rewrite -Ht.
Qed.

Lemma keyOf_idem s : keyOf (keyOf s) = keyOf s.
Proof. by rewrite /keyOf trim_lower toLowerCase_idem trim_idem. Qed.

(** The key of a name occurs in the name once its case is folded. *)
Lemma keyOf_inside s :
  JsString.includes (JsString.toLowerCase s) (keyOf s) = true.
Proof.
  apply includes_spec. destruct (trim_inside s) as (before & after & Hs).
  exists (JsString.toLowerCase before), (JsString.toLowerCase after).
  rewrite /keyOf -!toLowerCase_app. by rewrite -Hs.
Qed.

End KeyFacts.

(** X7. The key of a study name is a normal form: taking the key again, folding
    the case, trimming, or padding the name with white space leaves the key
    as it is; so any of these variants of a name addresses the same cache
    entry. *)
Theorem keyOf_normal_form (s pad pad' : string) (st : Store) :
  blank pad →
  blank pad' →
  keyOf (keyOf s) = keyOf s
  ∧ keyOf (JsString.toLowerCase s) = keyOf s
  ∧ keyOf (JsString.trim s) = keyOf s
  ∧ keyOf (pad +:+ s +:+ pad') = keyOf s
  ∧ hasStudy (pad +:+ keyOf s +:+ pad') st = hasStudy s st
  ∧ peekStudySchema (pad +:+ keyOf s +:+ pad') st = peekStudySchema s st.
Proof.
  intros Hpad Hpad'.
  assert (keyOf (pad +:+ keyOf s +:+ pad') = keyOf s) as Hk.
  { by rewrite {1}/keyOf trim_padded // -/(keyOf (keyOf s)) keyOf_idem. }
  split_and!.
  - apply keyOf_idem.
  - by rewrite /keyOf trim_lower toLowerCase_idem.
  - by rewrite /keyOf trim_idem.
  - by rewrite /keyOf trim_padded.
  - by rewrite /hasStudy Hk.
  - by rewrite /peekStudySchema Hk.
Qed.

Lemma keyOf_normal_form_witness :
  let tab := String (Ascii.ascii_of_N 9) EmptyString in
  blank " " ∧ blank tab
  ∧ keyOf (" " +:+ "Moving Average" +:+ tab) = keyOf "Moving Average"
  ∧ keyOf (keyOf "Moving Average") = keyOf "Moving Average".
Proof.
  cbv zeta. split; [done|]. split; [done|].
  destruct (keyOf_normal_form "Moving Average" " " (String (Ascii.ascii_of_N 9) EmptyString)
              emptyStore) as (Hidem & _ & _ & Hpad & _); done.
Defined.

(** ** Reading the cache back *)

Section ReadBack.
Implicit Types (win : Window) (st : Store) (S k : string).

Lemma cache_logCalls evs st : cache (logCalls evs st) = cache st.
Proof. done. Qed.

(** What [getStudySchema] leaves under the key of its name. *)
Lemma getStudySchema_leaves win S st :
  JsMap.get (keyOf S) (cache (getStudySchema win S st).2)
    = match (getStudySchema win S st).1 with
      | Normal schema => Some (EntryOk schema)
      | Throw e =>
          if normalizes win S || bool_decide (is_Some (JsMap.get (keyOf S) (cache st)))
          then Some (EntryErr (Js.messageOf e))
          else None
      end.
Proof.
  rewrite /getStudySchema getStudySchema_cached_get.
  destruct (JsMap.get (keyOf S) (cache st)) as [[cached|error]|] eqn:E; simpl.
  - done.
  - rewrite E orb_true_r. done.
  - rewrite orb_false_r /getStudySchema_fetch /normalizes.
    destruct (getWidget win) as [w|]; simpl; [|by rewrite JsMapFacts.get_set_eq].
    destruct (queryInputs w S) as [[raw|e] evs]; simpl;
      [|by rewrite JsMapFacts.get_set_eq].
    destruct (normalizeInputs raw); simpl; [by rewrite JsMapFacts.get_set_eq | done].
Qed.

Lemma get_elem_of {V} (m : JsMap.t V) k v : JsMap.get k m = Some v → (k, v) ∈ m.
Proof.
  induction m as [|[k' v'] m IH]; simpl; [done|].
  destruct (String.eqb k k') eqn:E.
  - apply String.eqb_eq in E as <-. intros [= <-]. apply list_elem_of_here.
  - intros Hm. apply list_elem_of_further. by apply IH.
Qed.

Lemma successful_get st k schema :
  JsMap.get k (cache st) = Some (EntryOk schema) → schema ∈ successful st.
Proof.
  intros Hk%get_elem_of. rewrite /successful. apply list_elem_of_omap.
  by exists (k, EntryOk schema).
Qed.

Lemma namedByKey_empty : namedByKey emptyStore.
Proof. by intros k schema. Qed.

Lemma namedByKey_perform c st : namedByKey st → namedByKey (perform st c).
Proof.
  intros Hst k schema. destruct c as [win S|[[|a S]|]]; simpl; [| done | | done].
  - rewrite /getStudySchema. destruct (getStudySchema_cached S st); simpl; [apply Hst|].
    destruct (decide (k = keyOf S)) as [->|Hne].
    + pose proof (getStudySchema_leaves win S st) as Hleft.
      rewrite /getStudySchema in Hleft.
      destruct (getStudySchema_cached S st) eqn:E; simpl in Hleft.
      * rewrite /getStudySchema_fetch.
        destruct (getWidget win) as [w|]; simpl; [|by rewrite JsMapFacts.get_set_eq].
        destruct (queryInputs w S) as [[raw|e] evs]; simpl;
          [|by rewrite JsMapFacts.get_set_eq].
        destruct (normalizeInputs raw); simpl.
        -- rewrite JsMapFacts.get_set_eq. by intros [= <-].
        -- intros Hk. by apply Hst in Hk.
      * rewrite /getStudySchema_fetch.
        destruct (getWidget win) as [w|]; simpl; [|by rewrite JsMapFacts.get_set_eq].
        destruct (queryInputs w S) as [[raw|e] evs]; simpl;
          [|by rewrite JsMapFacts.get_set_eq].
        destruct (normalizeInputs raw); simpl.
        -- rewrite JsMapFacts.get_set_eq. by intros [= <-].
        -- intros Hk. by apply Hst in Hk.
    + rewrite fetch_other_keys //. apply Hst.
  - destruct (decide (k = keyOf (String a S))) as [->|Hne].
    + by rewrite JsMapFacts.get_delete_eq.
    + rewrite JsMapFacts.get_delete_ne; [done|]. apply Hst.
Qed.

Lemma namedByKey_performAll calls st : namedByKey st → namedByKey (performAll calls st).
Proof.
  revert st. induction calls as [|c calls IH]; intros st Hst; simpl; [done|].
  by apply IH, namedByKey_perform.
Qed.

End ReadBack.

(** X8. After a call of [getStudySchema] for [S], whichever way it ended,
    [peekStudySchema] and [hasStudy] tell how it ended, for [S] and for every
    name with the same key: the schema that was returned can be read back,
    and nothing can be read back after a throw. *)
Theorem getStudySchema_read_back (win : Window) (S S' : string) (st : Store) :
  keyOf S' = keyOf S →
  peekStudySchema S' (getStudySchema win S st).2
    = match (getStudySchema win S st).1 with
      | Normal schema => Some schema
      | Throw _ => None
      end
  ∧ hasStudy S' (getStudySchema win S st).2
      = match (getStudySchema win S st).1 with
        | Normal _ => true
        | Throw _ => false
        end.
Proof.
  intros Hkey. rewrite /peekStudySchema /hasStudy Hkey getStudySchema_leaves.
  destruct (getStudySchema win S st).1 as [schema|e]; [done|].
  by destruct (_ || _).
Qed.

Lemma getStudySchema_read_back_witness :
  let win := Sample.window Sample.studyWidget in
  keyOf " macd" = keyOf "MACD"
  ∧ (∃ schema, peekStudySchema " macd" (getStudySchema win "MACD" emptyStore).2 = Some schema)
  ∧ hasStudy "badstudy" (getStudySchema win "BADSTUDY" emptyStore).2 = false.
Proof.
  cbv zeta. split; [done|]. split.
  - destruct (getStudySchema_read_back (Sample.window Sample.studyWidget) "MACD" " macd"
                emptyStore eq_refl) as [-> _].
    by eexists.
  - by destruct (getStudySchema_read_back (Sample.window Sample.studyWidget) "BADSTUDY"
                   "badstudy" emptyStore eq_refl) as [_ ->].
Defined.

(** X9. [clearStudyCache] without a name, or with the empty name, forgets
    every study: the cache is empty, no study is cached, no search finds
    anything, and the next [getStudySchema] of any name looks for the widget
    again. *)
Theorem clearStudyCache_all (st : Store) (win : Window) (S query : string) :
  clearStudyCache (Some EmptyString) st = clearStudyCache None st
  ∧ cache (clearStudyCache None st) = JsMap.empty
  ∧ hasStudy S (clearStudyCache None st) = false
  ∧ peekStudySchema S (clearStudyCache None st) = None
  ∧ searchCachedInputs query (clearStudyCache None st) = []
  ∧ ∃ evs, trace (getStudySchema win S (clearStudyCache None st)).2
             = trace st ++ EvGetWidget :: evs.
Proof.
  split_and!; try done.
  rewrite getStudySchema_miss //.
  destruct (fetch_probes win S (clearStudyCache None st)) as [evs ->]. by exists evs.
Qed.

(** X6. When the widget answers with an array that holds [undefined] or [null],
    [getStudySchema] throws an error, from the [map] that is outside the
    [try]: the cache is left as it was, nothing is recorded for the study,
    and the next call for it goes to the widget again. *)
Theorem normalisation_throw_not_cached (win : Window) (w : Widget) (S : string)
    (st : Store) (elems : list JsVal) :
  JsMap.get (keyOf S) (cache st) = None →
  getWidget win = Some w →
  (queryInputs w S).1 = Normal (JArr elems) →
  Exists (λ e, Js.isNullish e = true) elems →
  (∃ message, (getStudySchema win S st).1 = Throw (ThrownError message))
  ∧ cache (getStudySchema win S st).2 = cache st
  ∧ hasStudy S (getStudySchema win S st).2 = false
  ∧ getStudySchema win S (getStudySchema win S st).2
      = getStudySchema_fetch win S (getStudySchema win S st).2.
Proof.
  intros Hmiss Hw Hq Hnull.
  assert (∃ message, normalizeInputs (JArr elems) = Throw (ThrownError message)) as [m Hm].
  { clear Hq. rewrite /normalizeInputs. induction Hnull as [e l He | e l Hl IH]; simpl.
    - rewrite normalizeInput_nullish //. by eexists.
    - destruct (normalizeInput e) as [r|err] eqn:E.
      + destruct IH as [m ->]. by eexists.
      + rewrite /normalizeInput in E.
        destruct (Js.getProp e "id"), (Js.getProp e "name"),
          (Js.getProp e "localizedName"), (Js.getProp e "type"); simplify_eq; by eexists. }
  assert (getStudySchema win S st
          = (Throw (ThrownError m),
             logCalls (queryInputs w S).2 (logCalls [EvGetWidget] st))) as Hcall.
  { rewrite getStudySchema_miss // /getStudySchema_fetch Hw.
    destruct (queryInputs w S) as [answer evs]. simpl in Hq. subst answer.
    by rewrite Hm. }
  rewrite Hcall /=. split_and!; [by eexists | done | by rewrite /hasStudy /= Hmiss |].
  by rewrite getStudySchema_miss.
Qed.

Lemma normalisation_throw_not_cached_witness :
  let w := {| w_getStudyInputs := Some (λ _, Normal (JArr [JObj ∅; JNull]));
              w_activeChart := None |} in
  let call := getStudySchema (Sample.window w) "RSI" emptyStore in
  call.1 = Throw (ThrownError "Cannot read properties of null (reading 'id')")
  ∧ cache call.2 = cache emptyStore
  ∧ hasStudy "RSI" call.2 = false.
Proof.
  cbv zeta. split; [by vm_compute|].
  destruct (normalisation_throw_not_cached
              (Sample.window {| w_getStudyInputs := Some (λ _, Normal (JArr [JObj ∅; JNull]));
                                w_activeChart := None |})
              _ "RSI" emptyStore [JObj ∅; JNull] eq_refl eq_refl eq_refl)
    as (_ & Hcache & Hhas & _); [|done].
  apply Exists_cons_tl, Exists_cons_hd. done.
Defined.

(** ** [getSchemasForLLM] *)

Section ForLLM.
Implicit Types (win : Window) (st : Store) (s : string) (l : list string).

Lemma pickInput_id (i : StudyInputInformation) : pickInput i = i.
Proof. by destruct i. Qed.

Lemma picked_schema (schema : StudySchema) :
  {| schema_name := schema_name schema; inputs := pickInput <$> inputs schema |} = schema.
Proof.
  destruct schema as [n l]. simpl. f_equal.
  induction l as [|i l IH]; [done|]. by rewrite fmap_cons pickInput_id IH.
Qed.

Lemma omap_length {A B} (f : A → option B) (xs : list A) :
  length (omap f xs) ≤ length xs.
Proof. induction xs as [|x xs IH]; [done|]. rewrite /= -/(omap f xs). destruct (f x); simpl; lia. Qed.

Lemma fetches_keep k win l :
  forallb (keepsKey k) (CallGetStudySchema win <$> l) = true.
Proof. by induction l. Qed.

(** The loop, against the store it ends with. *)
Lemma llm_fold win l (acc : list StudySchema) st :
  let final := performAll (CallGetStudySchema win <$> l) st in
  ∃ rs,
    fold_left (llmStep win) l (acc, st) = (acc ++ rs, final)
    ∧ rs `sublist_of` omap (λ s, peekStudySchema s final) l
    ∧ (forallb (normalizes win) l = true → rs = omap (λ s, peekStudySchema s final) l).
Proof.
  revert acc st. induction l as [|s l IH]; intros acc st; simpl.
  - exists []. by rewrite app_nil_r.
  - pose proof (getStudySchema_leaves win s st) as Hleft.
    rewrite /llmStep /=.
    destruct (getStudySchema win s st) as [[schema|e] st1] eqn:E; simpl in *.
    + destruct (IH (acc ++ [schema]) st1) as (rs & Hfold & Hsub & Hall).
      exists (schema :: rs). rewrite picked_schema Hfold -assoc /=.
      assert (peekStudySchema s (performAll (CallGetStudySchema win <$> l) st1)
              = Some schema) as Hpeek.
      { rewrite /peekStudySchema.
        by rewrite (performAll_keeps_entry _ _ _ (EntryOk schema) (fetches_keep _ _ _) Hleft). }
      rewrite Hpeek. split; [done|]. split.
      * by apply sublist_skip.
      * intros [_ Hl]%andb_true_iff. by rewrite Hall.
    + destruct (IH acc st1) as (rs & Hfold & Hsub & Hall).
      exists rs. rewrite Hfold. split; [done|]. split.
      * destruct (peekStudySchema s _); [by apply sublist_cons | done].
      * intros [Hs Hl]%andb_true_iff. rewrite Hs /= in Hleft.
        rewrite /peekStudySchema.
        rewrite (performAll_keeps_entry _ _ _ (EntryErr (Js.messageOf e))
                   (fetches_keep _ _ _) Hleft).
        by apply Hall.
Qed.

End ForLLM.

(** X10. [getSchemasForLLM] leaves the cache as the same calls of
    [getStudySchema] made one after the other would; it returns, in the order
    of the request and without ever throwing, schemas that can afterwards be
    read back from the cache under the requested names, at most one per name;
    and when no answer of the widget fails to normalize, it returns exactly
    the schemas of the requested names that are cached as successes when it
    ends. *)
Theorem getSchemasForLLM_reads_cache (win : Window) (studies : list string) (st : Store) :
  let final := performAll (CallGetStudySchema win <$> studies) st in
  (getSchemasForLLM win studies st).2 = final
  ∧ (getSchemasForLLM win studies st).1
      `sublist_of` omap (λ s, peekStudySchema s final) studies
  ∧ length (getSchemasForLLM win studies st).1 ≤ length studies
  ∧ (forallb (normalizes win) studies = true →
     (getSchemasForLLM win studies st).1 = omap (λ s, peekStudySchema s final) studies).
Proof.
  intros final. rewrite /getSchemasForLLM.
  destruct (llm_fold win studies [] st) as (rs & -> & Hsub & Hall). simpl.
  split_and!; [done..| |done].
  apply sublist_length in Hsub. etrans; [done|]. apply omap_length.
Qed.

(** X11. A study that [getStudySchema] has returned can be found by its name:
    in a cache built by calls of the API, a search for any name with the
    same key yields every input of the schema. *)
Theorem fetched_study_is_found (calls : list Call) (win : Window) (S S' : string)
    (schema : StudySchema) (st1 : Store) (i : StudyInputInformation) :
  getStudySchema win S (performAll calls emptyStore) = (Normal schema, st1) →
  keyOf S' = keyOf S →
  i ∈ inputs schema →
  {| study := schema_name schema; input := i |} ∈ searchCachedInputs S' st1.
Proof.
  intros Hcall Hkey Hi.
  assert (st1 = perform (performAll calls emptyStore) (CallGetStudySchema win S)) as Hst1.
  { by rewrite /perform Hcall. }
  pose proof (getStudySchema_success_cached _ _ _ _ _ Hcall) as Hcached.
  assert (keyOf (schema_name schema) = keyOf S) as Hname.
  { pose proof (namedByKey_perform (CallGetStudySchema win S) _
                  (namedByKey_performAll calls _ namedByKey_empty)) as Hnamed.
    rewrite -Hst1 in Hnamed. by apply Hnamed. }
  rewrite searchCachedInputs_matching. apply list_elem_of_bind.
  exists schema. split; [|by eapply successful_get].
  rewrite /matching -/(keyOf S') Hkey -Hname keyOf_inside.
  apply list_elem_of_fmap. by exists i.
Qed.

Lemma fetched_study_is_found_witness :
  let win := Sample.window Sample.studyWidget in
  let first := getStudySchema win " Rsi " emptyStore in
  let i := {| id := "in_0"; name := "Length"; localizedName := "Length"; type := "integer" |} in
  keyOf "RSI" = keyOf " Rsi "
  ∧ {| study := " Rsi "; input := i |} ∈ searchCachedInputs "RSI" first.2.
Proof.
  cbv zeta. split; [done|].
  apply (fetched_study_is_found [] (Sample.window Sample.studyWidget) " Rsi " "RSI"
           {| schema_name := " Rsi ";
              inputs := [{| id := "in_0"; name := "Length"; localizedName := "Length";
                            type := "integer" |}] |}); [by vm_compute | done |].
  apply list_elem_of_here.
Defined.

(** ** [prefetchStudySchemas]: particular pools *)

Section PoolCases.
Variable win : Window.
Variable studies : list string.
Variable opts : PrefetchOpts.
Implicit Types (p : Pool) (i : nat) (w : Worker) (ws : list Worker) (sched : list nat).

(** The two ways round the head of the loop, in full. *)
Lemma workerLoop_takes i p current :
  studies !! p_idx p = Some current →
  workerLoop studies i p =
    (match getStudySchema_cached current (p_store p) with
     | Some answer => AwaitingSchema current answer
     | None => AwaitingReady current
     end,
     {| p_store := p_store p; p_idx := S (p_idx p); p_done := p_done p;
        p_success := p_success p; p_failed := p_failed p;
        p_workers := p_workers p; p_rejection := p_rejection p;
        p_claims := p_claims p ++ [(i, p_idx p)] |}).
Proof.
  intros Hcurrent. rewrite /workerLoop Hcurrent /=.
  apply lookup_lt_Some, Nat.ltb_lt in Hcurrent as ->.
  by destruct (getStudySchema_cached current (p_store p)).
Qed.

Lemma workerLoop_leaves i p :
  length studies ≤ p_idx p → workerLoop studies i p = (WorkerReturned, p).
Proof. intros Hend%Nat.ltb_ge. by rewrite /workerLoop Hend. Qed.

Lemma workerCount_le : workerCount opts (length studies) ≤ length studies.
Proof. rewrite /workerCount. lia. Qed.

(** No worker leaves while it is being started: there are no more workers
    than names. *)
Lemma spawn_suspended n p :
  p_idx p + n ≤ length studies →
  Forall (λ w, isSuspended w = true) (p_workers p) →
  Forall (λ w, isSuspended w = true) (p_workers (spawn studies n p))
  ∧ p_rejection (spawn studies n p) = p_rejection p.
Proof.
  revert p. induction n as [|n IH]; intros p Hidx Hws; simpl; [done|].
  destruct (lookup_lt_is_Some_2 studies (p_idx p)) as [current Hcurrent]; [lia|].
  rewrite (workerLoop_takes _ _ _ Hcurrent).
  destruct (IH {| p_store := p_store p; p_idx := S (p_idx p); p_done := p_done p;
                  p_success := p_success p; p_failed := p_failed p;
                  p_workers := p_workers p ++
                    [match getStudySchema_cached current (p_store p) with
                     | Some answer => AwaitingSchema current answer
                     | None => AwaitingReady current
                     end];
                  p_rejection := p_rejection p;
                  p_claims := p_claims p ++ [(length (p_workers p), p_idx p)] |})
    as [Hall Hrej]; simpl; [lia | | done].
  apply Forall_app. split; [done|]. apply Forall_singleton.
  by destruct (getStudySchema_cached current (p_store p)).
Qed.

Lemma start_suspended st :
  Forall (λ w, isSuspended w = true) (p_workers (start studies opts st))
  ∧ p_rejection (start studies opts st) = None.
Proof.
  rewrite /start. apply spawn_suspended; simpl; [|done]. apply workerCount_le.
Qed.

(** *** A callback that always throws *)

Lemma loud_start st : loudInv (start studies opts st).
Proof.
  destruct (start_suspended st) as [Hall _]. split.
  - eapply Forall_impl; [done|]. intros w. apply suspended_not_returned.
  - eapply Forall_impl; [done|]. simpl. by intros w ->.
Qed.

Lemma loud_resume i p : loud opts → loudInv p → loudInv (resume win studies opts i p).
Proof.
  intros (callback & Hcb & Hthrows) [Hret Hover]. rewrite /resume.
  destruct (p_workers p !! i) as [[current|current answer| |e]|] eqn:Hi; [| |done..].
  - destruct (getStudySchema_fetch win current (p_store p)) as [answer st]. split; simpl.
    + by apply Forall_insert.
    + by apply Forall_insert.
  - rewrite /callOnProgress Hcb.
    destruct (Hthrows (p_done (recordOutcome current answer p)) (length studies) current)
      as [e ->].
    split; simpl.
    + by apply Forall_insert.
    + apply Forall_forall. intros w _ _. by destruct (p_rejection p).
Qed.

Lemma loud_run sched p : loud opts → loudInv p → loudInv (run win studies opts sched p).
Proof.
  intros Hloud. revert p. induction sched as [|i sched IH]; intros p Hinv; simpl; [done|].
  by apply IH, loud_resume.
Qed.

Lemma loud_outcome p :
  p_workers p ≠ [] → loudInv p →
  ∀ summary, outcome studies p ≠ Some (Normal summary).
Proof.
  intros Hws [Hret _] summary. rewrite /outcome.
  destruct (p_rejection p); [done|].
  destruct (p_workers p) as [|w ws]; [done|]. simpl.
  apply Forall_cons in Hret as [-> _]. done.
Qed.

Lemma loud_settled p :
  p_workers p ≠ [] → loudInv p →
  firstSuspended (p_workers p) = None →
  ∃ e, outcome studies p = Some (Throw e).
Proof.
  intros Hws [_ Hover] Hnone%firstSuspended_None. rewrite /outcome.
  destruct (p_workers p) as [|w ws]; [done|].
  apply Forall_cons in Hover as [Hw _]. apply Forall_cons in Hnone as [Hs _].
  specialize (Hw Hs). destruct (p_rejection p) as [e|]; [by exists e | done].
Qed.

End PoolCases.



(** X12. With no name to fetch the call returns the empty summary at once,
    whatever the options, and leaves the store as it is. *)
Theorem prefetch_no_names (win : Window) (opts : PrefetchOpts) (st : Store)
    (sched : list nat) :
  prefetchStudySchemas win [] opts sched st
    = Some (Normal {| total := 0; success := []; failed := [] |}, st).
Proof.
  assert (start [] opts st
          = {| p_store := st; p_idx := 0; p_done := 0; p_success := []; p_failed := [];
               p_workers := []; p_rejection := None; p_claims := [] |}) as Hstart.
  { rewrite /start. replace (workerCount opts (length [])) with 0; [done|].
    rewrite /workerCount /=. lia. }
  rewrite /prefetchStudySchemas Hstart.
  assert (∀ p, p_workers p = [] → run win [] opts sched p = p) as Hrun.
  { induction sched as [|i sched IH]; intros p Hp; simpl; [done|].
    rewrite /resume Hp /=. by apply IH. }
  by rewrite Hrun.
Qed.

Section PoolCached.
Variable win : Window.
Variable studies : list string.
Variable opts : PrefetchOpts.
Variable st : Store.
Hypothesis all_cached : ∀ s, s ∈ studies → is_Some (JsMap.get (keyOf s) (cache st)).
Implicit Types (p : Pool) (i : nat) (w : Worker) (sched : list nat).

Lemma cached_answer s :
  s ∈ studies →
  ∃ answer,
    getStudySchema_cached s st = Some answer
    ∧ hasStudy s st = match answer with Normal _ => true | Throw _ => false end.
Proof.
  intros [entry He]%all_cached. rewrite /getStudySchema_cached /hasStudy He.
  destruct entry; by eexists.
Qed.

(** The worker that [workerLoop] gives when the store is [st]. *)
Lemma cached_head i p :
  p_store p = st →
  match (workerLoop studies i p).1 with
  | AwaitingReady _ => False
  | AwaitingSchema current answer => getStudySchema_cached current st = Some answer
  | _ => True
  end
  ∧ p_store (workerLoop studies i p).2 = st
  ∧ p_success (workerLoop studies i p).2 = p_success p
  ∧ p_failed (workerLoop studies i p).2 = p_failed p
  ∧ p_workers (workerLoop studies i p).2 = p_workers p.
Proof.
  intros Hst. destruct (decide (p_idx p < length studies)) as [Hlt|Hge].
  - destruct (lookup_lt_is_Some_2 studies (p_idx p) Hlt) as [current Hcurrent].
    rewrite (workerLoop_takes _ _ _ _ Hcurrent) /= Hst.
    assert (current ∈ studies) as Hin by by eapply list_elem_of_lookup_2.
    destruct (cached_answer current Hin) as (answer & Hanswer & _).
    by rewrite Hanswer.
  - rewrite workerLoop_leaves; [lia|done].
Qed.

Lemma cached_spawn n p : cachedInv st p → cachedInv st (spawn studies n p).
Proof.
  revert p. induction n as [|n IH]; intros p (Hst & Hws & Hok & Hko); simpl; [done|].
  destruct (cached_head (length (p_workers p)) p Hst) as (Hw & Hst' & Hs & Hf & Hw').
  destruct (workerLoop studies (length (p_workers p)) p) as [w p']. simpl in *.
  apply IH. split_and!; simpl; [done| |by rewrite Hs|by rewrite Hf].
  rewrite Hw'. apply Forall_app. split; [done|]. by apply Forall_singleton.
Qed.

Lemma cached_resume i p : cachedInv st p → cachedInv st (resume win studies opts i p).
Proof.
  intros (Hst & Hws & Hok & Hko). rewrite /resume.
  destruct (p_workers p !! i) as [[current|current answer| |e]|] eqn:Hi; [| |done..].
  - by destruct (Forall_lookup_1 _ _ _ _ Hws Hi).
  - pose proof (Forall_lookup_1 _ _ _ _ Hws Hi) as Hanswer. simpl in Hanswer.
    assert (hasStudy current st
            = match answer with Normal _ => true | Throw _ => false end) as Hhas.
    { rewrite /getStudySchema_cached in Hanswer. rewrite /hasStudy.
      destruct (JsMap.get (keyOf current) (cache st)) as [[?|?]|]; by simplify_eq. }
    assert (Forall (λ s, hasStudy s st = true) (p_success (recordOutcome current answer p))
            ∧ Forall (λ f, hasStudy (failure_name f) st = false)
                (p_failed (recordOutcome current answer p))) as [Hok' Hko'].
    { destruct answer; simpl; split; try done; apply Forall_app; split; try done;
        by apply Forall_singleton. }
    destruct (callOnProgress studies opts current _) as [[]|e].
    + destruct (cached_head i (recordOutcome current answer p) Hst)
        as (Hw & Hst' & Hs & Hf & Hw').
      destruct (workerLoop studies i (recordOutcome current answer p)) as [w p2].
      simpl in *. split_and!; simpl; [done| |by rewrite Hs|by rewrite Hf].
      rewrite Hw'. by apply Forall_insert.
    + split_and!; simpl; [done| |done|done]. by apply Forall_insert.
Qed.

Lemma cached_run sched p : cachedInv st p → cachedInv st (run win studies opts sched p).
Proof.
  revert p. induction sched as [|i sched IH]; intros p Hinv; simpl; [done|].
  by apply IH, cached_resume.
Qed.

End PoolCached.

(** X13. When every name is already in the cache, as a success or as a failure,
    [prefetchStudySchemas] never goes to the widget: under every schedule and
    whatever the options, the store (cache and trace of widget calls) stays
    as it was, the names recorded as successes are the cached successes and
    the names recorded as failures the cached failures. *)
Theorem prefetch_cached_names (win : Window) (studies : list string)
    (opts : PrefetchOpts) (st : Store) (sched : list nat) :
  (∀ s, s ∈ studies → is_Some (JsMap.get (keyOf s) (cache st))) →
  p_store (run win studies opts sched (start studies opts st)) = st
  ∧ Forall (λ s, hasStudy s st = true)
      (p_success (run win studies opts sched (start studies opts st)))
  ∧ Forall (λ f, hasStudy (failure_name f) st = false)
      (p_failed (run win studies opts sched (start studies opts st))).
Proof.
  intros Hcached.
  destruct (cached_run win studies opts st Hcached sched (start studies opts st))
    as (Hst & _ & Hok & Hko); [|done].
  apply cached_spawn; [done|]. by split_and!.
Qed.

Lemma prefetch_cached_names_witness :
  let win := Sample.window Sample.studyWidget in
  let st := performAll [CallGetStudySchema win "RSI"; CallGetStudySchema win "BADSTUDY"]
              emptyStore in
  let opts := {| concurrency := Some 2%Z; onProgress := None |} in
  p_store (run Sample.noWindow ["rsi"; " BadStudy"] opts [1; 0]
             (start ["rsi"; " BadStudy"] opts st)) = st
  ∧ p_success (run Sample.noWindow ["rsi"; " BadStudy"] opts [1; 0]
                 (start ["rsi"; " BadStudy"] opts st)) = ["rsi"].
Proof.
  cbv zeta. split; [|by vm_compute].
  apply prefetch_cached_names.
  intros s [->|[->|[]%elem_of_nil]%elem_of_cons]%elem_of_cons; vm_compute; by eexists.
Defined.

(** X5. Two names with the same key that are taken by two workers before either
    fetch has run are both fetched from the widget: the store ends as after
    the two fetches in turn, although the first has already written the
    entry, and a schema returned by the second replaces what the first has
    cached. *)
Theorem prefetch_same_key_twice (win : Window) (S1 S2 : string) (st : Store) :
  keyOf S2 = keyOf S1 →
  JsMap.get (keyOf S1) (cache st) = None →
  let opts := {| concurrency := Some 2%Z; onProgress := None |} in
  let first := getStudySchema_fetch win S1 st in
  let second := getStudySchema_fetch win S2 first.2 in
  p_store (run win [S1; S2] opts [0; 1] (start [S1; S2] opts st)) = second.2
  ∧ (∃ evs1 evs2, trace second.2 = trace st ++ EvGetWidget :: evs1 ++ EvGetWidget :: evs2)
  ∧ ∀ schema, second.1 = Normal schema →
      JsMap.get (keyOf S1) (cache second.2) = Some (EntryOk schema).
Proof.
  intros Hkey Hmiss opts first second.
  assert (getStudySchema_cached S1 st = None) as H1.
  { by rewrite /getStudySchema_cached Hmiss. }
  assert (getStudySchema_cached S2 st = None) as H2.
  { by rewrite /getStudySchema_cached Hkey Hmiss. }
  split_and!.
  - rewrite /start /opts. change (workerCount _ _) with 2.
    rewrite /= /workerLoop /= H1 /= H2 /= /resume /= /second /first.
    destruct (getStudySchema_fetch win S1 st) as [answer1 st1]. simpl.
    by destruct (getStudySchema_fetch win S2 st1) as [answer2 st2].
  - destruct (fetch_probes win S1 st) as [evs1 Hevs1].
    destruct (fetch_probes win S2 first.2) as [evs2 Hevs2].
    exists evs1, evs2. rewrite /second Hevs2 Hevs1 -assoc. reflexivity.
  - intros schema Hsecond. rewrite -Hkey.
    apply (fetch_success_cached win S2 first.2). rewrite -Hsecond /second.
    by destruct (getStudySchema_fetch win S2 first.2).
Qed.

Lemma prefetch_same_key_twice_witness :
  let win := Sample.window
               {| w_getStudyInputs :=
                    Some (λ studyName, if String.eqb studyName "RSI"
                                       then Throw (ThrownError "busy")
                                       else Normal (JArr []));
                  w_activeChart := None |} in
  let opts := {| concurrency := Some 2%Z; onProgress := None |} in
  keyOf "rsi" = keyOf "RSI"
  ∧ JsMap.get (keyOf "RSI") (cache emptyStore) = None
  ∧ (∃ error, JsMap.get "rsi" (cache (getStudySchema_fetch win "RSI" emptyStore).2)
                = Some (EntryErr error))
  ∧ JsMap.get "rsi"
      (cache (p_store (run win ["RSI"; "rsi"] opts [0; 1]
                         (start ["RSI"; "rsi"] opts emptyStore))))
    = Some (EntryOk {| schema_name := "rsi"; inputs := [] |}).
Proof.
  cbv zeta. split; [done|]. split; [done|]. split; [by eexists; vm_compute|].
  edestruct (prefetch_same_key_twice) as (-> & _ & Hreplaced); [..|by apply Hreplaced];
    done.
Defined.

(** *** A single worker *)

Section SingleWorker.
Variable win : Window.
Variable studies : list string.
Variable opts : PrefetchOpts.
Variable st : Store.
Hypothesis quiet_opts : quiet opts.
Implicit Types (p : Pool) (i : nat) (w : Worker) (sched : list nat).

Lemma sequential_snoc (l : list string) s :
  sequentialPrefetch win (l ++ [s]) st
    = sequentialStep win (sequentialPrefetch win l st) s.
Proof. by rewrite /sequentialPrefetch fold_left_app. Qed.

(** The worker at the head of its loop, when the pool is where the
    sequential loop is after [p_idx p] names. *)
Lemma sequential_head i p :
  p_idx p ≤ length studies →
  sequentialPrefetch win (take (p_idx p) studies) st
    = (p_success p, p_failed p, p_store p) →
  sequentialAt win studies st (workerLoop studies i p).1 (workerLoop studies i p).2
  ∧ p_rejection (workerLoop studies i p).2 = p_rejection p
  ∧ p_workers (workerLoop studies i p).2 = p_workers p.
Proof.
  intros Hidx Hseq. destruct (decide (p_idx p < length studies)) as [Hlt|Hge].
  - destruct (lookup_lt_is_Some_2 studies (p_idx p) Hlt) as [current Hcurrent].
    rewrite (workerLoop_takes _ _ _ _ Hcurrent) /=. split; [|done].
    destruct (getStudySchema_cached current (p_store p)) as [answer|] eqn:E; simpl.
    + exists (p_idx p), (p_store p). split_and!; [done..|].
      by rewrite /getStudySchema E.
    + by exists (p_idx p).
  - rewrite workerLoop_leaves; [lia|]. simpl. split; [|done].
    by rewrite take_ge in Hseq; [lia|].
Qed.

Lemma sequential_start :
  workerCount opts (length studies) = 1 →
  sequentialInv win studies st (start studies opts st).
Proof.
  intros Hone. rewrite /start Hone /=.
  set (p0 := {| p_store := st; p_idx := 0; p_done := 0; p_success := []; p_failed := [];
                p_workers := []; p_rejection := None; p_claims := [] |}).
  destruct (sequential_head 0 p0) as (Hat & Hrej & Hws); [simpl; lia|done|].
  destruct (workerLoop studies 0 p0) as [w p']. simpl in *.
  split; [done|]. exists w. rewrite Hws. split; [done|].
  by destruct w.
Qed.

Lemma sequential_resume i p :
  sequentialInv win studies st p →
  sequentialInv win studies st (resume win studies opts i p).
Proof.
  intros (Hrej & w & Hws & Hat). rewrite /resume Hws.
  destruct i as [|i]; simpl; [|by split; [|exists w]].
  destruct w as [current|current answer| |e]; [| |by split; [|exists WorkerReturned]|done].
  - destruct Hat as (k & Hk & Hcurrent & Hmiss & Hseq).
    destruct (getStudySchema_fetch win current (p_store p)) as [answer st'] eqn:E.
    split; [done|]. exists (AwaitingSchema current answer). simpl. split; [done|].
    exists k, (p_store p). split_and!; [done..|].
    by rewrite /getStudySchema Hmiss.
  - destruct Hat as (k & st_k & Hk & Hcurrent & Hseq & Hcall).
    rewrite callOnProgress_quiet //.
    destruct (sequential_head 0 (recordOutcome current answer p))
      as (Hat & Hrej' & Hws'); simpl.
    + apply lookup_lt_Some in Hcurrent. lia.
    + rewrite Hk (take_S_r _ _ current) // sequential_snoc Hseq /= Hcall.
      by destruct answer.
    + destruct (workerLoop studies 0 (recordOutcome current answer p)) as [w p2].
      simpl in *. split; [by rewrite Hrej'|]. exists w. rewrite /= Hws' Hws. split; [done|].
      by destruct w.
Qed.

Lemma sequential_run sched p :
  sequentialInv win studies st p →
  sequentialInv win studies st (run win studies opts sched p).
Proof.
  revert p. induction sched as [|i sched IH]; intros p Hinv; simpl; [done|].
  by apply IH, sequential_resume.
Qed.

Lemma sequential_outcome p r :
  sequentialInv win studies st p →
  outcome studies p = Some r →
  ∃ success failed,
    sequentialPrefetch win studies st = (success, failed, p_store p)
    ∧ r = Normal {| total := length studies; success := success; failed := failed |}.
Proof.
  intros (Hrej & w & Hws & Hat). rewrite /outcome Hrej Hws /=.
  destruct w; simpl; try done. intros [= <-]. by eexists _, _.
Qed.

End SingleWorker.

(** X3. With a single worker (a concurrency of one or less, or a single name)
    and a callback that does not throw, [prefetchStudySchemas] is the
    sequential loop: whatever the schedule, when it has returned, the summary
    lists the names in the order given, as successes or failures according to
    [getStudySchema] called on each in turn, and the store is the one these
    calls leave; and it does return when the worker is resumed until it is
    over. *)
Theorem prefetch_single_worker (win : Window) (studies : list string)
    (opts : PrefetchOpts) (st : Store) :
  quiet opts →
  workerCount opts (length studies) = 1 →
  (∀ sched r st',
     prefetchStudySchemas win studies opts sched st = Some (r, st') →
     ∃ success failed,
       sequentialPrefetch win studies st = (success, failed, st')
       ∧ r = Normal {| total := length studies; success := success; failed := failed |})
  ∧ ∃ r st',
      prefetchStudySchemas win studies opts
        (drain win studies opts (2 * length studies) (start studies opts st)) st
      = Some (r, st').
Proof.
  intros Hquiet Hone.
  assert (∀ sched, sequentialInv win studies st
                     (run win studies opts sched (start studies opts st))) as Hinv.
  { intros sched. apply sequential_run; [done|]. by apply sequential_start. }
  split.
  - intros sched r st'. rewrite /prefetchStudySchemas.
    destruct (outcome studies _) as [r0|] eqn:E; [|done]. intros [= <- <-].
    by eapply sequential_outcome.
  - destruct (prefetch_total win studies opts st Hquiet) as (_ & _ & _ & _ & s & st' & H).
    by eexists _, _.
Qed.

Lemma prefetch_single_worker_witness :
  let win := Sample.window Sample.studyWidget in
  let opts := {| concurrency := Some 0%Z; onProgress := None |} in
  quiet opts
  ∧ workerCount opts 3 = 1
  ∧ fst <$> prefetchStudySchemas win ["BADSTUDY"; "RSI"; "rsi"] opts [0; 0; 0; 0; 0]
              emptyStore
    = Some (Normal {| total := 3;
                      success := ["RSI"; "rsi"];
                      failed := [{| failure_name := "BADSTUDY";
                                    failure_error :=
                                      "getStudyInputs failed for " +:+ JsString.dquote
                                        +:+ "BADSTUDY" +:+ JsString.dquote
                                        +:+ ": unknown study BADSTUDY" |}] |}).
Proof.
  cbv zeta. split; [done|]. split; [done|].
  destruct (prefetch_single_worker (Sample.window Sample.studyWidget)
              ["BADSTUDY"; "RSI"; "rsi"]
              {| concurrency := Some 0%Z; onProgress := None |} emptyStore I eq_refl)
    as [Hseq _].
  destruct (prefetchStudySchemas _ _ _ [0; 0; 0; 0; 0] emptyStore) as [[r st']|] eqn:E;
    [|by vm_compute in E].
  destruct (Hseq _ _ _ E) as (success & failed & Hrun & ->).
  vm_compute in Hrun. by injection Hrun as <- <- _.
Defined.
(** ** The chart bridge *)

(** *** More facts about [JsMap] *)

Section JsMapMore.
Context {V : Type}.
Implicit Types (m : JsMap.t V) (k : string) (v : V).

Lemma set_fresh m k v : JsMap.get k m = None → JsMap.set k v m = m ++ [(k, v)].
Proof.
  induction m as [|[k' v'] m IH]; simpl; [done|].
  destruct (String.eqb k k'); [done|]. intros Hm. by rewrite IH.
Qed.

Lemma delete_absent m k : JsMap.get k m = None → JsMap.delete k m = m.
Proof.
  induction m as [|[k' v'] m IH]; simpl; [done|].
  destruct (String.eqb k k'); [done|]. intros Hm. by rewrite IH.
Qed.

Lemma delete_set_fresh m k v :
  JsMap.get k m = None → JsMap.delete k (JsMap.set k v m) = m.
Proof.
  induction m as [|[k' v'] m IH]; simpl.
  - by rewrite String.eqb_refl.
  - destruct (String.eqb k k') eqn:E; [done|]. intros Hm. by rewrite /= E IH.
Qed.

Lemma values_set_fresh m k v :
  JsMap.get k m = None → JsMap.values (JsMap.set k v m) = JsMap.values m ++ [v].
Proof. intros Hm. by rewrite set_fresh // /JsMap.values fmap_app. Qed.

Lemma get_Some_values m k v : JsMap.get k m = Some v → v ∈ JsMap.values m.
Proof.
  rewrite /JsMap.values. induction m as [|[k' v'] m IH]; simpl; [done|].
  destruct (String.eqb k k').
  - intros [= ->]. apply elem_of_cons. by left.
  - intros Hm. apply elem_of_cons. right. by apply IH.
Qed.

Lemma get_is_Some_set m k k' v :
  is_Some (JsMap.get k m) → is_Some (JsMap.get k (JsMap.set k' v m)).
Proof.
  intros Hm. destruct (decide (k' = k)) as [->|Hne].
  - rewrite JsMapFacts.get_set_eq. by eexists.
  - by rewrite JsMapFacts.get_set_ne.
Qed.

End JsMapMore.

(** *** [optimizeIndicatorParameters] *)

Section Optimize.
Implicit Types (entries : list (string * JsVal)) (base : Params) (k : string).

Lemma orElse_truthy a d :
  JsTruth.truthy d = true → JsTruth.truthy (JsTruth.orElse a d) = true.
Proof. rewrite /JsTruth.orElse. by destruct (JsTruth.truthy a) eqn:E. Qed.

Lemma orElse_kept a d : JsTruth.truthy a = true → JsTruth.orElse a d = a.
Proof. rewrite /JsTruth.orElse. by intros ->. Qed.

Lemma filled_keys entries base :
  ((λ entry, (entry.1, JsTruth.orElse (param base entry.1) entry.2)) <$> entries).*1
  = entries.*1.
Proof. rewrite -list_fmap_compose. by apply list_fmap_ext. Qed.

Lemma filled_lookup entries base k d :
  NoDup entries.*1 → (k, d) ∈ entries →
  filled entries base !! k = Some (JsTruth.orElse (param base k) d).
Proof.
  intros Hnd Hin. apply elem_of_list_to_map_1; [by rewrite filled_keys|].
  apply list_elem_of_fmap. by exists (k, d).
Qed.

Lemma filled_lookup_None entries base k :
  k ∉ entries.*1 → filled entries base !! k = None.
Proof. intros Hk. apply not_elem_of_list_to_map_1. by rewrite filled_keys. Qed.

Lemma filled_lookup_Some entries base k v :
  filled entries base !! k = Some v →
  ∃ d, (k, d) ∈ entries ∧ v = JsTruth.orElse (param base k) d.
Proof.
  intros Hk%elem_of_list_to_map_2. apply list_elem_of_fmap in Hk as ([k' d] & [= -> ->] & Hin).
  by exists d.
Qed.

(** The entries of the literal have distinct keys and truthy fallbacks. *)
Lemma optimizations_wf name entries :
  optimizations name = Some entries →
  NoDup entries.*1 ∧ Forall (λ entry, JsTruth.truthy entry.2 = true) entries.
Proof.
  rewrite /optimizations. repeat case_match; intros [= <-]; split;
    try (repeat constructor; done); apply (bool_decide_unpack _); by vm_compute.
Qed.

Lemma optimized_lookup name entries base k d :
  optimizations name = Some entries → (k, d) ∈ entries →
  optimizeIndicatorParameters name base !! k = Some (JsTruth.orElse (param base k) d)
  ∧ JsTruth.truthy (JsTruth.orElse (param base k) d) = true.
Proof.
  intros Hname Hin. destruct (optimizations_wf _ _ Hname) as [Hnd Hd].
  rewrite /optimizeIndicatorParameters Hname. split.
  - apply lookup_union_Some_l. by apply filled_lookup.
  - apply orElse_truthy. by apply (proj1 (Forall_forall _ _) Hd (k, d)).
Qed.

Lemma optimized_other name base k :
  (∀ entries, optimizations name = Some entries → k ∉ entries.*1) →
  optimizeIndicatorParameters name base !! k = base !! k.
Proof.
  intros Hk. rewrite /optimizeIndicatorParameters.
  destruct (optimizations name) as [entries|] eqn:Hname; [|done].
  rewrite lookup_union_r; [|done]. apply filled_lookup_None. by apply Hk.
Qed.

Lemma optimized_cases name base k :
  optimizeIndicatorParameters name base !! k = base !! k
  ∨ ∃ entries d, optimizations name = Some entries ∧ (k, d) ∈ entries.
Proof.
  destruct (optimizations name) as [entries|] eqn:Hname.
  - destruct (decide (k ∈ entries.*1)) as [Hin|Hout].
    + right. apply list_elem_of_fmap in Hin as ([k' d] & -> & Hin). by exists entries, d.
    + left. apply optimized_other. intros entries' Heq. rewrite Hname in Heq.
      by injection Heq as <-.
  - left. apply optimized_other. intros entries' Heq. by rewrite Hname in Heq.
Qed.

End Optimize.

(** X14. [optimizeIndicatorParameters] fills in the tuned keys of a known
    indicator and leaves every other key of the caller alone: a tuned key
    always ends up with a truthy value, the caller's own when that is
    truthy and the fallback of the table otherwise (so a caller's [0],
    empty string or [false] under a tuned key is replaced); a truthy value
    of the caller is never changed; for a name that the table does not know
    the parameters come back as they are; and optimizing twice is the same
    as optimizing once. *)
Theorem optimized_parameters (indicatorName : string) (baseParams : Params) :
  let optimized := optimizeIndicatorParameters indicatorName baseParams in
  (∀ entries key fallback,
     optimizations indicatorName = Some entries → (key, fallback) ∈ entries →
     optimized !! key = Some (JsTruth.orElse (param baseParams key) fallback)
     ∧ JsTruth.truthy (JsTruth.orElse (param baseParams key) fallback) = true)
  ∧ (∀ key v, baseParams !! key = Some v → JsTruth.truthy v = true →
       optimized !! key = Some v)
  ∧ (∀ key, is_Some (baseParams !! key) → is_Some (optimized !! key))
  ∧ (∀ key, (∀ entries, optimizations indicatorName = Some entries → key ∉ entries.*1) →
       optimized !! key = baseParams !! key)
  ∧ (optimizations indicatorName = None → optimized = baseParams)
  ∧ optimizeIndicatorParameters indicatorName optimized = optimized.
Proof.
  cbv zeta. split_and!.
  - intros entries key fallback. apply optimized_lookup.
  - intros key v Hv Htruthy.
    destruct (optimized_cases indicatorName baseParams key) as [->|(entries & d & Hname & Hin)];
      [done|].
    destruct (optimized_lookup _ _ baseParams _ _ Hname Hin) as [-> _].
    by rewrite /param Hv /= orElse_kept.
  - intros key Hkey.
    destruct (optimized_cases indicatorName baseParams key) as [->|(entries & d & Hname & Hin)];
      [done|].
    destruct (optimized_lookup _ _ baseParams _ _ Hname Hin) as [-> _]. by eexists.
  - intros key. apply optimized_other.
  - rewrite /optimizeIndicatorParameters. by intros ->.
  - apply map_eq. intros key.
    destruct (optimized_cases indicatorName (optimizeIndicatorParameters indicatorName baseParams)
                key) as [->|(entries & d & Hname & Hin)]; [done|].
    destruct (optimized_lookup _ _ (optimizeIndicatorParameters indicatorName baseParams)
                _ _ Hname Hin) as [-> _].
    destruct (optimized_lookup _ _ baseParams _ _ Hname Hin) as [Hfirst Htruthy].
    by rewrite Hfirst /param Hfirst /= orElse_kept.
Qed.

(** *** Operations that add to the tables *)

Section Adding.
Variable N : Numbers.
Variable chart : ChartBehaviour N.
Implicit Types (s : Session N) (b : Bridge).

Lemma adds_refl b : adds b b.
Proof. by rewrite /adds. Qed.

Lemma adds_trans b1 b2 b3 : adds b1 b2 → adds b2 b3 → adds b1 b3.
Proof.
  intros (Hc & Ht & Hr & Ha) (Hc' & Ht' & Hr' & Ha'). rewrite /adds. split_and!.
  - by rewrite Hc'.
  - intros Hnone. destruct (Ht Hnone) as (<- & <- & <- & <-). apply Ht'. by rewrite Hc.
  - by rewrite Hr'.
  - intros k Hk. by apply Ha', Ha.
Qed.

Lemma adds_console line b : adds b (withConsole line b).
Proof. by rewrite /adds. Qed.

Lemma adds_evolves b b' : adds b b' → evolves b b'.
Proof.
  intros (Hc & Ht & Hr & Ha). rewrite /evolves. split_and!; [done|done| |done].
  exists []. split; [by rewrite app_nil_r|]. apply list_subseteq_nil.
Qed.

Lemma evolves_adds b1 b2 b3 : evolves b1 b2 → adds b2 b3 → evolves b1 b3.
Proof.
  intros (Hc & Ht & (added & Hr & Hsub) & Ha) (Hc' & Ht' & Hr' & Ha').
  rewrite /evolves. split_and!.
  - by rewrite Hc'.
  - intros Hnone. destruct (Ht Hnone) as (<- & <- & <- & <-). apply Ht'. by rewrite Hc.
  - exists added. by rewrite Hr'.
  - intros k Hk. by apply Ha', Ha.
Qed.

Lemma addStudy_adds key studyName lock params s :
  adds (bridge s) (bridge (addStudy chart key studyName lock params s).2).
Proof.
  rewrite /addStudy. destruct (chartRef (bridge s)) as [api|] eqn:Hc; [|apply adds_refl].
  destruct (answerStudy chart _) as [[study|]|e]; simpl; try apply adds_refl.
  rewrite /adds /= Hc. by split_and!.
Qed.

Lemma applyIndicator_adds config s :
  adds (bridge s) (bridge (applyIndicator chart config s).2).
Proof.
  rewrite /applyIndicator. destruct (chartRef (bridge s)) as [api|] eqn:Hc; [|apply adds_refl].
  destruct (answerStudy chart _) as [[study|]|e]; simpl; try apply adds_refl.
  rewrite /adds /= Hc. by split_and!.
Qed.

Lemma applyNext_adds acc config :
  adds (bridge acc.2) (bridge (applyNext chart acc config).2).
Proof.
  rewrite /applyNext. pose proof (applyIndicator_adds config acc.2) as H.
  destruct (applyIndicator chart config acc.2) as [[study|e] s']; simpl in *; [done|].
  eapply adds_trans; [exact H|]. apply adds_console.
Qed.

Lemma applyMultipleIndicators_snoc configs config s :
  applyMultipleIndicators chart (configs ++ [config]) s
  = applyNext chart (applyMultipleIndicators chart configs s) config.
Proof. by rewrite /applyMultipleIndicators fold_left_app. Qed.

Lemma applyMultipleIndicators_adds configs s :
  adds (bridge s) (bridge (applyMultipleIndicators chart configs s).2).
Proof.
  induction configs as [|config configs IH] using rev_ind; [apply adds_refl|].
  rewrite applyMultipleIndicators_snoc. eapply adds_trans; [exact IH|]. apply applyNext_adds.
Qed.

Lemma drawTrendLine_adds startPoint endPoint style label s :
  adds (bridge s) (bridge (drawTrendLine chart startPoint endPoint style label s).2).
Proof.
  rewrite /drawTrendLine. destruct (chartRef (bridge s)) as [api|] eqn:Hc; [|apply adds_refl].
  destruct (answerShape chart _) as [[shape|]|e]; simpl; try apply adds_refl.
  rewrite /adds /= Hc. by split_and!.
Qed.

Lemma addPriceTargetLabel_adds target s :
  adds (bridge s) (bridge (addPriceTargetLabel chart target s).2).
Proof.
  rewrite /addPriceTargetLabel.
  destruct (chartRef (bridge s)) as [api|] eqn:Hc; [|apply adds_refl].
  simpl. destruct (answerShape chart _) as [[label|]|e]; simpl; try apply adds_refl.
  rewrite /adds /= Hc. split_and!; try done.
  intros k. apply get_is_Some_set.
Qed.

Lemma drawPriceTarget_adds target style s :
  adds (bridge s) (bridge (drawPriceTarget chart target style s).2).
Proof.
  rewrite /drawPriceTarget.
  destruct (chartRef (bridge s)) as [api|] eqn:Hc; [|apply adds_refl].
  simpl. destruct (answerShape chart _) as [[line|]|e]; simpl; try apply adds_refl.
  match goal with
  | |- context [addPriceTargetLabel chart target ?s3] =>
      pose proof (addPriceTargetLabel_adds target s3) as H;
      destruct (addPriceTargetLabel chart target s3) as [[label|e] s4]
  end; simpl in *;
    (eapply adds_trans; [|exact H]); rewrite /adds /= Hc; by split_and!.
Qed.

Lemma drawNextTarget_adds acc target :
  adds (bridge acc.2) (bridge (drawNextTarget chart acc target).2).
Proof.
  rewrite /drawNextTarget. pose proof (drawPriceTarget_adds target ∅ acc.2) as H.
  destruct (drawPriceTarget chart target ∅ acc.2) as [[drawn|e] s']; simpl in *; [done|].
  eapply adds_trans; [exact H|]. apply adds_console.
Qed.

Lemma drawMultiplePriceTargets_snoc targets target s :
  drawMultiplePriceTargets chart (targets ++ [target]) s
  = drawNextTarget chart (drawMultiplePriceTargets chart targets s) target.
Proof. by rewrite /drawMultiplePriceTargets fold_left_app. Qed.

Lemma drawMultiplePriceTargets_adds targets s :
  adds (bridge s) (bridge (drawMultiplePriceTargets chart targets s).2).
Proof.
  induction targets as [|target targets IH] using rev_ind; [apply adds_refl|].
  rewrite drawMultiplePriceTargets_snoc. eapply adds_trans; [exact IH|].
  apply drawNextTarget_adds.
Qed.

End Adding.

(** *** Operations that remove from the chart *)

Section Removing.
Implicit Types (b : Bridge).

Lemma evolves_removed b b' h :
  chartRef b' = chartRef b → is_Some (chartRef b) →
  removeCalls b' = removeCalls b ++ [h] → h ∈ removable b →
  appliedAnnotations b' = appliedAnnotations b →
  evolves b b'.
Proof.
  intros Hc [api Hapi] Hr Hh Ha. rewrite /evolves. split_and!; [done| | |].
  - by rewrite Hapi.
  - exists [h]. split; [done|]. by intros x ->%list_elem_of_singleton.
  - by rewrite Ha.
Qed.

Lemma removeIndicator_evolves k b : evolves b (removeIndicator k b).2.
Proof.
  rewrite /removeIndicator.
  destruct (JsMap.get k (appliedIndicators b)) as [h|] eqn:Hk;
    [|apply adds_evolves, adds_refl].
  destruct (chartRef b) as [api|] eqn:Hc; [|apply adds_evolves, adds_refl].
  assert (h ∈ removable b) as Hh.
  { rewrite /removable. apply elem_of_app. left. by apply get_Some_values in Hk. }
  destruct (removeEntity api h); by apply (evolves_removed _ _ h); rewrite ?Hc.
Qed.

Lemma removePattern_evolves k b : evolves b (removePattern k b).2.
Proof.
  rewrite /removePattern.
  destruct (JsMap.get k (appliedPatterns b)) as [h|] eqn:Hk;
    [|apply adds_evolves, adds_refl].
  destruct (chartRef b) as [api|] eqn:Hc; [|apply adds_evolves, adds_refl].
  assert (h ∈ removable b) as Hh.
  { rewrite /removable. apply elem_of_app. right. apply elem_of_app. left.
    by apply get_Some_values in Hk. }
  destruct (removeEntity api h); by apply (evolves_removed _ _ h); rewrite ?Hc.
Qed.

Lemma removePriceTarget_evolves k b : evolves b (removePriceTarget k b).2.
Proof.
  rewrite /removePriceTarget.
  destruct (JsMap.get k (appliedPriceTargets b)) as [h|] eqn:Hk;
    [|apply adds_evolves, adds_refl].
  destruct (chartRef b) as [api|] eqn:Hc; [|apply adds_evolves, adds_refl].
  assert (h ∈ removable b) as Hh.
  { rewrite /removable. apply elem_of_app. right. apply elem_of_app. right.
    by apply get_Some_values in Hk. }
  destruct (removeEntity api h); by apply (evolves_removed _ _ h); rewrite ?Hc.
Qed.

Lemma removeAllStudies_evolves method b : evolves b (removeAllStudies method b).2.
Proof.
  rewrite /removeAllStudies.
  destruct (chartRef b) as [api|] eqn:Hc; [|apply adds_evolves, adds_refl].
  apply adds_evolves. rewrite /adds. destruct method as [[[]|e]|]; by rewrite /= Hc.
Qed.

Lemma clearAllIndicators_evolves b : evolves b (clearAllIndicators b).2.
Proof.
  rewrite /clearAllIndicators.
  destruct (chartRef b) as [api|] eqn:Hc; [|apply adds_evolves, adds_refl].
  destruct (fold_tryRemove api "indicator" (JsMap.entries (appliedIndicators b)) b)
    as (Hr & _ & Hc' & _ & _ & Ha & _).
  rewrite /evolves /= Hr Hc' Ha Hc. split_and!; [done|done| |done].
  eexists. split; [done|]. rewrite /removable. intros h Hh. apply elem_of_app. by left.
Qed.

Lemma clearAllPatterns_evolves b : evolves b (clearAllPatterns b).2.
Proof.
  rewrite /clearAllPatterns.
  destruct (chartRef b) as [api|] eqn:Hc; [|apply adds_evolves, adds_refl].
  destruct (fold_tryRemove api "pattern" (JsMap.entries (appliedPatterns b)) b)
    as (Hr & _ & Hc' & _ & _ & Ha & _).
  rewrite /evolves /= Hr Hc' Ha Hc. split_and!; [done|done| |done].
  eexists. split; [done|]. rewrite /removable. intros h Hh.
  apply elem_of_app. right. apply elem_of_app. by left.
Qed.

Lemma clearAllPriceTargets_evolves b : evolves b (clearAllPriceTargets b).2.
Proof.
  rewrite /clearAllPriceTargets.
  destruct (chartRef b) as [api|] eqn:Hc; [|apply adds_evolves, adds_refl].
  destruct (fold_tryRemove api "price target" (JsMap.entries (appliedPriceTargets b)) b)
    as (Hr & _ & Hc' & _ & _ & Ha & _).
  rewrite /evolves /= Hr Hc' Ha Hc. split_and!; [done|done| |done].
  eexists. split; [done|]. rewrite /removable. intros h Hh.
  apply elem_of_app. right. apply elem_of_app. by right.
Qed.

End Removing.

(** *** Any operation *)

Section Stepping.
Variable N : Numbers.
Variable chart : ChartBehaviour N.
Implicit Types (s : Session N) (op : BridgeOp N).

Lemma updatePriceTarget_evolves targetId newTarget s :
  evolves (bridge s) (bridge (updatePriceTarget chart targetId newTarget s).2).
Proof.
  rewrite /updatePriceTarget. pose proof (removePriceTarget_evolves targetId (bridge s)) as H.
  destruct (removePriceTarget targetId (bridge s)) as [[[]|e] b]; simpl in *; [|done].
  eapply evolves_adds; [exact H|].
  apply (drawPriceTarget_adds N chart newTarget ∅ (onBridge (λ _, b) s)).
Qed.

Lemma step_cases op s :
  (∃ api, op = OpRegister N api) ∨ forgets op = true
  ∨ evolves (bridge s) (bridge (step chart s op)).
Proof.
  destruct op; simpl; try (by right; left); try (by left; eexists); right; right.
  - apply adds_evolves, addStudy_adds.
  - apply adds_evolves, addStudy_adds.
  - apply adds_evolves, addStudy_adds.
  - apply adds_evolves, addStudy_adds.
  - apply adds_evolves, addStudy_adds.
  - apply adds_evolves, applyIndicator_adds.
  - apply adds_evolves, applyMultipleIndicators_adds.
  - apply removeIndicator_evolves.
  - apply removePattern_evolves.
  - apply removePriceTarget_evolves.
  - apply removeAllStudies_evolves.
  - apply clearAllIndicators_evolves.
  - apply clearAllPatterns_evolves.
  - apply clearAllPriceTargets_evolves.
  - apply adds_evolves, drawTrendLine_adds.
  - apply adds_evolves, drawPriceTarget_adds.
  - apply adds_evolves, drawMultiplePriceTargets_adds.
  - apply updatePriceTarget_evolves.
Qed.

Lemma resetChart_tables resetData b :
  chartRef (resetChart resetData b).2 = chartRef b
  ∧ removeCalls (resetChart resetData b).2 = removeCalls b
  ∧ (noEntries (resetChart resetData b).2
     ∨ ∃ e, is_Some (chartRef b) ∧ resetData = Throw e ∧ (resetChart resetData b).2 = b).
Proof.
  rewrite /resetChart.
  destruct (chartRef b) as [api|] eqn:Hc, resetData as [[]|e]; simpl;
    (split; [done|]); (split; [done|]); try (by left).
  right. exists e. by split_and!; [eexists| |].
Qed.

Lemma step_inv op s :
  (chartRef (bridge s) = None → noEntries (bridge s)) →
  chartRef (bridge (step chart s op)) = None → noEntries (bridge (step chart s op)).
Proof.
  intros Hinv. destruct (step_cases op s) as [[api ->]|[Hop|(Hc & Ht & _)]].
  - done.
  - destruct op; try done; simpl.
    destruct (resetChart_tables resetData (bridge s))
      as (Hc & _ & [Hcleared|(e & [api Hapi] & _ & Hsame)]); [done|].
    rewrite Hsame Hapi. done.
  - rewrite Hc. intros Hnone. destruct (Ht Hnone) as (Hi & Hp & Ha & Hq).
    destruct (Hinv Hnone) as (Hi' & Hp' & Ha' & Hq'). rewrite /noEntries.
    by rewrite Hi Hp Ha Hq.
Qed.

Lemma steps_snoc ops op s : steps chart (ops ++ [op]) s = step chart (steps chart ops s) op.
Proof. by rewrite /steps fold_left_app. Qed.

Lemma steps_inv ops :
  chartRef (bridge (steps chart ops (initialSession N))) = None →
  noEntries (bridge (steps chart ops (initialSession N))).
Proof.
  induction ops as [|op ops IH] using rev_ind; [done|].
  rewrite steps_snoc. by apply step_inv.
Qed.

End Stepping.

(** X15. Whatever operations a client has chained since the module was
    loaded, the four tables are empty whenever no chart is registered:
    entries are only written behind the check of [chartRef], and
    [unregisterWidget], the one place that drops the chart, clears every
    table. Hence each clear-all operation leaves its table empty in every
    state that can be reached, with or without a chart. *)
Theorem tables_need_a_chart (N : Numbers) (chart : ChartBehaviour N) (ops : list (BridgeOp N)) :
  let b := bridge (steps chart ops (initialSession N)) in
  (chartRef b = None → noEntries b)
  ∧ appliedIndicators (clearAllIndicators b).2 = JsMap.empty
  ∧ appliedPatterns (clearAllPatterns b).2 = JsMap.empty
  ∧ appliedPriceTargets (clearAllPriceTargets b).2 = JsMap.empty.
Proof.
  cbv zeta. pose proof (steps_inv N chart ops) as Hinv.
  split; [done|].
  rewrite /clearAllIndicators /clearAllPatterns /clearAllPriceTargets.
  destruct (chartRef (bridge (steps chart ops (initialSession N)))) as [api|]; [done|].
  destruct (Hinv eq_refl) as (Hi & Hp & _ & Hq). by rewrite /= Hi Hp Hq.
Qed.

(** X16. No operation of the bridge takes an annotation off the chart. The
    handles that an operation passes to [removeEntity] all come from the
    tables of indicators, patterns and price targets as they were before
    it; an entry of [appliedAnnotations] stays (possibly with a newer
    handle) under every operation but [unregisterWidget] and [resetChart],
    and these two clear the table without any call of [removeEntity]. So
    the label that [drawPriceTarget] adds next to its line is not removed
    by [removePriceTarget], [updatePriceTarget] or [clearAllPriceTargets]. *)
Theorem annotations_are_never_removed (N : Numbers) (chart : ChartBehaviour N)
    (op : BridgeOp N) (s : Session N) :
  let b := bridge s in
  let b' := bridge (step chart s op) in
  (∃ added, removeCalls b' = removeCalls b ++ added ∧ added ⊆ removable b)
  ∧ (forgets op = false →
     ∀ k, is_Some (JsMap.get k (appliedAnnotations b)) →
          is_Some (JsMap.get k (appliedAnnotations b')))
  ∧ (forgets op = true → removeCalls b' = removeCalls b).
Proof.
  cbv zeta.
  assert (forgets op = true →
          removeCalls (bridge (step chart s op)) = removeCalls (bridge s)) as Hforgets.
  { destruct op; try done; simpl; intros _.
    by destruct (resetChart_tables resetData (bridge s)) as (_ & Hr & _). }
  destruct (step_cases N chart op s) as [[api ->]|[Hop|(_ & _ & Hr & Ha)]].
  - split_and!; [|done|done]. exists []. split; [by rewrite app_nil_r|apply list_subseteq_nil].
  - rewrite Hop. split_and!; [|done|by intros _; apply Hforgets].
    exists []. split; [by rewrite app_nil_r Hforgets|apply list_subseteq_nil].
  - by split_and!.
Qed.

(** *** [applyIndicator] and [applyMultipleIndicators] *)

Section Applying.
Variable N : Numbers.
Variable chart : ChartBehaviour N.
Implicit Types (s : Session N) (config : IndicatorConfig).

Lemma applyIndicator_with_chart config s api :
  chartRef (bridge s) = Some api →
  (applyIndicator chart config s).1 = answerStudy chart (studyCalls s ++ [studyCallOf config])
  ∧ studyCalls (applyIndicator chart config s).2 = studyCalls s ++ [studyCallOf config].
Proof.
  intros Hc. rewrite /applyIndicator Hc /=.
  by destruct (answerStudy chart _) as [[study|]|e].
Qed.

Lemma applyIndicator_without_chart config s :
  chartRef (bridge s) = None →
  applyIndicator chart config s = (Throw (ThrownError chartNotAvailable), s).
Proof. intros Hc. by rewrite /applyIndicator Hc. Qed.

Lemma applyNext_with_chart acc config api :
  chartRef (bridge acc.2) = Some api →
  (applyNext chart acc config).1
  = acc.1 ++ [orNull (answerStudy chart (studyCalls acc.2 ++ [studyCallOf config]))]
  ∧ studyCalls (applyNext chart acc config).2 = studyCalls acc.2 ++ [studyCallOf config].
Proof.
  intros Hc. destruct (applyIndicator_with_chart config acc.2 api Hc) as [Hr Hcalls].
  rewrite /applyNext. destruct (applyIndicator chart config acc.2) as [[study|e] s'];
    simpl in *; by rewrite -Hr.
Qed.

Lemma applyNext_without_chart acc config :
  chartRef (bridge acc.2) = None →
  (applyNext chart acc config).1 = acc.1 ++ [None]
  ∧ studyCalls (applyNext chart acc config).2 = studyCalls acc.2
  ∧ appliedIndicators (bridge (applyNext chart acc config).2) = appliedIndicators (bridge acc.2)
  ∧ console (bridge (applyNext chart acc config).2)
    = console (bridge acc.2)
        ++ [("Failed to apply indicator " +:+ cfg_name config +:+ ":",
             ThrownError chartNotAvailable)].
Proof. intros Hc. by rewrite /applyNext applyIndicator_without_chart. Qed.

Lemma applyMultipleIndicators_length configs s :
  length (applyMultipleIndicators chart configs s).1 = length configs.
Proof.
  induction configs as [|config configs IH] using rev_ind; [done|].
  rewrite applyMultipleIndicators_snoc /applyNext.
  destruct (applyIndicator chart config _) as [[study|e] s'];
    by rewrite /= !length_app IH.
Qed.

Lemma applyMultipleIndicators_chartRef configs s :
  chartRef (bridge (applyMultipleIndicators chart configs s).2) = chartRef (bridge s).
Proof. by destruct (applyMultipleIndicators_adds N chart configs s) as (-> & _). Qed.

Lemma applyMultipleIndicators_with_chart configs s api :
  chartRef (bridge s) = Some api →
  studyCalls (applyMultipleIndicators chart configs s).2
  = studyCalls s ++ (studyCallOf <$> configs)
  ∧ ∀ i, i < length configs →
      (applyMultipleIndicators chart configs s).1 !! i
      = Some (orNull (answerStudy chart
                        (studyCalls s ++ (studyCallOf <$> take (S i) configs)))).
Proof.
  intros Hc. induction configs as [|config configs [IHcalls IHres]] using rev_ind.
  - split; [by rewrite /= app_nil_r|]. simpl. lia.
  - rewrite applyMultipleIndicators_snoc.
    destruct (applyNext_with_chart (applyMultipleIndicators chart configs s) config api)
      as [Hres Hcalls]; [by rewrite applyMultipleIndicators_chartRef|].
    rewrite Hres Hcalls IHcalls fmap_app -assoc. split; [done|].
    intros i Hi. rewrite length_app /= in Hi.
    destruct (decide (i < length configs)) as [Hlt|Hge].
    + rewrite lookup_app_l; [by rewrite applyMultipleIndicators_length|].
      by rewrite IHres // take_app_le.
    + assert (i = length configs) as -> by lia.
      rewrite lookup_app_r applyMultipleIndicators_length // Nat.sub_diag /=.
      rewrite take_app_ge; [lia|].
      replace (S (length configs) - length configs) with 1 by lia.
      by rewrite fmap_app.
Qed.

Lemma applyMultipleIndicators_without_chart configs s :
  chartRef (bridge s) = None →
  (applyMultipleIndicators chart configs s).1 = replicate (length configs) None
  ∧ studyCalls (applyMultipleIndicators chart configs s).2 = studyCalls s
  ∧ appliedIndicators (bridge (applyMultipleIndicators chart configs s).2)
    = appliedIndicators (bridge s)
  ∧ console (bridge (applyMultipleIndicators chart configs s).2)
    = console (bridge s)
        ++ ((λ config, ("Failed to apply indicator " +:+ cfg_name config +:+ ":",
                        ThrownError chartNotAvailable)) <$> configs).
Proof.
  intros Hc. induction configs as [|config configs (IHres & IHcalls & IHtable & IHconsole)]
    using rev_ind.
  - by rewrite /= app_nil_r.
  - rewrite applyMultipleIndicators_snoc.
    destruct (applyNext_without_chart (applyMultipleIndicators chart configs s) config)
      as (-> & -> & -> & ->); [by rewrite applyMultipleIndicators_chartRef|].
    rewrite IHres IHcalls IHtable IHconsole length_app /= fmap_app -assoc.
    split_and!; try done. by rewrite Nat.add_1_r replicate_S_end.
Qed.

End Applying.

(** X17. [applyMultipleIndicators] answers for every configuration, in
    order, and one failure does not stop the rest. With a chart registered
    it calls [createStudy] exactly once per configuration, with the
    optimized parameters, and the i-th result is what that call gave,
    [null] standing for a throw. Without a chart every result is [null],
    no call is made on the chart, the table of indicators is as it was, and
    each configuration leaves a line on the console. *)
Theorem applyMultipleIndicators_results (N : Numbers) (chart : ChartBehaviour N)
    (configs : list IndicatorConfig) (s : Session N) :
  let r := applyMultipleIndicators chart configs s in
  length r.1 = length configs
  ∧ chartRef (bridge r.2) = chartRef (bridge s)
  ∧ (is_Some (chartRef (bridge s)) →
     studyCalls r.2 = studyCalls s ++ (studyCallOf <$> configs)
     ∧ ∀ i, i < length configs →
         r.1 !! i = Some (orNull (answerStudy chart
                                    (studyCalls s ++ (studyCallOf <$> take (S i) configs)))))
  ∧ (chartRef (bridge s) = None →
     r.1 = replicate (length configs) None
     ∧ studyCalls r.2 = studyCalls s
     ∧ appliedIndicators (bridge r.2) = appliedIndicators (bridge s)
     ∧ console (bridge r.2)
       = console (bridge s)
           ++ ((λ config, ("Failed to apply indicator " +:+ cfg_name config +:+ ":",
                           ThrownError chartNotAvailable)) <$> configs)).
Proof.
  cbv zeta. split_and!.
  - apply applyMultipleIndicators_length.
  - apply applyMultipleIndicators_chartRef.
  - intros [api Hc]. by apply (applyMultipleIndicators_with_chart N chart configs s api).
  - apply applyMultipleIndicators_without_chart.
Qed.

(** X18. Applying an indicator under a name that the table already holds
    replaces the handle and removes nothing from the chart: the table keeps
    one entry per name, so the study applied first can no longer be reached
    and a later [removeIndicator] takes only the newer study off the chart.
    Under a fresh name, [removeIndicator] after [applyIndicator] gives the
    table back as it was. *)
Theorem applyIndicator_replaces (N : Numbers) (chart : ChartBehaviour N)
    (config : IndicatorConfig) (s : Session N) (api : ChartApi) (study : Handle) :
  chartRef (bridge s) = Some api →
  answerStudy chart (studyCalls s ++ [studyCallOf config]) = Normal (Some study) →
  let name := cfg_name config in
  let s' := (applyIndicator chart config s).2 in
  let r := removeIndicator name (bridge s') in
  (applyIndicator chart config s).1 = Normal (Some study)
  ∧ JsMap.get name (appliedIndicators (bridge s')) = Some study
  ∧ (∀ k, k ≠ name →
       JsMap.get k (appliedIndicators (bridge s')) = JsMap.get k (appliedIndicators (bridge s)))
  ∧ (is_Some (JsMap.get name (appliedIndicators (bridge s))) →
     getAppliedIndicators (bridge s') = getAppliedIndicators (bridge s))
  ∧ removeCalls (bridge s') = removeCalls (bridge s)
  ∧ removeCalls r.2 = removeCalls (bridge s) ++ [study]
  ∧ (removeEntity api study = Normal () →
     JsMap.get name (appliedIndicators r.2) = None
     ∧ (JsMap.get name (appliedIndicators (bridge s)) = None →
        appliedIndicators r.2 = appliedIndicators (bridge s))).
Proof.
  intros Hc Hanswer. cbv zeta.
  rewrite /applyIndicator Hc /= Hanswer /=.
  rewrite /removeIndicator /= JsMapFacts.get_set_eq Hc.
  split_and!; try done.
  - intros k Hk. by apply JsMapFacts.get_set_ne.
  - intros [old Hold]. by apply (JsMapFacts.keys_set_bound _ _ _ old).
  - by destruct (removeEntity api study).
  - intros ->. simpl. split; [apply JsMapFacts.get_delete_eq|]. apply delete_set_fresh.
Qed.

Lemma applyIndicator_replaces_witness :
  let s := (applyIndicator SampleChart.chart SampleChart.rsi SampleChart.registered).2 in
  let s' := (applyIndicator SampleChart.chart SampleChart.rsi s).2 in
  chartRef (bridge s) = Some SampleChart.willingChart
  ∧ answerStudy SampleChart.chart (studyCalls s ++ [studyCallOf SampleChart.rsi])
    = Normal (Some 2)
  ∧ JsMap.get "RSI" (appliedIndicators (bridge s)) = Some 1
  ∧ appliedIndicators (bridge s') = [("RSI", 2)]
  ∧ removeCalls (removeIndicator "RSI" (bridge s')).2 = [2]
  ∧ appliedIndicators (removeIndicator "RSI" (bridge s')).2 = [].
Proof.
  cbv zeta. split; [done|]. split; [done|]. split; [done|].
  destruct (applyIndicator_replaces SampleChart.rationals SampleChart.chart SampleChart.rsi
              (applyIndicator SampleChart.chart SampleChart.rsi SampleChart.registered).2
              SampleChart.willingChart 2 eq_refl eq_refl)
    as (_ & Hget & _ & _ & _ & Hcalls & _).
  split; [done|]. split; [exact Hcalls|]. done.
Defined.

(** X19. Removing by key, for each of the three tables: an unknown key, or
    a missing chart, makes the call a no-op that reports nothing; otherwise
    [removeEntity] is called once on the handle of the key; if it throws,
    the throw reaches the caller and the entry stays in the table (the
    clear-all operations, by contrast, catch and drop the entry); if it
    returns, the entry of that key is gone and every other key reads as
    before. *)
Theorem removal_by_key :
  removesByKey appliedIndicators removeIndicator
  ∧ removesByKey appliedPatterns removePattern
  ∧ removesByKey appliedPriceTargets removePriceTarget.
Proof.
  rewrite /removesByKey /removeIndicator /removePattern /removePriceTarget.
  split_and!; intros key b; cbv zeta; (split; [intros [->| ->]; [done|by case_match]|]);
    intros h api -> ->; destruct (removeEntity api h) as [[]|e]; simpl;
    split_and!; try done;
    first [apply JsMapFacts.get_delete_eq
          |intros key' Hne; by apply JsMapFacts.get_delete_ne].
Qed.

(** *** Price targets and trend lines *)

Section Styles.
Context {V : Type}.

Lemma style_union_covered (color lineWidth width : V) :
  ({[ "color" := color; "lineWidth" := lineWidth ]} ∪ {[ "lineWidth" := width ]}
     : gmap string V)
  = {[ "color" := color; "lineWidth" := lineWidth ]}.
Proof.
  apply map_eq. intros k. rewrite lookup_union.
  destruct (decide (k = "lineWidth")) as [->|Hw]; [by simplify_map_eq|].
  destruct (decide (k = "color")) as [->|Hc]; by simplify_map_eq.
Qed.

End Styles.

(** X20. The style of a price target does not depend on the confidence:
    every entry of the style map sets [lineWidth], and the map is spread
    after the base style, so the width computed from the confidence never
    reaches the chart. The style is the colour of the type with the width 2
    ([ENTRY], [TARGET]) or 3 ([STOP_LOSS]). *)
Theorem getPriceTargetStyle_ignores_confidence (N : Numbers) (targetType : TargetType)
    (confidence confidence' : number N) :
  getPriceTargetStyle targetType confidence = getPriceTargetStyle targetType confidence'
  ∧ getPriceTargetStyle targetType confidence !! "lineWidth"
    = Some (SNumber (num_lit N match targetType with STOP_LOSS => 3 | _ => 2 end))
  ∧ getPriceTargetStyle targetType confidence !! "color"
    = Some (SText match targetType with
                  | ENTRY => "#2196F3"
                  | TARGET => "#4CAF50"
                  | STOP_LOSS => "#F44336"
                  end)
  ∧ dom (getPriceTargetStyle targetType confidence) = {[ "color"; "lineWidth" ]}.
Proof.
  rewrite /getPriceTargetStyle.
  destruct targetType; rewrite !style_union_covered; split_and!; try done;
    by rewrite ?dom_insert_L ?dom_singleton_L.
Qed.

(** X21. [drawPriceTarget], once the chart has created the line: the line
    is stored under the key of the target, whatever was stored under that
    key before is replaced without being removed from the chart, and the
    label is asked for with a second [createShape], after a second reading
    of the clock. If that second call throws, [drawPriceTarget] throws
    although the line is on the chart and in the table. A later
    [removePriceTarget] of the key takes the line off the chart and leaves
    the table of annotations, and so the label, as it is. *)
Theorem drawPriceTarget_outcome (N : Numbers) (chart : ChartBehaviour N)
    (target : PriceTarget N) (style : gmap string (StyleVal N)) (s : Session N)
    (api : ChartApi) (line : Handle) :
  chartRef (bridge s) = Some api →
  answerShape chart (shapeCalls s ++ [lineShape (clock chart (clockReads s)) target style])
  = Normal (Some line) →
  let calls :=
    shapeCalls s ++ [lineShape (clock chart (clockReads s)) target style;
                     labelShape (clock chart (S (clockReads s))) target] in
  let r := drawPriceTarget chart target style s in
  let r' := removePriceTarget (targetKey target) (bridge r.2) in
  JsMap.get (targetKey target) (appliedPriceTargets (bridge r.2)) = Some line
  ∧ (∀ k, k ≠ targetKey target →
       JsMap.get k (appliedPriceTargets (bridge r.2))
       = JsMap.get k (appliedPriceTargets (bridge s)))
  ∧ shapeCalls r.2 = calls
  ∧ clockReads r.2 = S (S (clockReads s))
  ∧ removeCalls (bridge r.2) = removeCalls (bridge s)
  ∧ match answerShape chart calls with
    | Throw e =>
        r.1 = Throw e ∧ appliedAnnotations (bridge r.2) = appliedAnnotations (bridge s)
    | Normal None =>
        r.1 = Normal (Some {| drawn_id := targetKey target; drawn_line := line;
                              drawn_label := None |})
        ∧ appliedAnnotations (bridge r.2) = appliedAnnotations (bridge s)
    | Normal (Some label) =>
        r.1 = Normal (Some {| drawn_id := targetKey target; drawn_line := line;
                              drawn_label := Some (labelKey target, label) |})
        ∧ JsMap.get (labelKey target) (appliedAnnotations (bridge r.2)) = Some label
    end
  ∧ removeCalls r'.2 = removeCalls (bridge s) ++ [line]
  ∧ appliedAnnotations r'.2 = appliedAnnotations (bridge r.2).
Proof.
  intros Hc Hline. cbv zeta.
  rewrite /drawPriceTarget Hc /readClock /= Hline /addPriceTargetLabel /= Hc /readClock /=.
  rewrite -(assoc_L (++)) /=. clear Hline.
  destruct (answerShape chart _) as [[label|]|e]; simpl;
    rewrite /removePriceTarget /= JsMapFacts.get_set_eq Hc;
    (split_and!; try done;
     try (by intros k Hk; apply JsMapFacts.get_set_ne);
     try (by apply JsMapFacts.get_set_eq);
     first [by rewrite -(assoc_L (++)) | by destruct (removeEntity api line)]).
Qed.

Lemma drawPriceTarget_outcome_witness :
  let r := drawPriceTarget SampleChart.noLabelChart SampleChart.entry ∅
             SampleChart.registered in
  chartRef (bridge SampleChart.registered) = Some SampleChart.willingChart
  ∧ answerShape SampleChart.noLabelChart
      (shapeCalls SampleChart.registered
         ++ [lineShape (clock SampleChart.noLabelChart (clockReads SampleChart.registered))
               SampleChart.entry ∅])
    = Normal (Some 101)
  ∧ r.1 = Throw (ThrownError "no text shapes")
  ∧ JsMap.get "entry_100.25" (appliedPriceTargets (bridge r.2)) = Some 101
  ∧ length (shapeCalls r.2) = 2.
Proof.
  cbv zeta. split; [done|]. split; [done|].
  destruct (drawPriceTarget_outcome SampleChart.rationals SampleChart.noLabelChart
              SampleChart.entry ∅ SampleChart.registered SampleChart.willingChart 101
              eq_refl eq_refl)
    as (Hget & _ & Hcalls & _ & _ & Hlabel & _).
  split; [exact (proj1 Hlabel)|]. split; [exact Hget|]. by rewrite Hcalls.
Defined.

(** X22. [drawTrendLine], once the chart has created the shape: the shape
    is a horizontal line at the start point, the end point has no effect on
    the call, its result or the state; the shape is stored under
    [trendline_] followed by the clock reading in milliseconds, so a trend
    line drawn within the same millisecond as an earlier one takes over its
    entry, and the earlier shape stays on the chart with no entry left. In
    the overrides the caller's [color] and [lineWidth] win whenever the
    style has these keys, whatever their values; the defaults [#2196F3] and
    2 apply only when a key is absent. *)
Theorem drawTrendLine_outcome (N : Numbers) (chart : ChartBehaviour N)
    (startPoint endPoint endPoint' : ChartCoordinate N) (style : gmap string (StyleVal N))
    (label : option string) (s : Session N) (api : ChartApi) (shape : Handle) :
  chartRef (bridge s) = Some api →
  answerShape chart (shapeCalls s ++ [trendShape startPoint style label])
  = Normal (Some shape) →
  let r := drawTrendLine chart startPoint endPoint style label s in
  let key := trendKey (clock chart (clockReads s)) in
  r.1 = Normal (Some (key, shape))
  ∧ JsMap.get key (appliedPatterns (bridge r.2)) = Some shape
  ∧ (∀ k, k ≠ key →
       JsMap.get k (appliedPatterns (bridge r.2)) = JsMap.get k (appliedPatterns (bridge s)))
  ∧ (is_Some (JsMap.get key (appliedPatterns (bridge s))) →
     getAppliedPatterns (bridge r.2) = getAppliedPatterns (bridge s))
  ∧ removeCalls (bridge r.2) = removeCalls (bridge s)
  ∧ shapeCalls r.2 = shapeCalls s ++ [trendShape startPoint style label]
  ∧ clockReads r.2 = S (clockReads s)
  ∧ drawTrendLine chart startPoint endPoint' style label s = r
  ∧ shape_kind (trendShape startPoint style label) = "horizontal_line"
  ∧ (∀ k v, style !! k = Some v →
       shape_overrides (trendShape startPoint style label) !! k = Some v)
  ∧ (style !! "color" = None →
     shape_overrides (trendShape startPoint style label) !! "color"
     = Some (SText "#2196F3"))
  ∧ (style !! "lineWidth" = None →
     shape_overrides (trendShape startPoint style label) !! "lineWidth"
     = Some (SNumber (num_lit N 2))).
Proof.
  intros Hc Hshape. cbv zeta.
  rewrite /drawTrendLine Hc /= Hshape /readClock /=.
  split_and!; try done.
  - apply JsMapFacts.get_set_eq.
  - intros k Hk. by apply JsMapFacts.get_set_ne.
  - intros [old Hold]. by apply (JsMapFacts.keys_set_bound _ _ _ old).
  - intros k v Hk. by apply lookup_union_Some_l.
  - intros Hk. rewrite lookup_union_r // /styleOf Hk /=. by simplify_map_eq.
  - intros Hk. rewrite lookup_union_r // /styleOf Hk /=. by simplify_map_eq.
Qed.

Lemma drawTrendLine_outcome_witness :
  let origin : ChartCoordinate SampleChart.rationals :=
    Build_ChartCoordinate SampleChart.rationals (QArith_base.inject_Z 1700000000)
      (QArith_base.inject_Z 100) in
  let s := (drawTrendLine SampleChart.frozenChart origin origin ∅ None
              SampleChart.registered).2 in
  let r := drawTrendLine SampleChart.frozenChart origin origin ∅ (Some "support") s in
  chartRef (bridge s) = Some SampleChart.willingChart
  ∧ answerShape SampleChart.frozenChart
      (shapeCalls s ++ [trendShape origin ∅ (Some "support")])
    = Normal (Some 102)
  ∧ appliedPatterns (bridge s) = [("trendline_1700000000000", 101)]
  ∧ r.1 = Normal (Some ("trendline_1700000000000", 102))
  ∧ getAppliedPatterns (bridge r.2) = ["trendline_1700000000000"]
  ∧ removeCalls (bridge r.2) = [].
Proof.
  cbv zeta. split; [done|]. split; [done|]. split; [done|].
  destruct (drawTrendLine_outcome SampleChart.rationals SampleChart.frozenChart
              (Build_ChartCoordinate SampleChart.rationals (QArith_base.inject_Z 1700000000)
                 (QArith_base.inject_Z 100))
              (Build_ChartCoordinate SampleChart.rationals (QArith_base.inject_Z 1700000000)
                 (QArith_base.inject_Z 100))
              (Build_ChartCoordinate SampleChart.rationals (QArith_base.inject_Z 1700000000)
                 (QArith_base.inject_Z 100))
              ∅ (Some "support")
              (drawTrendLine SampleChart.frozenChart
                 (Build_ChartCoordinate SampleChart.rationals
                    (QArith_base.inject_Z 1700000000) (QArith_base.inject_Z 100))
                 (Build_ChartCoordinate SampleChart.rationals
                    (QArith_base.inject_Z 1700000000) (QArith_base.inject_Z 100))
                 ∅ None SampleChart.registered).2
              SampleChart.willingChart 102 eq_refl eq_refl)
    as (Hr & _ & _ & Hkeys & Hcalls & _).
  split; [exact Hr|]. split; [|exact Hcalls].
  rewrite Hkeys; [by eexists|done].
Defined.

Section Targets.
Variable N : Numbers.
Variable chart : ChartBehaviour N.
Implicit Types (s : Session N) (target : PriceTarget N).

Lemma drawPriceTarget_without_chart target style s :
  chartRef (bridge s) = None →
  drawPriceTarget chart target style s = (Throw (ThrownError chartNotAvailable), s).
Proof. intros Hc. by rewrite /drawPriceTarget Hc. Qed.

(** Each [createShape] comes with one reading of the clock: the line
    always, the label when the line was created. *)
Lemma drawPriceTarget_counts target style s :
  is_Some (chartRef (bridge s)) →
  ∃ labels, labels ≤ 1
    ∧ length (shapeCalls (drawPriceTarget chart target style s).2)
      = length (shapeCalls s) + 1 + labels
    ∧ clockReads (drawPriceTarget chart target style s).2 = clockReads s + 1 + labels.
Proof.
  intros [api Hc]. rewrite /drawPriceTarget Hc /readClock /=.
  destruct (answerShape chart _) as [[line|]|e]; simpl;
    [|exists 0; rewrite length_app /=; split_and!; lia..].
  rewrite /addPriceTargetLabel /= Hc /readClock /=.
  exists 1. destruct (answerShape chart _) as [[label|]|e]; simpl;
    rewrite !length_app /=; split_and!; lia.
Qed.

Lemma drawMultiplePriceTargets_length targets s :
  length (drawMultiplePriceTargets chart targets s).1 = length targets.
Proof.
  induction targets as [|target targets IH] using rev_ind; [done|].
  rewrite drawMultiplePriceTargets_snoc /drawNextTarget.
  destruct (drawPriceTarget chart target ∅ _) as [[drawn|e] s'];
    by rewrite /= !length_app IH.
Qed.

Lemma drawMultiplePriceTargets_chartRef targets s :
  chartRef (bridge (drawMultiplePriceTargets chart targets s).2) = chartRef (bridge s).
Proof. by destruct (drawMultiplePriceTargets_adds N chart targets s) as (-> & _). Qed.

Lemma drawNextTarget_calls acc target :
  shapeCalls (drawNextTarget chart acc target).2
  = shapeCalls (drawPriceTarget chart target ∅ acc.2).2
  ∧ clockReads (drawNextTarget chart acc target).2
    = clockReads (drawPriceTarget chart target ∅ acc.2).2.
Proof.
  rewrite /drawNextTarget. by destruct (drawPriceTarget chart target ∅ acc.2) as [[drawn|e] s'].
Qed.

Lemma drawMultiplePriceTargets_counts targets s :
  is_Some (chartRef (bridge s)) →
  ∃ labels, labels ≤ length targets
    ∧ length (shapeCalls (drawMultiplePriceTargets chart targets s).2)
      = length (shapeCalls s) + length targets + labels
    ∧ clockReads (drawMultiplePriceTargets chart targets s).2
      = clockReads s + length targets + labels.
Proof.
  intros Hc. induction targets as [|target targets (labels & Hle & Hcalls & Hreads)]
    using rev_ind.
  - exists 0. simpl. split_and!; lia.
  - rewrite drawMultiplePriceTargets_snoc.
    destruct (drawNextTarget_calls (drawMultiplePriceTargets chart targets s) target)
      as [-> ->].
    destruct (drawPriceTarget_counts target ∅ (drawMultiplePriceTargets chart targets s).2)
      as (more & Hmore & -> & ->); [by rewrite drawMultiplePriceTargets_chartRef|].
    exists (labels + more). rewrite length_app /=. split_and!; lia.
Qed.

Lemma drawMultiplePriceTargets_without_chart targets s :
  chartRef (bridge s) = None →
  (drawMultiplePriceTargets chart targets s).1 = replicate (length targets) None
  ∧ shapeCalls (drawMultiplePriceTargets chart targets s).2 = shapeCalls s
  ∧ clockReads (drawMultiplePriceTargets chart targets s).2 = clockReads s
  ∧ appliedPriceTargets (bridge (drawMultiplePriceTargets chart targets s).2)
    = appliedPriceTargets (bridge s)
  ∧ console (bridge (drawMultiplePriceTargets chart targets s).2)
    = console (bridge s)
        ++ ((λ target, ("Failed to draw price target "
                          +:+ targetTypeName (target_type target) +:+ " at "
                          +:+ num_text N (target_level target) +:+ ":",
                        ThrownError chartNotAvailable)) <$> targets).
Proof.
  intros Hc.
  induction targets as [|target targets (IHres & IHcalls & IHreads & IHtable & IHconsole)]
    using rev_ind.
  - by rewrite /= app_nil_r.
  - rewrite drawMultiplePriceTargets_snoc /drawNextTarget.
    rewrite drawPriceTarget_without_chart; [by rewrite drawMultiplePriceTargets_chartRef|].
    rewrite /= IHres IHcalls IHreads IHtable IHconsole length_app /= fmap_app -assoc.
    split_and!; try done. by rewrite Nat.add_1_r replicate_S_end.
Qed.

Lemma onBridge_same s : onBridge (λ _, bridge s) s = s.
Proof. by destruct s. Qed.

End Targets.

(** X23. [drawMultiplePriceTargets] answers for every target, in order, and
    never throws. With a chart registered each target costs one
    [createShape] for the line and at most one more for the label, and the
    clock is read once for each of these calls. Without a chart every
    result is [null], nothing is asked of the chart or of the clock, the
    table of price targets is as it was, and each target leaves a line on
    the console. *)
Theorem drawMultiplePriceTargets_results (N : Numbers) (chart : ChartBehaviour N)
    (targets : list (PriceTarget N)) (s : Session N) :
  let r := drawMultiplePriceTargets chart targets s in
  length r.1 = length targets
  ∧ chartRef (bridge r.2) = chartRef (bridge s)
  ∧ (is_Some (chartRef (bridge s)) →
     ∃ labels, labels ≤ length targets
       ∧ length (shapeCalls r.2) = length (shapeCalls s) + length targets + labels
       ∧ clockReads r.2 = clockReads s + length targets + labels)
  ∧ (chartRef (bridge s) = None →
     r.1 = replicate (length targets) None
     ∧ shapeCalls r.2 = shapeCalls s
     ∧ clockReads r.2 = clockReads s
     ∧ appliedPriceTargets (bridge r.2) = appliedPriceTargets (bridge s)
     ∧ console (bridge r.2)
       = console (bridge s)
           ++ ((λ target, ("Failed to draw price target "
                             +:+ targetTypeName (target_type target) +:+ " at "
                             +:+ num_text N (target_level target) +:+ ":",
                           ThrownError chartNotAvailable)) <$> targets)).
Proof.
  cbv zeta. split_and!.
  - apply drawMultiplePriceTargets_length.
  - apply drawMultiplePriceTargets_chartRef.
  - apply drawMultiplePriceTargets_counts.
  - apply drawMultiplePriceTargets_without_chart.
Qed.

(** X24. [updatePriceTarget] removes before it draws. For an id that the
    table does not hold, or without a chart, it is [drawPriceTarget] of the
    new target. When the removal of the old line throws, the throw reaches
    the caller, nothing is drawn and the old entry stays. Otherwise the old
    line is the one handle passed to [removeEntity], and what follows is
    [drawPriceTarget] on the table without the old entry. *)
Theorem updatePriceTarget_outcome (N : Numbers) (chart : ChartBehaviour N)
    (targetId : string) (newTarget : PriceTarget N) (s : Session N) :
  let r := updatePriceTarget chart targetId newTarget s in
  (JsMap.get targetId (appliedPriceTargets (bridge s)) = None ∨ chartRef (bridge s) = None →
   r = drawPriceTarget chart newTarget ∅ s)
  ∧ (∀ old api,
       JsMap.get targetId (appliedPriceTargets (bridge s)) = Some old →
       chartRef (bridge s) = Some api →
       match removeEntity api old with
       | Throw e =>
           r.1 = Throw e
           ∧ shapeCalls r.2 = shapeCalls s
           ∧ clockReads r.2 = clockReads s
           ∧ appliedPriceTargets (bridge r.2) = appliedPriceTargets (bridge s)
           ∧ removeCalls (bridge r.2) = removeCalls (bridge s) ++ [old]
       | Normal _ =>
           r = drawPriceTarget chart newTarget ∅
                 (onBridge (λ b, withPriceTargets
                                   (JsMap.delete targetId (appliedPriceTargets b))
                                   (withRemoveCall old b)) s)
           ∧ removeCalls (bridge r.2) = removeCalls (bridge s) ++ [old]
       end).
Proof.
  cbv zeta. rewrite /updatePriceTarget. split.
  - intros Hnone.
    assert (removePriceTarget targetId (bridge s) = (Normal (), bridge s)) as ->.
    { rewrite /removePriceTarget. destruct Hnone as [-> | ->]; [done|by case_match]. }
    by rewrite onBridge_same.
  - intros old api Hold Hc. rewrite /removePriceTarget Hold Hc.
    destruct (removeEntity api old) as [[]|e]; simpl; [|done].
    split; [done|].
    by destruct (drawPriceTarget_adds N chart newTarget ∅
                   (onBridge (λ _, withPriceTargets
                                     (JsMap.delete targetId (appliedPriceTargets (bridge s)))
                                     (withRemoveCall old (bridge s))) s))
      as (_ & _ & -> & _).
Qed.

(** *** The moving averages *)

Lemma movingAverageKey_inj (ema ema' : bool) (period period' : Z) :
  movingAverageKey ema period = movingAverageKey ema' period' →
  ema = ema' ∧ period = period'.
Proof.
  rewrite /movingAverageKey.
  destruct ema, ema'; intros H; vm_compute String.append in H; try discriminate;
    (split; [done|]); injection H as H; by apply (inj pretty).
Qed.

Lemma movingAverageKey_other (ema : bool) (period : Z) (k : string) :
  k ∈ ["RSI"; "MACD"; "BB"; "Stochastic"] → movingAverageKey ema period ≠ k.
Proof.
  rewrite /movingAverageKey. intros Hk H.
  destruct ema; vm_compute String.append in H;
    repeat (apply elem_of_cons in Hk as [->|Hk]; [discriminate|]);
    by apply elem_of_nil in Hk.
Qed.

(** X25. A moving average is stored under its type and period, so moving
    averages that differ in type or period are tracked side by side, and
    none of them touches the entries [RSI], [MACD], [BB] and [Stochastic]
    of the other helpers; adding the same type and period again replaces
    the handle. The period defaults to 20. *)
Theorem addMovingAverage_keys (N : Numbers) (chart : ChartBehaviour N) (period : Z)
    (ema : bool) (s : Session N) (api : ChartApi) (study : Handle) :
  chartRef (bridge s) = Some api →
  answerStudy chart
    (studyCalls s
       ++ [{| call_name := if ema then "Moving Average Exponential" else "Moving Average";
              call_forceOverlay := false;
              call_lock := true;
              call_inputs := {[ "length" := JNum period ]} |}])
  = Normal (Some study) →
  let r := addMovingAverage chart (Some period) ema s in
  r.1 = Normal (Some study)
  ∧ JsMap.get (movingAverageKey ema period) (appliedIndicators (bridge r.2)) = Some study
  ∧ (∀ ema' period', (ema', period') ≠ (ema, period) →
       JsMap.get (movingAverageKey ema' period') (appliedIndicators (bridge r.2))
       = JsMap.get (movingAverageKey ema' period') (appliedIndicators (bridge s)))
  ∧ (∀ k, k ∈ ["RSI"; "MACD"; "BB"; "Stochastic"] →
       JsMap.get k (appliedIndicators (bridge r.2))
       = JsMap.get k (appliedIndicators (bridge s)))
  ∧ removeCalls (bridge r.2) = removeCalls (bridge s)
  ∧ (period = 20%Z → addMovingAverage chart None ema s = r).
Proof.
  intros Hc Hanswer. cbv zeta.
  rewrite /addMovingAverage /addStudy Hc /= Hanswer /=. split_and!; try done.
  - apply JsMapFacts.get_set_eq.
  - intros ema' period' Hne. apply JsMapFacts.get_set_ne.
    intros [-> ->]%movingAverageKey_inj. done.
  - intros k Hk. apply JsMapFacts.get_set_ne. by apply movingAverageKey_other.
  - intros ->. by rewrite Hanswer.
Qed.

Lemma addMovingAverage_keys_witness :
  let s := (addMovingAverage SampleChart.chart (Some 50%Z) false SampleChart.registered).2 in
  let r := addMovingAverage SampleChart.chart (Some 50%Z) true s in
  chartRef (bridge s) = Some SampleChart.willingChart
  ∧ answerStudy SampleChart.chart
      (studyCalls s
         ++ [{| call_name := "Moving Average Exponential";
                call_forceOverlay := false;
                call_lock := true;
                call_inputs := {[ "length" := JNum 50 ]} |}])
    = Normal (Some 2)
  ∧ r.1 = Normal (Some 2)
  ∧ JsMap.get "EMA_50" (appliedIndicators (bridge r.2)) = Some 2
  ∧ JsMap.get "SMA_50" (appliedIndicators (bridge r.2)) = Some 1.
Proof.
  cbv zeta. split; [done|]. split; [done|].
  destruct (addMovingAverage_keys SampleChart.rationals SampleChart.chart 50 true
              (addMovingAverage SampleChart.chart (Some 50%Z) false SampleChart.registered).2
              SampleChart.willingChart 2 eq_refl eq_refl)
    as (Hr & Hget & Hother & _).
  split; [exact Hr|]. split; [exact Hget|].
  by rewrite (Hother false 50%Z).
Defined.

(** *** Reading the indicators back *)

Lemma interpretIndicatorSignals_map (b : Bridge) :
  interpretIndicatorSignals b
  = (λ entry, {| res_name := entry.1;
                 res_values := [];
                 res_parameters := ∅;
                 res_interpretation := getIndicatorInterpretation entry.1;
                 res_signal := getIndicatorSignal entry.1 |})
      <$> JsMap.entries (appliedIndicators b).
Proof.
  rewrite /interpretIndicatorSignals.
  induction (JsMap.entries (appliedIndicators b)) as [|entry entries IH] using rev_ind;
    [done|].
  by rewrite fold_left_app /= IH fmap_app.
Qed.

Lemma movingAverage_interpretation (ema : bool) (period : Z) :
  getIndicatorInterpretation (movingAverageKey ema period)
  = Text "Technical indicator for market analysis".
Proof.
  rewrite /getIndicatorInterpretation /movingAverageKey.
  destruct ema; by vm_compute String.append.
Qed.

(** X26. [interpretIndicatorSignals] gives one result per applied
    indicator, named by the key of the table and in the order of the
    table, always with the signal [NEUTRAL], no values and no parameters.
    The interpretation is looked up by that key, and the table of
    interpretations is keyed by study names: an indicator applied under
    [RSI], [MACD] or [Stochastic] gets its own text, while the keys that
    [addMovingAverage] and [addBollingerBands] store under ([SMA_20],
    [EMA_50], ..., [BB]) only get the generic text. *)
Theorem interpretIndicatorSignals_results (b : Bridge) :
  let generic := Text "Technical indicator for market analysis" in
  res_name <$> interpretIndicatorSignals b = getAppliedIndicators b
  ∧ Forall (λ result, res_signal result = NEUTRAL
                      ∧ res_values result = []
                      ∧ res_parameters result = ∅
                      ∧ res_interpretation result
                        = getIndicatorInterpretation (res_name result))
      (interpretIndicatorSignals b)
  ∧ (∀ ema period, getIndicatorInterpretation (movingAverageKey ema period) = generic)
  ∧ getIndicatorInterpretation "BB" = generic
  ∧ getIndicatorInterpretation "RSI" ≠ generic
  ∧ getIndicatorInterpretation "MACD" ≠ generic
  ∧ getIndicatorInterpretation "Stochastic" ≠ generic.
Proof.
  cbv zeta. rewrite interpretIndicatorSignals_map. split_and!; try done.
  - rewrite -list_fmap_compose. by apply list_fmap_ext.
  - apply Forall_fmap, Forall_forall. by intros entry _.
  - apply movingAverage_interpretation.
Qed.

(** *** Without a chart *)

Section NoChart.
Variable N : Numbers.
Variable chart : ChartBehaviour N.
Implicit Types (s : Session N) (op : BridgeOp N).

Lemma untouched_refl s : untouched s s.
Proof. by rewrite /untouched. Qed.

Lemma untouched_trans s1 s2 s3 : untouched s1 s2 → untouched s2 s3 → untouched s1 s3.
Proof.
  intros (H1 & H2 & H3 & H4 & H5) (H1' & H2' & H3' & H4' & H5'). rewrite /untouched.
  by rewrite H1' H2' H3' H4' H5'.
Qed.

Lemma untouched_console line s : untouched s (onBridge (withConsole line) s).
Proof. by rewrite /untouched. Qed.

Lemma addStudy_without_chart key studyName lock params s :
  chartRef (bridge s) = None →
  addStudy chart key studyName lock params s = (Normal None, s).
Proof. intros Hc. by rewrite /addStudy Hc. Qed.

Lemma drawTrendLine_without_chart startPoint endPoint style label s :
  chartRef (bridge s) = None →
  drawTrendLine chart startPoint endPoint style label s
  = (Throw (ThrownError chartNotAvailable), s).
Proof. intros Hc. by rewrite /drawTrendLine Hc. Qed.

Lemma removePriceTarget_without_chart targetId b :
  chartRef b = None → removePriceTarget targetId b = (Normal (), b).
Proof. intros Hc. rewrite /removePriceTarget Hc. by case_match. Qed.

Lemma updatePriceTarget_without_chart targetId newTarget s :
  chartRef (bridge s) = None →
  updatePriceTarget chart targetId newTarget s = (Throw (ThrownError chartNotAvailable), s).
Proof.
  intros Hc. rewrite /updatePriceTarget removePriceTarget_without_chart //.
  by rewrite onBridge_same drawPriceTarget_without_chart.
Qed.

Lemma applyMultipleIndicators_untouched configs s :
  chartRef (bridge s) = None → untouched s (applyMultipleIndicators chart configs s).2.
Proof.
  intros Hc. induction configs as [|config configs IH] using rev_ind;
    [apply untouched_refl|].
  rewrite applyMultipleIndicators_snoc /applyNext applyIndicator_without_chart;
    [by rewrite applyMultipleIndicators_chartRef|].
  eapply untouched_trans; [exact IH|]. apply untouched_console.
Qed.

Lemma drawMultiplePriceTargets_untouched targets s :
  chartRef (bridge s) = None → untouched s (drawMultiplePriceTargets chart targets s).2.
Proof.
  intros Hc. induction targets as [|target targets IH] using rev_ind;
    [apply untouched_refl|].
  rewrite drawMultiplePriceTargets_snoc /drawNextTarget drawPriceTarget_without_chart;
    [by rewrite drawMultiplePriceTargets_chartRef|].
  eapply untouched_trans; [exact IH|]. apply untouched_console.
Qed.

Lemma step_untouched op s :
  chartRef (bridge s) = None → (∀ api, op ≠ OpRegister N api) →
  untouched s (step chart s op).
Proof.
  intros Hc Hop. destruct op; simpl;
    rewrite ?addStudy_without_chart ?applyIndicator_without_chart
      ?drawTrendLine_without_chart ?drawPriceTarget_without_chart
      ?updatePriceTarget_without_chart /addMACD /addRSI /addMovingAverage
      /addBollingerBands /addStochastic ?addStudy_without_chart //;
    try apply untouched_refl.
  - by destruct (Hop api).
  - destruct (resetChart_tables resetData (bridge s)) as (Hc' & Hr & _).
    by rewrite /untouched /= Hc' Hr.
  - by apply applyMultipleIndicators_untouched.
  - rewrite /untouched /= /removeIndicator Hc. by case_match.
  - rewrite /untouched /= /removePattern Hc. by case_match.
  - by rewrite /untouched /= removePriceTarget_without_chart.
  - by rewrite /untouched /= /removeAllStudies Hc.
  - by rewrite /untouched /= /clearAllIndicators Hc.
  - by rewrite /untouched /= /clearAllPatterns Hc.
  - by rewrite /untouched /= /clearAllPriceTargets Hc.
  - by apply drawMultiplePriceTargets_untouched.
Qed.

End NoChart.


